(** * Field mapping and note assembly of the AI flashcard generator

    A shallow embedding of [qt/aqt/ai_generator.py] (class
    [AiGeneratorDialog]): the note assembler [_create_note] with its helpers
    [_assign_source_field] and [_format_source], the preview projection
    [_display_field], the batch selection of [_add_notes] and
    [_on_add_success], and the model list handling of
    [_populate_model_combo] and [_on_refresh_models]; then the rest of the
    dialog: the callers [_on_add_all] and [_on_add_selected], the request
    builders [_build_request] and [_build_config_request], the key fields
    ([_collect_api_keys], [_reset_api_key_fields] and the loop of
    [_load_configuration] over the saved keys), and the slots
    [_on_provider_changed], [_on_clear_clicked] and [_on_generate_clicked]
    with [_on_generate_finished].

    Python values are embedded as follows.
    - [str] is [string]; the character-level library functions ([lower],
      [strip], [html.escape]) are given on the ASCII range, where they
      coincide with Python's.
    - [int] is [Z]; an integer is falsy exactly when it is [0].
    - a [list] is a [list]; reading or writing an index out of range raises
      [IndexError], which the embedding keeps as an explicit result.
    - a [dict] is an association list in insertion order with pairwise
      distinct keys (the iteration order of a Python dict).
    - a [set] of integers is a [gset Z]. *)

From Stdlib Require Import ZArith Ascii String.
From stdpp Require Import base option list sorting strings gmap.

Local Open Scope string_scope.
Local Open Scope list_scope.
Local Open Scope nat_scope.

(** ** Python strings *)

Module PyStr.

(** The line feed, the double quote, and the two separators: the blank
    line of the assembler and the line break of the source formatter. *)
Definition nl : ascii := "010"%char.
Definition dquote : ascii := "034"%char.
Definition blank_line : string := String nl (String nl EmptyString).
Definition br : string := "<br>".

Definition code (c : ascii) : nat := nat_of_ascii c.

(** [str.isspace] on one ASCII character: TAB, LF, VT, FF, CR, the four
    separators FS, GS, RS, US, and the space. *)
Definition is_space (c : ascii) : bool :=
  let n := code c in
  (((9 <=? n) && (n <=? 13)) || ((28 <=? n) && (n <=? 32)))%nat.

Definition is_upper (c : ascii) : bool :=
  let n := code c in ((65 <=? n) && (n <=? 90))%nat.

Definition lower_char (c : ascii) : ascii :=
  if is_upper c then ascii_of_nat (code c + 32) else c.

(** [s.lower()] *)
Fixpoint lower (s : string) : string :=
  match s with
  | EmptyString => EmptyString
  | String c s' => String (lower_char c) (lower s')
  end.

(** [s.lstrip()] *)
Fixpoint lstrip (s : string) : string :=
  match s with
  | EmptyString => EmptyString
  | String c s' => if is_space c then lstrip s' else s
  end.

(** [s.rstrip()]: a character is dropped when it and everything after it
    is white space. *)
Fixpoint rstrip (s : string) : string :=
  match s with
  | EmptyString => EmptyString
  | String c s' =>
      match rstrip s' with
      | EmptyString => if is_space c then EmptyString else String c EmptyString
      | r => String c r
      end
  end.

(** [s.strip()] *)
Definition strip (s : string) : string := rstrip (lstrip s).

(** Truthiness of a string: [if s:] *)
Definition truthy (s : string) : bool :=
  match s with EmptyString => false | String _ _ => true end.

(** [sep.join(parts)] *)
Fixpoint join (sep : string) (parts : list string) : string :=
  match parts with
  | [] => EmptyString
  | [p] => p
  | p :: ps => p +:+ sep +:+ join sep ps
  end.

(** [html.escape(s, quote=True)]; [quote=True] is also the default, so all
    three call sites of [_format_source] escape the same five characters. *)
Definition escape_char (c : ascii) : string :=
  if Ascii.eqb c "&" then "&amp;"
  else if Ascii.eqb c "<" then "&lt;"
  else if Ascii.eqb c ">" then "&gt;"
  else if Ascii.eqb c dquote then "&quot;"
  else if Ascii.eqb c "'" then "&#x27;"
  else String c EmptyString.

Fixpoint escape (s : string) : string :=
  match s with
  | EmptyString => EmptyString
  | String c s' => escape_char c +:+ escape s'
  end.

End PyStr.

Import PyStr.

(** ** Exceptions, results and Python containers *)

(** The two translated messages [_create_note] raises an [AnkiError] with. *)
Inductive TrMsg : Type :=
| ai_generation_error_missing_notetype
| ai_generation_error_invalid_notetype.

Inductive PyExc : Type :=
| AnkiError (msg : TrMsg)
| IndexError.

Inductive Result (A : Type) : Type :=
| Ok (a : A)
| Raise (e : PyExc).

Arguments Ok {A} a.
Arguments Raise {A} e.

#[global] Instance Result_ret : MRet Result := fun A a => Ok a.
#[global] Instance Result_bind : MBind Result :=
  fun A B k m => match m with Ok a => k a | Raise e => Raise e end.

Module Py.

(** Position addressed by [l[i]] in a list of length [n]: negative indices
    count from the end, anything outside [-n .. n-1] raises. *)
Definition position (n : nat) (i : Z) : Result nat :=
  let j := if (i <? 0)%Z then (i + Z.of_nat n)%Z else i in
  if ((j <? 0) || (Z.of_nat n <=? j))%Z then Raise IndexError
  else Ok (Z.to_nat j).

(** [l[i]] *)
Definition getitem {A} (l : list A) (i : Z) : Result A :=
  p ← position (length l) i;
  match l !! p with Some x => Ok x | None => Raise IndexError end.

(** [l[i] = x] *)
Definition setitem {A} (l : list A) (i : Z) (x : A) : Result (list A) :=
  p ← position (length l) i; Ok (<[p:=x]> l).

(** [a or b] on integers *)
Definition or_int (a b : Z) : Z := if decide (a = 0%Z) then b else a.

(** [enumerate(l)] *)
Definition enumerate {A} (l : list A) : list (nat * A) := imap pair l.

(** A [dict] from strings to strings, in insertion order. *)
Abbreviation dict := (list (string * string)).

(** [d[k] = v]: an existing key keeps its place and takes the new value, a
    new key goes last. *)
Fixpoint dict_set (k v : string) (d : dict) : dict :=
  match d with
  | [] => [(k, v)]
  | (k', v') :: d' =>
      if decide (k = k') then (k', v) :: d' else (k', v') :: dict_set k v d'
  end.

(** [d.get(k)] *)
Fixpoint dict_get (k : string) (d : dict) : option string :=
  match d with
  | [] => None
  | (k', v') :: d' => if decide (k = k') then Some v' else dict_get k d'
  end.

(** [d.pop(k, default)]: the value and the dict without the key. *)
Fixpoint dict_pop (k : string) (d : dict) (default : string) : string * dict :=
  match d with
  | [] => (default, [])
  | (k', v') :: d' =>
      if decide (k = k') then (v', d')
      else let '(v, r) := dict_pop k d' default in (v, (k', v') :: r)
  end.

(** [d.values()] *)
Definition dict_values (d : dict) : list string := d.*2.

(** [if d:] *)
Definition dict_truthy (d : dict) : bool :=
  match d with [] => false | _ :: _ => true end.

End Py.

(** ** Data model *)

(** [ai_pb.GeneratedNoteField] *)
Record GeneratedNoteField : Type := {
  field_name : string;
  field_value : string;
}.

(** [ai_pb.GeneratedNoteSource]; an unset string field reads as the empty
    string. *)
Record GeneratedNoteSource : Type := {
  title : string;
  url : string;
  excerpt : string;
}.

(** [ai_pb.GeneratedNote]. [source] is [None] when [proto.source] is falsy,
    which a protobuf sub-message never is: a candidate read from a response
    has [Some] attribution, with empty parts when none was set. Unset
    identifiers read as [0]. *)
Record GeneratedNote : Type := {
  fields : list GeneratedNoteField;
  source : option GeneratedNoteSource;
  note_type_id : Z;
  deck_id : Z;
}.

(** A notetype as returned by [col.models.get]: of the dict only
    [notetype["flds"]] is read, and of each entry only [field["name"]]. *)
Record Notetype : Type := {
  flds : list string;
}.

(** The collection: [col.models.get(id)] is the lookup in [models],
    [col.decks.get_current_id()] is [decks_current_id]. *)
Record Collection : Type := {
  models : gmap Z Notetype;
  decks_current_id : Z;
}.

Record PreviewNote : Type := {
  proto : GeneratedNote;
  display_front : string;
  display_back : string;
  display_source : string;
}.

(** A row of [form.previewTree]: the three column texts and the index
    stored under [Qt.ItemDataRole.UserRole]. *)
Record TreeItem : Type := {
  text0 : string;
  text1 : string;
  text2 : string;
  user_role : nat;
}.

(** The editable [form.modelOverrideCombo]. *)
Record ComboBox : Type := {
  items : list string;
  currentText : string;
}.

(** The dialog state read or written by the modelled methods. A combo's
    [currentData()] is [None] when the combo has no current item. *)
Record Dialog : Type := {
  _generated_notes : list PreviewNote;
  previewTree : list TreeItem;
  useDefaultNoteType : bool;
  _default_notetype_id : Z;
  noteTypeCombo : option Z;
  deckCombo : option Z;
  providerCombo : Z;
  modelOverrideCombo : ComboBox;
  _models_cache : gmap Z (list string);
  _selected_models : gmap Z string;
}.

(** [AddNoteRequest(note=note, deck_id=deck_id)]; the note is recorded by
    its field values. *)
Record AddNoteRequest : Type := {
  req_note : list string;
  req_deck_id : Z;
}.

(** ** Source formatter: [_format_source] *)

Definition anchor (source : GeneratedNoteSource) : string :=
  "<a href=" +:+ String dquote (escape (url source))
    +:+ String dquote ">" +:+ escape (title source) +:+ "</a>".

Definition _format_source (source : GeneratedNoteSource) : string :=
  let parts : list string := [] in
  let parts :=
    if truthy (excerpt source) then parts ++ [escape (excerpt source)]
    else parts in
  let parts :=
    if truthy (url source) then
      if truthy (title source) then parts ++ [anchor source]
      else parts ++ [escape (url source)]
    else if truthy (title source) then parts ++ [escape (title source)]
    else parts in
  join br parts.

(** ** Note assembler: [_create_note] and [_assign_source_field] *)

(** Modelled from the spec: [col.new_note(notetype)] lives in
    [anki.collection], outside this file; the data model fixes that a note
    has one value per template slot, and a new note has them all empty. *)
Definition new_note (notetype : Notetype) : list string :=
  replicate (length (flds notetype)) EmptyString.

(** The objects [_create_note] works on: the candidate it was given, the
    local [field_map] and [note.fields]. [field_map.pop] and the item
    assignments on [note.fields] are the only writes in the method. *)
Record Frame : Type := {
  fr_proto : GeneratedNote;
  field_map : Py.dict;
  note_fields : list string;
}.

Definition set_note_fields (fr : Frame) (nf : list string) : Frame :=
  {| fr_proto := fr_proto fr; field_map := field_map fr; note_fields := nf |}.

(** [{field.name.lower(): field.value for field in proto.fields}] *)
Definition build_field_map (fs : list GeneratedNoteField) : Py.dict :=
  foldl (fun d field => Py.dict_set (lower (field_name field)) (field_value field) d)
        [] fs.

(** One turn of the matching loop:
    [name = field["name"].lower(); value = field_map.pop(name, "");
     note.fields[idx] = value]. *)
Definition match_slot (idx : nat) (field : string) (fr : Frame) : Result Frame :=
  let name := lower field in
  let '(value, fm) := Py.dict_pop name (field_map fr) EmptyString in
  nf ← Py.setitem (note_fields fr) (Z.of_nat idx) value;
  Ok {| fr_proto := fr_proto fr; field_map := fm; note_fields := nf |}.

(** [for idx, field in enumerate(notetype["flds"])], from index [idx] on. *)
Fixpoint match_slots (idx : nat) (slots : list string) (fr : Frame) : Result Frame :=
  match slots with
  | [] => Ok fr
  | field :: rest => fr' ← match_slot idx field fr; match_slots (S idx) rest fr'
  end.

(** The loop of [_assign_source_field]: [Some] is the early [return] after
    the assignment, [None] is the loop running to its end. *)
Fixpoint assign_source_loop (idx : nat) (slots : list string)
    (nf : list string) (value : string) : option (Result (list string)) :=
  match slots with
  | [] => None
  | field :: rest =>
      if decide (lower field = "source") then Some (Py.setitem nf (Z.of_nat idx) value)
      else assign_source_loop (S idx) rest nf value
  end.

Definition _assign_source_field (nf : list string) (notetype : Notetype)
    (value : string) : Result (list string) :=
  match assign_source_loop 0 (flds notetype) nf value with
  | Some r => r
  | None =>
      last ← Py.getitem nf (-1);
      Py.setitem nf (-1) (strip (last +:+ blank_line +:+ value))
  end.

(** [if proto.source: ...] *)
Definition place_source (notetype : Notetype) (fr : Frame) : Result Frame :=
  match source (fr_proto fr) with
  | None => Ok fr
  | Some src =>
      let source_value := _format_source src in
      nf ← _assign_source_field (note_fields fr) notetype source_value;
      Ok (set_note_fields fr nf)
  end.

(** [next((idx for idx, field in enumerate(flds) if field["name"].lower() == "back"), None)] *)
Definition back_index (notetype : Notetype) : option nat :=
  fst <$> list_find (fun field => lower field = "back") (flds notetype).

(** [[value.strip() for value in field_map.values() if value.strip()]] *)
Definition extras_of (fm : Py.dict) : list string :=
  filter (fun v => v ≠ EmptyString) (strip <$> Py.dict_values fm).

(** [if field_map: ...], the overflow onto the back field. *)
Definition append_extras (notetype : Notetype) (fr : Frame) : Result Frame :=
  if Py.dict_truthy (field_map fr) then
    match back_index notetype with
    | None => Ok fr
    | Some idx =>
        let extras := extras_of (field_map fr) in
        match extras with
        | [] => Ok fr
        | _ :: _ =>
            existing ← Py.getitem (note_fields fr) (Z.of_nat idx);
            let segments := [strip existing; join blank_line extras] in
            nf ← Py.setitem (note_fields fr) (Z.of_nat idx)
                   (join blank_line (filter (fun s => s ≠ EmptyString) segments));
            Ok (set_note_fields fr nf)
        end
    end
  else Ok fr.

(** The body of [_create_note] once the notetype is resolved. *)
Definition assemble (notetype : Notetype) (candidate : GeneratedNote) : Result Frame :=
  let fr := {| fr_proto := candidate;
               field_map := build_field_map (fields candidate);
               note_fields := new_note notetype |} in
  fr ← match_slots 0 (flds notetype) fr;
  fr ← place_source notetype fr;
  append_extras notetype fr.

Definition _current_note_type_id (self : Dialog) : Z :=
  default 0%Z (noteTypeCombo self).

Definition _current_deck_id (self : Dialog) : Z :=
  default 0%Z (deckCombo self).

Definition _effective_note_type_id (self : Dialog) : Z :=
  if useDefaultNoteType self && bool_decide (_default_notetype_id self ≠ 0%Z)
  then _default_notetype_id self
  else _current_note_type_id self.

Definition _create_note (self : Dialog) (col : Collection)
    (candidate : GeneratedNote) : Result (list string * Z) :=
  let notetype_id := Py.or_int (note_type_id candidate) (_effective_note_type_id self) in
  if decide (notetype_id = 0%Z) then
    Raise (AnkiError ai_generation_error_missing_notetype)
  else
    let deck := Py.or_int (deck_id candidate) (_current_deck_id self) in
    let deck := if decide (deck = 0%Z) then decks_current_id col else deck in
    match models col !! notetype_id with
    | None => Raise (AnkiError ai_generation_error_invalid_notetype)
    | Some notetype =>
        fr ← assemble notetype candidate;
        Ok (note_fields fr, deck)
    end.

(** ** Preview projector: [_display_field], [_display_source] *)

(** [for name in preferred_names: if name in mapping: return mapping[name]] *)
Fixpoint first_preferred (mapping : Py.dict) (preferred_names : list string)
    : option string :=
  match preferred_names with
  | [] => None
  | name :: rest =>
      match Py.dict_get name mapping with
      | Some v => Some v
      | None => first_preferred mapping rest
      end
  end.

(** [strip_html] is [anki.utils.strip_html], which calls into the backend;
    the projector is given over any such function. *)
Definition _display_field (strip_html : string -> string)
    (candidate : GeneratedNote) (preferred_names : list string) : string :=
  let mapping := build_field_map (fields candidate) in
  match first_preferred mapping preferred_names with
  | Some v => strip_html v
  | None =>
      match fields candidate with
      | first :: _ => strip_html (field_value first)
      | [] => EmptyString
      end
  end.

Definition _display_source (src : option GeneratedNoteSource) : string :=
  match src with
  | None => EmptyString
  | Some s =>
      let parts : list string := [] in
      let parts := if truthy (title s) then parts ++ [title s] else parts in
      let parts := if truthy (excerpt s) then parts ++ [excerpt s] else parts in
      let parts := if truthy (url s) then parts ++ [url s] else parts in
      join (String nl EmptyString) parts
  end.

(** ** Dialog state updates *)

Definition with_notes (self : Dialog) (notes : list PreviewNote)
    (tree : list TreeItem) : Dialog :=
  {| _generated_notes := notes;
     previewTree := tree;
     useDefaultNoteType := useDefaultNoteType self;
     _default_notetype_id := _default_notetype_id self;
     noteTypeCombo := noteTypeCombo self;
     deckCombo := deckCombo self;
     providerCombo := providerCombo self;
     modelOverrideCombo := modelOverrideCombo self;
     _models_cache := _models_cache self;
     _selected_models := _selected_models self |}.

Definition with_models (self : Dialog) (combo : ComboBox)
    (cache : gmap Z (list string)) (selected : gmap Z string) : Dialog :=
  {| _generated_notes := _generated_notes self;
     previewTree := previewTree self;
     useDefaultNoteType := useDefaultNoteType self;
     _default_notetype_id := _default_notetype_id self;
     noteTypeCombo := noteTypeCombo self;
     deckCombo := deckCombo self;
     providerCombo := providerCombo self;
     modelOverrideCombo := combo;
     _models_cache := cache;
     _selected_models := selected |}.

Definition tree_item (row : nat * PreviewNote) : TreeItem :=
  {| text0 := display_front row.2;
     text1 := display_back row.2;
     text2 := display_source row.2;
     user_role := row.1 |}.

(** [_set_preview_notes]: the candidate list is replaced and the tree is
    rebuilt with one row per candidate, carrying its position. *)
Definition _set_preview_notes (self : Dialog) (notes : list PreviewNote) : Dialog :=
  with_notes self notes (tree_item <$> Py.enumerate notes).

Definition preview_note (strip_html : string -> string)
    (candidate : GeneratedNote) : PreviewNote :=
  {| proto := candidate;
     display_front := _display_field strip_html candidate ["front"; "question"; "prompt"];
     display_back := _display_field strip_html candidate ["back"; "answer"; "response"];
     display_source := _display_source (source candidate) |}.

(** [_populate_preview(response)], on [response.notes]. *)
Definition _populate_preview (strip_html : string -> string) (self : Dialog)
    (notes : list GeneratedNote) : Dialog :=
  _set_preview_notes self (preview_note strip_html <$> notes).

(** ** Batch selector: [_add_notes], [_on_add_success] *)

(** What the dialog does to the outside that the claims speak of. *)
Inductive Event : Type :=
| EvCreateNote (candidate : GeneratedNote)
| EvShowInfo (msg : TrMsg)
| EvAddNotes (requests : list AddNoteRequest)
| EvTooltip
| EvShowException.

(** [sorted(s, reverse=True)] on a set of integers. *)
Definition sorted_reverse (s : gset Z) : list Z :=
  merge_sort Z.ge (elements s).

(** [sorted(set(indices), reverse=True)] *)
Definition unique_indices_of (indices : list Z) : list Z :=
  sorted_reverse (list_to_set indices).

(** How [_add_notes] ends: by a plain [return], by an exception leaving the
    method, or by starting the [CollectionOp] on the collected requests. *)
Inductive AddNotesExit : Type :=
| ExitReturn
| ExitRaise (e : PyExc)
| ExitCollectionOp (requests : list AddNoteRequest) (unique_indices : list Z).

(** The [for index in unique_indices] loop; [None] is the [return] after
    [showInfo], [Some (Raise _)] an exception that is not an [AnkiError]. *)
Fixpoint add_notes_loop (self : Dialog) (col : Collection)
    (unique_indices : list Z) (requests : list AddNoteRequest)
    (log : list Event) : option (Result (list AddNoteRequest)) * list Event :=
  match unique_indices with
  | [] => (Some (Ok requests), log)
  | index :: rest =>
      if (Z.of_nat (length (_generated_notes self)) <=? index)%Z then
        add_notes_loop self col rest requests log
      else
        match Py.getitem (_generated_notes self) index with
        | Raise e => (Some (Raise e), log)
        | Ok pn =>
            let log := log ++ [EvCreateNote (proto pn)] in
            match _create_note self col (proto pn) with
            | Ok (note, deck) =>
                add_notes_loop self col rest
                  (requests ++ [{| req_note := note; req_deck_id := deck |}]) log
            | Raise (AnkiError msg) => (None, log ++ [EvShowInfo msg])
            | Raise e => (Some (Raise e), log)
            end
        end
  end.

Definition _add_notes (self : Dialog) (col : Collection) (indices : list Z)
    : AddNotesExit * list Event :=
  let unique_indices := unique_indices_of indices in
  match unique_indices with
  | [] => (ExitReturn, [])
  | _ :: _ =>
      match add_notes_loop self col unique_indices [] [] with
      | (None, log) => (ExitReturn, log)
      | (Some (Raise e), log) => (ExitRaise e, log)
      | (Some (Ok requests), log) => (ExitCollectionOp requests unique_indices, log)
      end
  end.

Definition _on_add_success (self : Dialog) (indices : list Z) : Dialog * list Event :=
  let indices_set : gset Z := list_to_set indices in
  let notes :=
    snd <$> filter (fun row => Z.of_nat row.1 ∉ indices_set)
                   (Py.enumerate (_generated_notes self)) in
  (_set_preview_notes self notes, [EvTooltip]).

Definition _on_add_failure (self : Dialog) : Dialog * list Event :=
  (self, [EvShowException]).

(** [_add_notes] followed by the completion of the [CollectionOp] it may
    have started: [col.add_notes(requests)] either succeeds, and
    [_on_add_success(unique_indices)] runs, or fails, and [_on_add_failure]
    runs. [store_accepts] is the record store's answer. *)
Definition add_notes_session (store_accepts : list AddNoteRequest -> bool)
    (self : Dialog) (col : Collection) (indices : list Z) : Dialog * list Event :=
  match _add_notes self col indices with
  | (ExitCollectionOp requests unique_indices, log) =>
      let '(self', evs) :=
        if store_accepts requests then _on_add_success self unique_indices
        else _on_add_failure self in
      (self', log ++ EvAddNotes requests :: evs)
  | (_, log) => (self, log)
  end.

(** ** Model list: [_populate_model_combo], [_on_refresh_models] *)

(** The loop filling [unique] and [seen]. *)
Fixpoint unique_loop (models : list string) (unique : list string)
    (seen : gset string) : list string :=
  match models with
  | [] => unique
  | model :: rest =>
      let trimmed := strip model in
      if truthy trimmed && bool_decide (trimmed ∉ seen) then
        unique_loop rest (unique ++ [trimmed]) ({[trimmed]} ∪ seen)
      else unique_loop rest unique seen
  end.

(** The combo is cleared, refilled with [unique] and its text set back to
    [current_text], all under [blockSignals(True)]. *)
Definition _populate_model_combo (self : Dialog) (provider : Z)
    (models : option (list string)) (preserve_current : bool) : Dialog :=
  let combo := modelOverrideCombo self in
  let current_text :=
    if preserve_current then currentText combo
    else default EmptyString (_selected_models self !! provider) in
  let source :=
    match models with
    | Some ms => ms
    | None => default [] (_models_cache self !! provider)
    end in
  let unique := unique_loop source [] ∅ in
  let combo := {| items := unique; currentText := current_text |} in
  let selected :=
    if truthy (strip current_text)
    then <[provider := strip current_text]> (_selected_models self)
    else _selected_models self in
  with_models self combo (_models_cache self) selected.

(** The slot connected to [combo.editTextChanged]. *)
Definition _on_model_text_changed (self : Dialog) (text : string) : Dialog :=
  let provider := providerCombo self in
  let stripped := strip text in
  let selected :=
    if truthy stripped then <[provider := stripped]> (_selected_models self)
    else delete provider (_selected_models self) in
  with_models self (modelOverrideCombo self) (_models_cache self) selected.

(** [combo.setEditText(text)] with signals enabled: the text is set, and
    [editTextChanged] reaches its slot when the text is a new one. *)
Definition combo_setEditText (self : Dialog) (text : string) : Dialog :=
  let old := currentText (modelOverrideCombo self) in
  let combo := {| items := items (modelOverrideCombo self); currentText := text |} in
  let self' := with_models self combo (_models_cache self) (_selected_models self) in
  if decide (text = old) then self' else _on_model_text_changed self' text.

(** The [on_success] callback of [_on_refresh_models], for the provider
    the refresh was started for and [models = list(response.models)]. *)
Definition _on_refresh_models_on_success (self : Dialog) (provider : Z)
    (models : list string) : Dialog :=
  let self :=
    with_models self (modelOverrideCombo self)
      (<[provider := models]> (_models_cache self)) (_selected_models self) in
  let self := _populate_model_combo self provider (Some models) true in
  match models with
  | first :: _ =>
      if truthy (strip (currentText (modelOverrideCombo self))) then self
      else combo_setEditText self first
  | [] => self
  end.

(** ** Specification-side definitions

    These follow the words of the design document rather than the code and
    are what the code is compared with. *)

Definition named (k : string) (field : GeneratedNoteField) : Prop :=
  lower (field_name field) = k.

#[global] Instance named_dec k field : Decision (named k field).
Proof. unfold named. apply _. Defined.

(** The value of the last field of the candidate whose name is [k] up to
    letter case. *)
Definition last_value (k : string) (fs : list GeneratedNoteField) : option string :=
  field_value <$> last (filter (named k) fs).

(** The value of the first such field. *)
Definition first_value (k : string) (fs : list GeneratedNoteField) : option string :=
  field_value <$> head (filter (named k) fs).

(** The value the matcher gives a slot: the looked-up value, unless a slot
    before it carries the same name and has taken the value already. *)
Definition slot_match (fs : list GeneratedNoteField) (earlier : list string)
    (slot : string) : string :=
  if decide (lower slot ∈ lower <$> earlier) then EmptyString
  else default EmptyString (last_value (lower slot) fs).

(** The slot named "source", if the template has one. *)
Definition source_index (notetype : Notetype) : option nat :=
  fst <$> list_find (fun field => lower field = "source") (flds notetype).

(** The slot source placement writes to, if it writes at all. *)
Definition source_target (notetype : Notetype) (candidate : GeneratedNote)
    : option nat :=
  match source candidate with
  | None => None
  | Some _ =>
      match source_index notetype with
      | Some i => Some i
      | None => Some (length (flds notetype) - 1)
      end
  end.

(** The frame [_create_note] starts the matching loop with. *)
Definition initial_frame (notetype : Notetype) (candidate : GeneratedNote) : Frame :=
  {| fr_proto := candidate;
     field_map := build_field_map (fields candidate);
     note_fields := new_note notetype |}.

(** Field matching as section 4.1 words it: for a slot, the first field of
    that name wins. *)
Definition stated_first_wins (notetype : Notetype) (candidate : GeneratedNote)
    : Prop :=
  ∀ fr i slot,
    match_slots 0 (flds notetype) (initial_frame notetype candidate) = Ok fr →
    flds notetype !! i = Some slot →
    lower slot ∉ lower <$> take i (flds notetype) →
    note_fields fr !! i
      = Some (default EmptyString (first_value (lower slot) (fields candidate))).

(** Source placement as steps 4 and 5 word it: nothing is written for an
    empty formatted attribution, and the fallback trims before it
    concatenates. *)
Definition stated_place_source (notetype : Notetype) (fr : Frame) : list string :=
  match source (fr_proto fr) with
  | None => note_fields fr
  | Some src =>
      let formatted := _format_source src in
      if decide (formatted = EmptyString) then note_fields fr
      else
        match source_index notetype with
        | Some i => <[i := formatted]> (note_fields fr)
        | None =>
            let existing := default EmptyString (last (note_fields fr)) in
            <[length (note_fields fr) - 1
                := strip existing +:+ blank_line +:+ strip formatted]>
              (note_fields fr)
        end
  end.

(** The new value of the back slot when overflow writes it. *)
Definition overflow_value (existing : string) (extras : list string) : string :=
  if decide (strip existing = EmptyString) then join blank_line extras
  else strip existing +:+ blank_line +:+ join blank_line extras.

(** Overflow as step 6 words it: applied whenever a field is left over and
    a back slot exists, the join following the trimmed existing value after
    a blank-line separator. *)
Definition stated_append_extras (notetype : Notetype) (fr : Frame) : list string :=
  match field_map fr, back_index notetype with
  | _ :: _, Some idx =>
      let existing := default EmptyString (note_fields fr !! idx) in
      <[idx := strip existing +:+ blank_line
                 +:+ join blank_line (extras_of (field_map fr))]> (note_fields fr)
  | _, _ => note_fields fr
  end.

(** The preview projection as section 4.4 words it. *)
Fixpoint stated_display (strip_html : string -> string)
    (fs : list GeneratedNoteField) (names : list string) : string :=
  match names with
  | [] =>
      match fs with
      | first :: _ => strip_html (field_value first)
      | [] => EmptyString
      end
  | name :: rest =>
      match last_value name fs with
      | Some v => strip_html v
      | None => stated_display strip_html fs rest
      end
  end.

(** A list without its repetitions, every element at its first place. *)
Fixpoint first_occurrences (l : list string) : list string :=
  match l with
  | [] => []
  | x :: rest => x :: filter (fun y => y ≠ x) (first_occurrences rest)
  end.

(** The model list as section 4.6 words it. *)
Definition stated_model_list (raw : list string) : list string :=
  first_occurrences (filter (fun m => m ≠ EmptyString) (strip <$> raw)).

(** The active model after a refresh as section 4.6 words it: the typed
    text unless it is empty, else the first available model. *)
Definition stated_active_model (typed : string) (raw : list string) : string :=
  if decide (typed = EmptyString)
  then default typed (head (stated_model_list raw))
  else typed.

(** An identifier that names no known template. *)
Definition unresolved (col : Collection) (id : Z) : Prop :=
  id = 0%Z ∨ models col !! id = None.

(** The selection [_add_notes] acts on: the chosen indices in descending
    order, without those at or beyond the candidate count. *)
Definition effective_selection (self : Dialog) (indices : list Z) : list Z :=
  filter (fun i => (i < Z.of_nat (length (_generated_notes self)))%Z)
         (unique_indices_of indices).

(** [enumerate(l)] counting from [k]. *)
Definition rows {A} (k : nat) (l : list A) : list (nat * A) :=
  imap (fun i x => (k + i, x)) l.

(** Number of positions below [i] that a set of indices removes. *)
Definition removed_below (indices : list Z) (i : nat) : nat :=
  length (filter (fun j => Z.of_nat j ∈ indices) (seq 0 i)).

(** ** Sample inputs *)

Definition mk_field (n v : string) : GeneratedNoteField :=
  {| field_name := n; field_value := v |}.

Definition mk_note (fs : list GeneratedNoteField)
    (src : option GeneratedNoteSource) : GeneratedNote :=
  {| fields := fs; source := src; note_type_id := 0; deck_id := 0 |}.

Definition mk_source (t u e : string) : GeneratedNoteSource :=
  {| title := t; url := u; excerpt := e |}.

Definition basic : Notetype := {| flds := ["Front"; "Back"] |}.
Definition with_source_slot : Notetype := {| flds := ["Front"; "Source"] |}.
Definition no_slots : Notetype := {| flds := [] |}.

(** A collection knowing the three templates under the ids 1, 2 and 3. *)
Definition sample_col : Collection :=
  {| models := {[ 1%Z := basic; 2%Z := with_source_slot; 3%Z := no_slots ]};
     decks_current_id := 1 |}.

Definition mk_preview (c : GeneratedNote) : PreviewNote :=
  preview_note (fun s => s) c.

(** A dialog holding the given candidates, with the given current data of
    its note type combo. *)
Definition dialog_with (combo : option Z) (notes : list GeneratedNote) : Dialog :=
  {| _generated_notes := mk_preview <$> notes;
     previewTree := tree_item <$> Py.enumerate (mk_preview <$> notes);
     useDefaultNoteType := false;
     _default_notetype_id := 0;
     noteTypeCombo := combo;
     deckCombo := Some 1%Z;
     providerCombo := 1;
     modelOverrideCombo := {| items := []; currentText := EmptyString |};
     _models_cache := ∅;
     _selected_models := ∅ |}.

(** The dialog whose note type combo points at template 1. *)
Definition sample_dialog (notes : list GeneratedNote) : Dialog :=
  dialog_with (Some 1%Z) notes.

(** The sample dialog with [text] typed into the model combo. *)
Definition typing (text : string) : Dialog :=
  with_models (sample_dialog []) {| items := []; currentText := text |} ∅ ∅.

(** Sample candidates: a plain question and answer, one with the same name
    twice, one with the names of the projector's fallback lists, one with an
    attribution. *)
Definition qa_note : GeneratedNote :=
  mk_note [mk_field "front" "Q"; mk_field "BACK" "A"] None.

Definition dup_note : GeneratedNote :=
  mk_note [mk_field "Front" "A"; mk_field "front" "B"] None.

Definition pa_note : GeneratedNote :=
  mk_note [mk_field "prompt" "P"; mk_field "answer" "A"] None.

Definition cited_note : GeneratedNote :=
  mk_note [mk_field "front" "Q"] (Some (mk_source "X" "http://x" EmptyString)).

Definition mk_frame (c : GeneratedNote) (fm : Py.dict) (nf : list string) : Frame :=
  {| fr_proto := c; field_map := fm; note_fields := nf |}.

(** * The rest of the dialog *)

(** ** Callers of the batch selector: [_on_add_all], [_on_add_selected] *)

(** [range(n)] *)
Definition py_range (n : nat) : list Z := Z.of_nat <$> seq 0 n.

Definition _on_add_all (self : Dialog) (col : Collection)
    : AddNotesExit * list Event :=
  _add_notes self col (py_range (length (_generated_notes self))).

(** [selected] is [form.previewTree.selectedItems()]; the data of a row is
    the integer [_set_preview_notes] stored, so the [isinstance] test
    passes for every row. *)
Definition _on_add_selected (self : Dialog) (col : Collection)
    (selected : list TreeItem) : AddNotesExit * list Event :=
  let indices := (fun item => Z.of_nat (user_role item)) <$> selected in
  match indices with
  | [] => (ExitReturn, [])
  | _ :: _ => _add_notes self col indices
  end.

(** The request [_add_notes] appends for an index it does not pass over,
    when reading the candidate and assembling it both succeed. *)
Definition request_at (self : Dialog) (col : Collection) (index : Z)
    : option AddNoteRequest :=
  match Py.getitem (_generated_notes self) index with
  | Ok pn =>
      match _create_note self col (proto pn) with
      | Ok (note, deck) => Some {| req_note := note; req_deck_id := deck |}
      | Raise _ => None
      end
  | Raise _ => None
  end.

(** The candidate [_add_notes] reads at an index. *)
Definition candidate_at (self : Dialog) (index : Z) : option GeneratedNote :=
  match Py.getitem (_generated_notes self) index with
  | Ok pn => Some (proto pn)
  | Raise _ => None
  end.

(** The preview tree shows the candidate list: one row per candidate, with
    its three display texts and its position. *)
Definition tree_consistent (self : Dialog) : Prop :=
  previewTree self = tree_item <$> Py.enumerate (_generated_notes self).

(** ** Provider change: [_on_provider_changed] *)

Definition with_provider (self : Dialog) (provider : Z) : Dialog :=
  {| _generated_notes := _generated_notes self;
     previewTree := previewTree self;
     useDefaultNoteType := useDefaultNoteType self;
     _default_notetype_id := _default_notetype_id self;
     noteTypeCombo := noteTypeCombo self;
     deckCombo := deckCombo self;
     providerCombo := provider;
     modelOverrideCombo := modelOverrideCombo self;
     _models_cache := _models_cache self;
     _selected_models := _selected_models self |}.

Definition with_default_notetype (self : Dialog) (ntid : Z) : Dialog :=
  {| _generated_notes := _generated_notes self;
     previewTree := previewTree self;
     useDefaultNoteType := useDefaultNoteType self;
     _default_notetype_id := ntid;
     noteTypeCombo := noteTypeCombo self;
     deckCombo := deckCombo self;
     providerCombo := providerCombo self;
     modelOverrideCombo := modelOverrideCombo self;
     _models_cache := _models_cache self;
     _selected_models := _selected_models self |}.

(** The slot of [providerCombo.currentIndexChanged]. *)
Definition _on_provider_changed (self : Dialog) : Dialog :=
  let provider := providerCombo self in
  _populate_model_combo self provider None false.

(** The user picks [provider] in the provider combo. *)
Definition select_provider (self : Dialog) (provider : Z) : Dialog :=
  _on_provider_changed (with_provider self provider).

(** ** The input form *)

(** [form.inputTabs.currentWidget()] *)
Inductive InputTab : Type :=
| textTab
| urlTab
| fileTab.

Inductive Placeholder : Type :=
| ai_generation_api_key_placeholder
| ai_generation_saved_api_key_placeholder.

(** A [QLineEdit] for an API key. *)
Record LineEdit : Type := {
  line_text : string;
  line_placeholder : Placeholder;
}.

(** The input widgets and the two attributes of the dialog that go with
    them. [_api_key_inputs] is the dict from provider to line edit, in
    insertion order; [_file_path] is a path or [None]. *)
Record Inputs : Type := {
  currentTab : InputTab;
  textInput : string;
  urlInput : string;
  urlPreview : string;
  filePathInput : string;
  _file_path : option string;
  maxCardsSpin : Z;
  promptOverrideEdit : string;
  _api_key_inputs : list (Z * LineEdit);
  _provider_masked : gmap Z bool;
}.

(** ** API keys: [_collect_api_keys], [_reset_api_key_fields] *)

(** [ai_pb.ProviderApiKey]; an unset [api_key] reads as the empty string. *)
Record ProviderApiKey : Type := {
  key_provider : Z;
  api_key : string;
  masked : bool;
}.

(** One turn of the generator's loop. *)
Definition collect_api_key (provider_masked : gmap Z bool)
    (entry : Z * LineEdit) : ProviderApiKey :=
  let provider := entry.1 in
  let text := strip (line_text entry.2) in
  if truthy text then
    {| key_provider := provider; api_key := text; masked := false |}
  else if default false (provider_masked !! provider) then
    {| key_provider := provider; api_key := EmptyString; masked := true |}
  else
    {| key_provider := provider; api_key := EmptyString; masked := false |}.

Definition _collect_api_keys (form : Inputs) : list ProviderApiKey :=
  collect_api_key (_provider_masked form) <$> _api_key_inputs form.

(** The loop of [_reset_api_key_fields] over the items of the dict: a
    widget with text is recorded as masked, cleared and given the
    placeholder of a saved key. *)
Fixpoint reset_api_key_loop (entries : list (Z * LineEdit))
    (provider_masked : gmap Z bool) : list (Z * LineEdit) * gmap Z bool :=
  match entries with
  | [] => ([], provider_masked)
  | (provider, widget) :: rest =>
      let text := strip (line_text widget) in
      if truthy text then
        let '(rest', provider_masked') :=
          reset_api_key_loop rest (<[provider := true]> provider_masked) in
        ((provider,
          {| line_text := EmptyString;
             line_placeholder := ai_generation_saved_api_key_placeholder |})
           :: rest',
         provider_masked')
      else
        let '(rest', provider_masked') := reset_api_key_loop rest provider_masked in
        ((provider, widget) :: rest', provider_masked')
  end.

Definition with_api_keys (form : Inputs) (entries : list (Z * LineEdit))
    (provider_masked : gmap Z bool) : Inputs :=
  {| currentTab := currentTab form;
     textInput := textInput form;
     urlInput := urlInput form;
     urlPreview := urlPreview form;
     filePathInput := filePathInput form;
     _file_path := _file_path form;
     maxCardsSpin := maxCardsSpin form;
     promptOverrideEdit := promptOverrideEdit form;
     _api_key_inputs := entries;
     _provider_masked := provider_masked |}.

Definition _reset_api_key_fields (form : Inputs) : Inputs :=
  let '(entries, provider_masked) :=
    reset_api_key_loop (_api_key_inputs form) (_provider_masked form) in
  with_api_keys form entries provider_masked.

(** ** Requests: [_build_request], [_build_config_request] *)

(** The messages [_build_request] raises an [AnkiError] with. *)
Inductive InputError : Type :=
| ai_generation_error_empty_text
| ai_generation_error_empty_url
| ai_generation_error_missing_file
| ai_generation_error_empty_file.

(** How [_build_request] ends: with the request, with an [AnkiError], or
    with the [OSError] of a file that cannot be read. *)
Inductive Built (A : Type) : Type :=
| Accepted (a : A)
| Rejected (msg : InputError)
| RaisedOSError.

Arguments Accepted {A} a.
Arguments Rejected {A} msg.
Arguments RaisedOSError {A}.

Module Request.

(** [ai_pb.InputType], the three values the dialog sets. *)
Inductive InputType : Type :=
| INPUT_TYPE_TEXT
| INPUT_TYPE_URL
| INPUT_TYPE_FILE.

(** [ai_pb.FileInput] *)
Record FileInput : Type := {
  filename : string;
  data : list ascii;
}.

(** [ai_pb.GenerateFlashcardsRequest]; a field the dialog leaves unset reads
    as the empty string, [0] or [None]. *)
Record t : Type := {
  provider : Z;
  input_type : InputType;
  text : string;
  url : string;
  file : option FileInput;
  max_cards : Z;
  note_type_id : Z;
  use_default_note_type : bool;
  deck_id : Z;
  model_override : string;
  prompt_override : string;
}.

End Request.

(** The first part of [_build_request], up to [request.file.CopyFrom]: the
    input type with the text, the url and the file of the request.
    [read_bytes] is [Path.read_bytes], [None] when it raises; [path_name] is
    [Path.name]. *)
Definition request_input (read_bytes : string -> option (list ascii))
    (path_name : string -> string) (form : Inputs)
    : Built (Request.InputType * string * string * option Request.FileInput) :=
  match currentTab form with
  | textTab =>
      let text := strip (textInput form) in
      if truthy text then
        Accepted (Request.INPUT_TYPE_TEXT, text, EmptyString, None)
      else Rejected ai_generation_error_empty_text
  | urlTab =>
      let url := strip (urlInput form) in
      if truthy url then
        Accepted (Request.INPUT_TYPE_URL, EmptyString, url, None)
      else Rejected ai_generation_error_empty_url
  | fileTab =>
      match _file_path form with
      | None => Rejected ai_generation_error_missing_file
      | Some path =>
          match read_bytes path with
          | None => RaisedOSError
          | Some [] => Rejected ai_generation_error_empty_file
          | Some data =>
              Accepted (Request.INPUT_TYPE_FILE, EmptyString, EmptyString,
                        Some {| Request.filename := path_name path;
                                Request.data := data |})
          end
      end
  end.

Definition _build_request (read_bytes : string -> option (list ascii))
    (path_name : string -> string) (self : Dialog) (form : Inputs)
    : Dialog * Built Request.t :=
  let provider := providerCombo self in
  match request_input read_bytes path_name form with
  | Rejected msg => (self, Rejected msg)
  | RaisedOSError => (self, RaisedOSError)
  | Accepted (input_type, text, url, file) =>
      let note_type_id :=
        if useDefaultNoteType self then 0%Z else _current_note_type_id self in
      let deck_id := _current_deck_id self in
      let model_override := strip (currentText (modelOverrideCombo self)) in
      let selected :=
        if truthy model_override
        then <[provider := model_override]> (_selected_models self)
        else delete provider (_selected_models self) in
      let prompt_override := strip (promptOverrideEdit form) in
      (with_models self (modelOverrideCombo self) (_models_cache self) selected,
       Accepted
         {| Request.provider := provider;
            Request.input_type := input_type;
            Request.text := text;
            Request.url := url;
            Request.file := file;
            Request.max_cards := maxCardsSpin form;
            Request.note_type_id := note_type_id;
            Request.use_default_note_type := useDefaultNoteType self;
            Request.deck_id := deck_id;
            Request.model_override := model_override;
            Request.prompt_override := prompt_override |})
  end.

(** [ai_pb.AiGenerationConfig] *)
Record AiGenerationConfig : Type := {
  selected_provider : Z;
  default_note_type_id : Z;
  preferred_model : string;
  default_max_cards : Z;
  api_keys : list ProviderApiKey;
}.

(** [ai_pb.SetAiConfigRequest] *)
Record SetAiConfigRequest : Type := {
  config : AiGenerationConfig;
  persist_api_keys : bool;
}.

Definition _build_config_request (self : Dialog) (form : Inputs)
    : Dialog * SetAiConfigRequest :=
  let provider := providerCombo self in
  let default_ntid :=
    if useDefaultNoteType self
    then Py.or_int (_current_note_type_id self) (_default_notetype_id self)
    else 0%Z in
  let self := with_default_notetype self default_ntid in
  let model_text := strip (currentText (modelOverrideCombo self)) in
  let selected :=
    if truthy model_text
    then <[provider := model_text]> (_selected_models self)
    else delete provider (_selected_models self) in
  (with_models self (modelOverrideCombo self) (_models_cache self) selected,
   {| config :=
        {| selected_provider := provider;
           default_note_type_id := default_ntid;
           preferred_model := model_text;
           default_max_cards := maxCardsSpin form;
           api_keys := _collect_api_keys form |};
      persist_api_keys := true |}).

(** ** Generation and clearing: [_on_generate_clicked],
    [_on_generate_finished], [_on_clear_clicked] *)

Inductive InfoMsg : Type :=
| InputRejected (msg : InputError)
| ai_generation_no_cards_returned.

(** What a generation does to the outside: a message box, the background
    operation with its two requests, the exception box, or an [OSError]
    leaving the slot. *)
Inductive GenEvent : Type :=
| GenShowInfo (msg : InfoMsg)
| GenBackground (config_request : SetAiConfigRequest) (request : Request.t)
| GenShowException
| GenOSError.

Definition _on_generate_finished (strip_html : string -> string)
    (self : Dialog) (form : Inputs) (notes : list GeneratedNote)
    : Dialog * Inputs * list GenEvent :=
  let self := _populate_preview strip_html self notes in
  let form := _reset_api_key_fields form in
  (self, form,
   match notes with
   | [] => [GenShowInfo ai_generation_no_cards_returned]
   | _ :: _ => []
   end).

(** [_on_generate_clicked] followed by the completion of the [QueryOp] it
    starts. [backend] is what [col.set_ai_generation_config] followed by
    [col.generate_flashcards] answers: the notes of the response, or [None]
    when one of the two raises. *)
Definition _on_generate_clicked (strip_html : string -> string)
    (read_bytes : string -> option (list ascii)) (path_name : string -> string)
    (backend : SetAiConfigRequest -> Request.t -> option (list GeneratedNote))
    (self : Dialog) (form : Inputs) : Dialog * Inputs * list GenEvent :=
  match _build_request read_bytes path_name self form with
  | (self, Rejected msg) => (self, form, [GenShowInfo (InputRejected msg)])
  | (self, RaisedOSError) => (self, form, [GenOSError])
  | (self, Accepted request) =>
      let '(self, config_request) := _build_config_request self form in
      match backend config_request request with
      | Some notes =>
          let '(self, form, events) :=
            _on_generate_finished strip_html self form notes in
          (self, form, GenBackground config_request request :: events)
      | None =>
          (self, form, [GenBackground config_request request; GenShowException])
      end
  end.

Definition _on_clear_clicked (self : Dialog) (form : Inputs) : Dialog * Inputs :=
  let form :=
    {| currentTab := currentTab form;
       textInput := EmptyString;
       urlInput := EmptyString;
       urlPreview := EmptyString;
       filePathInput := EmptyString;
       _file_path := None;
       maxCardsSpin := maxCardsSpin form;
       promptOverrideEdit := EmptyString;
       _api_key_inputs := _api_key_inputs form;
       _provider_masked := _provider_masked form |} in
  let provider := providerCombo self in
  let self := combo_setEditText self EmptyString in
  let self :=
    with_models self (modelOverrideCombo self) (_models_cache self)
      (delete provider (_selected_models self)) in
  (_set_preview_notes self [], form).

(** ** Specification-side definitions for the further properties *)

(** A field as the lookup sees it: its name in lower case, and its value. *)
Definition keyed (field : GeneratedNoteField) : string * string :=
  (lower (field_name field), field_value field).

(** Two frames with the same lookup, the same note fields and the same
    attribution of their candidate. *)
Definition frames_agree (fr fr' : Frame) : Prop :=
  field_map fr = field_map fr'
  ∧ note_fields fr = note_fields fr'
  ∧ source (fr_proto fr) = source (fr_proto fr').

(** Two runs that raise the same exception or end in agreeing frames. *)
Definition outcomes_agree (r r' : Result Frame) : Prop :=
  match r, r' with
  | Ok fr, Ok fr' => frames_agree fr fr'
  | Raise e, Raise e' => e = e'
  | _, _ => False
  end.

(** The assembled note in closed form: the values matched slot by slot,
    then the attribution placed, then the overflow appended. *)
Definition matched_fields (notetype : Notetype) (candidate : GeneratedNote)
    : list string :=
  imap (fun i slot => slot_match (fields candidate) (take i (flds notetype)) slot)
       (flds notetype).

Definition leftover (notetype : Notetype) (candidate : GeneratedNote) : Py.dict :=
  filter (fun p => p.1 ∉ lower <$> flds notetype)
         (build_field_map (fields candidate)).

Definition with_source (notetype : Notetype) (candidate : GeneratedNote)
    (nf : list string) : list string :=
  match source candidate with
  | None => nf
  | Some src =>
      match source_index notetype with
      | Some i => <[i := _format_source src]> nf
      | None =>
          <[length nf - 1
              := strip (default EmptyString (last nf) +:+ blank_line
                          +:+ _format_source src)]> nf
      end
  end.

Definition with_overflow (notetype : Notetype) (candidate : GeneratedNote)
    (nf : list string) : list string :=
  match back_index notetype, extras_of (leftover notetype candidate) with
  | Some idx, (_ :: _) as extras =>
      <[idx := overflow_value (default EmptyString (nf !! idx)) extras]> nf
  | _, _ => nf
  end.

Definition assembled_fields (notetype : Notetype) (candidate : GeneratedNote)
    : list string :=
  with_overflow notetype candidate
    (with_source notetype candidate (matched_fields notetype candidate)).

(** Every remembered model is a trimmed, non-empty text. *)
Definition models_trimmed (self : Dialog) : Prop :=
  ∀ provider model,
    _selected_models self !! provider = Some model →
    model ≠ EmptyString ∧ strip model = model.

(** ** Saved API keys: the loop of [_load_configuration] *)

(** [line_edit = self._api_key_inputs.get(provider)] followed by a change
    of that widget: the entry of the dict under [provider] is the one
    changed, and nothing is when there is none. *)
Fixpoint update_widget (entries : list (Z * LineEdit)) (provider : Z)
    (change : LineEdit -> LineEdit) : list (Z * LineEdit) :=
  match entries with
  | [] => []
  | (p, widget) :: rest =>
      if decide (p = provider) then (p, change widget) :: rest
      else (p, widget) :: update_widget rest provider change
  end.

(** One turn of [for entry in config.api_keys]. *)
Definition load_api_key (form : Inputs) (entry : ProviderApiKey) : Inputs :=
  let provider_masked :=
    <[key_provider entry := masked entry]> (_provider_masked form) in
  let change (widget : LineEdit) : LineEdit :=
    if masked entry then
      {| line_text := EmptyString;
         line_placeholder := ai_generation_saved_api_key_placeholder |}
    else
      {| line_text := api_key entry;
         line_placeholder := line_placeholder widget |} in
  with_api_keys form
    (update_widget (_api_key_inputs form) (key_provider entry) change)
    provider_masked.

(** [self._provider_masked.clear()] and the loop over [config.api_keys]. *)
Definition load_api_keys (form : Inputs) (entries : list ProviderApiKey) : Inputs :=
  foldl load_api_key (with_api_keys form (_api_key_inputs form) ∅) entries.

(** The key the dialog sends for a saved entry: no text for a masked one,
    the trimmed text otherwise. *)
Definition sent_key (entry : ProviderApiKey) : ProviderApiKey :=
  {| key_provider := key_provider entry;
     api_key := if masked entry then EmptyString else strip (api_key entry);
     masked := masked entry |}.

(** What [_collect_api_keys] yields for a key once its field was reset. *)
Definition kept_key (key : ProviderApiKey) : ProviderApiKey :=
  {| key_provider := key_provider key;
     api_key := EmptyString;
     masked := masked key || truthy (api_key key) |}.

(** ** Further sample inputs *)

(** A form on the given tab with [typed] in its text and address inputs, a
    key typed for provider 1 and none for provider 2. *)
Definition sample_inputs (tab : InputTab) (typed : string) : Inputs :=
  {| currentTab := tab;
     textInput := typed;
     urlInput := typed;
     urlPreview := EmptyString;
     filePathInput := EmptyString;
     _file_path := None;
     maxCardsSpin := 10;
     promptOverrideEdit := EmptyString;
     _api_key_inputs :=
       [(1%Z, {| line_text := " k1 ";
                 line_placeholder := ai_generation_api_key_placeholder |});
        (2%Z, {| line_text := EmptyString;
                 line_placeholder := ai_generation_api_key_placeholder |})];
     _provider_masked := ∅ |}.

(** * Lemmas *)

(** ** The embedding on small inputs *)

Example lower_mixed_case : lower "Front Side" = "front side".
Proof. reflexivity. Qed.

Example strip_both_ends : strip "  a b  " = "a b".
Proof. reflexivity. Qed.

Example strip_blank : strip "   " = EmptyString.
Proof. reflexivity. Qed.

Example escape_markup : escape "<b>&</b>" = "&lt;b&gt;&amp;&lt;/b&gt;".
Proof. reflexivity. Qed.

Example join_three : join ", " ["a"; "b"; "c"] = "a, b, c".
Proof. reflexivity. Qed.

Example getitem_negative : Py.getitem ["a"; "b"; "c"] (-1) = Ok "c".
Proof. reflexivity. Qed.

Example getitem_out_of_range : Py.getitem ["a"; "b"; "c"] 3 = Raise IndexError.
Proof. reflexivity. Qed.

Example field_map_last_write :
  build_field_map [mk_field "Front" "A"; mk_field "x" "X"; mk_field "front" "B"]
    = [("front", "B"); ("x", "X")].
Proof. reflexivity. Qed.

Example unique_indices_sample : unique_indices_of [0; 2; 0; 5; 2]%Z = [5; 2; 0]%Z.
Proof. by vm_compute. Qed.

Example assemble_question_answer :
  _create_note (sample_dialog []) sample_col qa_note = Ok (["Q"; "A"], 1%Z).
Proof. by vm_compute. Qed.

(** ** Python containers *)

Section containers.
Context {A : Type}.
Implicit Types (l : list A) (x : A).

Lemma position_nat (n idx : nat) : idx < n → Py.position n (Z.of_nat idx) = Ok idx.
Proof.
  intros Hlt. unfold Py.position.
  destruct (Z.ltb_spec (Z.of_nat idx) 0); [lia|].
  destruct (Z.ltb_spec (Z.of_nat idx) 0); [lia|].
  destruct (Z.leb_spec (Z.of_nat n) (Z.of_nat idx)); [lia|].
  simpl. by rewrite Nat2Z.id.
Qed.

Lemma position_last (n : nat) : 0 < n → Py.position n (-1) = Ok (n - 1).
Proof.
  intros Hlt. unfold Py.position. simpl.
  destruct (Z.ltb_spec (-1 + Z.of_nat n) 0); [lia|].
  destruct (Z.leb_spec (Z.of_nat n) (-1 + Z.of_nat n)); [lia|].
  simpl. f_equal. lia.
Qed.

Lemma position_last_empty : Py.position 0 (-1) = Raise IndexError.
Proof. reflexivity. Qed.

Lemma setitem_nat l (idx : nat) x :
  idx < length l → Py.setitem l (Z.of_nat idx) x = Ok (<[idx:=x]> l).
Proof. intros Hlt. unfold Py.setitem. by rewrite position_nat. Qed.

Lemma getitem_nat l (idx : nat) x :
  l !! idx = Some x → Py.getitem l (Z.of_nat idx) = Ok x.
Proof.
  intros Hx. unfold Py.getitem.
  rewrite position_nat by (by eapply lookup_lt_Some). simpl. by rewrite Hx.
Qed.

Lemma getitem_last l x : last l = Some x → Py.getitem l (-1) = Ok x.
Proof.
  intros Hx. unfold Py.getitem.
  assert (0 < length l) by (destruct l; [done | simpl; lia]).
  rewrite position_last by done. simpl.
  rewrite last_lookup in Hx. replace (length l - 1) with (pred (length l)) by lia.
  by rewrite Hx.
Qed.

Lemma setitem_last l x :
  l ≠ [] → Py.setitem l (-1) x = Ok (<[length l - 1 := x]> l).
Proof.
  intros Hne. unfold Py.setitem.
  rewrite position_last; [done | destruct l; [done | simpl; lia]].
Qed.

Lemma getitem_last_empty : Py.getitem (@nil A) (-1) = Raise IndexError.
Proof. reflexivity. Qed.

End containers.

(** ** Dictionaries *)

Section dicts.
Implicit Types (d : Py.dict) (k v : string).

Lemma dict_get_set_eq k v d : Py.dict_get k (Py.dict_set k v d) = Some v.
Proof.
  induction d as [|[k' v'] d IH]; simpl.
  - by rewrite decide_True.
  - destruct (decide (k = k')) as [->|Hne]; simpl.
    + by rewrite decide_True.
    + by rewrite decide_False.
Qed.

Lemma dict_get_set_ne k k' v d :
  k ≠ k' → Py.dict_get k' (Py.dict_set k v d) = Py.dict_get k' d.
Proof.
  intros Hne. induction d as [|[k0 v0] d IH]; simpl.
  - by rewrite decide_False.
  - destruct (decide (k = k0)) as [->|Hne0]; simpl.
    + by rewrite !decide_False.
    + by rewrite IH.
Qed.

Lemma dict_get_None k d : Py.dict_get k d = None ↔ k ∉ d.*1.
Proof.
  induction d as [|[k' v'] d IH]; simpl.
  - split; [intros _; apply not_elem_of_nil | done].
  - rewrite not_elem_of_cons. destruct (decide (k = k')) as [->|Hne].
    + split; [done | by intros [? _]].
    + rewrite IH. tauto.
Qed.

Lemma dict_get_Some k v d : Py.dict_get k d = Some v → (k, v) ∈ d.
Proof.
  induction d as [|[k' v'] d IH]; simpl; [done|].
  destruct (decide (k = k')) as [->|Hne].
  - intros [= ->]. left.
  - intros Hget. right. by apply IH.
Qed.

Lemma dict_get_elem k v d : NoDup d.*1 → (k, v) ∈ d → Py.dict_get k d = Some v.
Proof.
  induction d as [|[k' v'] d IH]; simpl; [by intros _ ?%elem_of_nil|].
  rewrite NoDup_cons. intros [Hk' Hnd] [Heq|Hin]%elem_of_cons.
  - injection Heq as -> ->. by rewrite decide_True.
  - destruct (decide (k = k')) as [->|Hne]; [|by apply IH].
    exfalso. apply Hk'. apply list_elem_of_fmap. by exists (k', v).
Qed.

Lemma dict_set_keys k v d :
  (Py.dict_set k v d).*1 = if decide (k ∈ d.*1) then d.*1 else d.*1 ++ [k].
Proof.
  induction d as [|[k' v'] d IH]; [done|]. cbn [Py.dict_set].
  destruct (decide (k = k')) as [->|Hne]; rewrite !fmap_cons; cbn [fst].
  - rewrite decide_True; [done | left].
  - rewrite IH. destruct (decide (k ∈ d.*1)) as [Hin|Hnin].
    + rewrite decide_True; [done | by right].
    + rewrite decide_False; [done | by rewrite not_elem_of_cons].
Qed.

Lemma dict_set_NoDup k v d : NoDup d.*1 → NoDup (Py.dict_set k v d).*1.
Proof.
  intros Hnd. rewrite dict_set_keys. case_decide; [done|].
  apply NoDup_app. split_and!; [done | | apply NoDup_singleton].
  intros x Hx ->%list_elem_of_singleton. done.
Qed.

Lemma filter_all {A} (P : A → Prop) `{!∀ x, Decision (P x)} (l : list A) :
  (∀ x, x ∈ l → P x) → filter P l = l.
Proof.
  induction l as [|x l IH]; [done|]. intros Hall.
  rewrite filter_cons_True by (apply Hall; left).
  f_equal. apply IH. intros y Hy. apply Hall. by right.
Qed.

Lemma filter_none {A} (P : A → Prop) `{!∀ x, Decision (P x)} (l : list A) :
  (∀ x, x ∈ l → ¬ P x) → filter P l = [].
Proof.
  induction l as [|x l IH]; [done|]. intros Hall.
  rewrite filter_cons_False by (apply Hall; left).
  apply IH. intros y Hy. apply Hall. by right.
Qed.

Lemma dict_pop_filter k d def :
  NoDup d.*1 →
  Py.dict_pop k d def
    = (default def (Py.dict_get k d), filter (fun p => p.1 ≠ k) d).
Proof.
  induction d as [|[k' v'] d IH]; [done|].
  rewrite fmap_cons, NoDup_cons. cbn [fst]. intros [Hk' Hnd].
  rewrite filter_cons. cbn [Py.dict_pop Py.dict_get fst].
  destruct (decide (k = k')) as [->|Hne].
  - rewrite decide_False by (by intros []). simpl. f_equal.
    symmetry. apply filter_all. intros [k v] Hin Heq. simpl in Heq. subst k.
    apply Hk'. apply list_elem_of_fmap. by exists (k', v).
  - rewrite IH by done. by rewrite decide_True by congruence.
Qed.

Lemma dict_filter_NoDup (P : string * string → Prop) `{!∀ p, Decision (P p)} d :
  NoDup d.*1 → NoDup (filter P d).*1.
Proof.
  induction d as [|[k v] d IH]; [done|].
  rewrite fmap_cons, NoDup_cons. cbn [fst]. intros [Hk Hnd].
  rewrite filter_cons.
  case_decide; [|by apply IH].
  rewrite fmap_cons. cbn [fst]. apply NoDup_cons. split; [|by apply IH].
  intros ([k' v'] & -> & [_ Hin]%list_elem_of_filter)%list_elem_of_fmap.
  apply Hk. apply list_elem_of_fmap. by exists (k', v').
Qed.

(** Filtering a dict on its keys. *)
Lemma dict_get_filter (P : string * string → Prop) `{!∀ p, Decision (P p)}
    (Q : string → Prop) `{!∀ k, Decision (Q k)} k d :
  (∀ p, P p ↔ Q p.1) →
  Py.dict_get k (filter P d) = if decide (Q k) then Py.dict_get k d else None.
Proof.
  intros HPQ. induction d as [|[k' v'] d IH]; [by case_decide|].
  rewrite filter_cons. cbn [Py.dict_get].
  destruct (decide (P (k', v'))) as [HP|HP]; cbn [Py.dict_get];
    destruct (decide (k = k')) as [->|Hne]; try done.
  - apply HPQ in HP. by rewrite decide_True.
  - rewrite IH. case_decide as HQ; [|done]. exfalso. apply HP. by apply HPQ.
Qed.

End dicts.

(** ** The lookup built from a candidate's fields *)

Lemma last_value_nil k : last_value k [] = None.
Proof. done. Qed.

Lemma last_value_snoc k fs field :
  last_value k (fs ++ [field])
    = if decide (named k field) then Some (field_value field) else last_value k fs.
Proof.
  unfold last_value. rewrite filter_app, filter_cons, filter_nil.
  case_decide; [by rewrite last_snoc | by rewrite app_nil_r].
Qed.

Lemma build_field_map_snoc fs field :
  build_field_map (fs ++ [field])
    = Py.dict_set (lower (field_name field)) (field_value field) (build_field_map fs).
Proof. unfold build_field_map. by rewrite foldl_app. Qed.

Lemma build_field_map_get fs k :
  Py.dict_get k (build_field_map fs) = last_value k fs.
Proof.
  induction fs as [|field fs IH] using rev_ind; [done|].
  rewrite build_field_map_snoc, last_value_snoc. unfold named.
  destruct (decide (lower (field_name field) = k)) as [<-|Hne].
  - apply dict_get_set_eq.
  - by rewrite dict_get_set_ne.
Qed.

Lemma build_field_map_NoDup fs : NoDup (build_field_map fs).*1.
Proof.
  induction fs as [|field fs IH] using rev_ind; [apply NoDup_nil_2|].
  rewrite build_field_map_snoc. by apply dict_set_NoDup.
Qed.

Lemma build_field_map_keys fs k :
  k ∈ (build_field_map fs).*1 ↔ ∃ field, field ∈ fs ∧ named k field.
Proof.
  induction fs as [|field fs IH] using rev_ind.
  - split; [by intros ?%elem_of_nil | by intros (? & ?%elem_of_nil & _)].
  - rewrite build_field_map_snoc, dict_set_keys.
    setoid_rewrite elem_of_app. setoid_rewrite list_elem_of_singleton.
    unfold named in *. case_decide as Hin.
    + rewrite IH. split.
      * intros (f & Hf & Hk). exists f. tauto.
      * intros (f & [Hf | ->] & Hk); [eauto|].
        subst k. by apply IH.
    + rewrite elem_of_app, list_elem_of_singleton, IH. split.
      * intros [(f & Hf & Hk) | ->]; [exists f; tauto | exists field; tauto].
      * intros (f & [Hf | ->] & Hk); [left; exists f; tauto | by right].
Qed.

(** ** The matching loop *)

Lemma match_slot_spec idx slot fr :
  NoDup (field_map fr).*1 →
  idx < length (note_fields fr) →
  match_slot idx slot fr
    = Ok {| fr_proto := fr_proto fr;
            field_map := filter (fun p => p.1 ≠ lower slot) (field_map fr);
            note_fields :=
              <[idx := default EmptyString (Py.dict_get (lower slot) (field_map fr))]>
                (note_fields fr) |}.
Proof.
  intros Hnd Hidx. unfold match_slot.
  rewrite dict_pop_filter by done. by rewrite setitem_nat by done.
Qed.

Lemma match_slots_spec slots : ∀ idx fr,
  NoDup (field_map fr).*1 →
  idx + length slots ≤ length (note_fields fr) →
  ∃ nf,
    match_slots idx slots fr
      = Ok {| fr_proto := fr_proto fr;
              field_map := filter (fun p => p.1 ∉ lower <$> slots) (field_map fr);
              note_fields := nf |}
    ∧ length nf = length (note_fields fr)
    ∧ (∀ j, j < idx ∨ idx + length slots ≤ j → nf !! j = note_fields fr !! j)
    ∧ (∀ i slot, slots !! i = Some slot →
         nf !! (idx + i)
           = Some (if decide (lower slot ∈ lower <$> take i slots) then EmptyString
                   else default EmptyString (Py.dict_get (lower slot) (field_map fr)))).
Proof.
  induction slots as [|s rest IH]; intros idx fr Hnd Hlen.
  - exists (note_fields fr). split_and!; [|done|done|done].
    simpl. destruct fr as [p fm nf]; simpl. f_equal. f_equal.
    symmetry. apply filter_all. intros ? _. apply not_elem_of_nil.
  - simpl in Hlen. cbn [match_slots].
    rewrite match_slot_spec by (done || lia). cbn [mbind Result_bind].
    set (fr1 := {| fr_proto := fr_proto fr;
                   field_map := filter (fun p => p.1 ≠ lower s) (field_map fr);
                   note_fields := <[idx := default EmptyString
                       (Py.dict_get (lower s) (field_map fr))]> (note_fields fr) |}).
    destruct (IH (S idx) fr1) as (nf & Hrun & Hlen' & Hout & Hin).
    { subst fr1. cbn [field_map]. by apply dict_filter_NoDup. }
    { simpl. rewrite length_insert. lia. }
    exists nf. split_and!.
    + rewrite Hrun. simpl. f_equal. f_equal.
      rewrite list_filter_filter. apply list_filter_iff.
      intros [k v]. simpl. rewrite not_elem_of_cons. tauto.
    + rewrite Hlen'. simpl. by rewrite length_insert.
    + intros j Hj. simpl in Hj. rewrite Hout by lia. simpl.
      apply list_lookup_insert_ne. lia.
    + intros [|i] slot Hslot.
      * simpl in Hslot. injection Hslot as ->. rewrite Nat.add_0_r.
        rewrite Hout by lia. simpl.
        by rewrite list_lookup_insert_eq by lia.
      * simpl in Hslot. replace (idx + S i) with (S idx + i) by lia.
        rewrite (Hin i slot Hslot). f_equal. simpl.
        rewrite (dict_get_filter _ (fun k => k ≠ lower s)) by done.
        destruct (decide (lower slot = lower s)) as [Heq|Hne].
        -- rewrite (decide_True (P := _ ∈ _ :: _)) by (rewrite Heq; left).
           case_decide; [done|]. by rewrite decide_False by (by intros []).
        -- rewrite (decide_True (P := lower slot ≠ lower s)) by done.
           apply decide_ext. rewrite elem_of_cons. tauto.
Qed.

Lemma length_new_note notetype : length (new_note notetype) = length (flds notetype).
Proof. unfold new_note. apply length_replicate. Qed.

(** The matching loop on the frame [_create_note] starts with. *)
Lemma match_slots_initial notetype candidate :
  ∃ fr,
    match_slots 0 (flds notetype) (initial_frame notetype candidate) = Ok fr
    ∧ fr_proto fr = candidate
    ∧ field_map fr
        = filter (fun p => p.1 ∉ lower <$> flds notetype)
                 (build_field_map (fields candidate))
    ∧ length (note_fields fr) = length (flds notetype)
    ∧ (∀ i slot, flds notetype !! i = Some slot →
         note_fields fr !! i
           = Some (slot_match (fields candidate) (take i (flds notetype)) slot)).
Proof.
  destruct (match_slots_spec (flds notetype) 0 (initial_frame notetype candidate))
    as (nf & Hrun & Hlen & _ & Hin).
  { apply build_field_map_NoDup. }
  { simpl. by rewrite length_new_note. }
  eexists. split; [exact Hrun|]. simpl. split_and!; [done|done| |].
  - rewrite Hlen. apply length_replicate.
  - intros i slot Hslot. rewrite <-(Nat.add_0_l i) at 1.
    rewrite (Hin i slot Hslot). unfold slot_match. cbn [initial_frame field_map].
    by rewrite build_field_map_get.
Qed.

(** ** Source placement *)

Lemma assign_source_loop_find slots : ∀ idx nf value,
  assign_source_loop idx slots nf value
    = (fun p => Py.setitem nf (Z.of_nat (idx + p.1)) value)
        <$> list_find (fun field => lower field = "source") slots.
Proof.
  induction slots as [|s rest IH]; intros idx nf value; [done|].
  cbn [assign_source_loop list_find]. case_decide.
  - simpl. by rewrite Nat.add_0_r.
  - rewrite IH. destruct (list_find _ rest) as [[i x]|]; simpl; [|done].
    do 3 f_equal. lia.
Qed.

Lemma source_index_lt notetype i :
  source_index notetype = Some i → i < length (flds notetype).
Proof.
  unfold source_index. intros Hfind.
  apply fmap_Some in Hfind as ([j x] & Hfind & ->).
  apply list_find_Some in Hfind as (Hlook & _). by eapply lookup_lt_Some.
Qed.

Lemma assign_source_slot nf notetype value i :
  length nf = length (flds notetype) →
  source_index notetype = Some i →
  _assign_source_field nf notetype value = Ok (<[i := value]> nf).
Proof.
  intros Hlen Hi. pose proof (source_index_lt _ _ Hi) as Hlt.
  unfold _assign_source_field. rewrite assign_source_loop_find.
  unfold source_index in Hi.
  destruct (list_find _ (flds notetype)) as [[j x]|]; [|done].
  simpl in *. injection Hi as ->. apply setitem_nat. lia.
Qed.

Lemma assign_source_fallback nf notetype value :
  length nf = length (flds notetype) →
  source_index notetype = None →
  flds notetype ≠ [] →
  ∃ existing,
    last nf = Some existing
    ∧ _assign_source_field nf notetype value
        = Ok (<[length (flds notetype) - 1
                  := strip (existing +:+ blank_line +:+ value)]> nf).
Proof.
  intros Hlen Hi Hne.
  assert (nf ≠ []) as Hnf.
  { intros ->. destruct (flds notetype); [done | discriminate]. }
  destruct (last nf) as [existing|] eqn:Hlast; [|by apply last_None in Hlast].
  exists existing. split; [done|].
  unfold _assign_source_field. rewrite assign_source_loop_find.
  unfold source_index in Hi.
  destruct (list_find _ (flds notetype)) as [[j x]|]; [done|]. simpl.
  rewrite (getitem_last _ _ Hlast). cbn [mbind Result_bind].
  rewrite setitem_last by done. by rewrite Hlen.
Qed.

Lemma assign_source_no_slot value :
  _assign_source_field [] {| flds := [] |} value = Raise IndexError.
Proof. reflexivity. Qed.

(** ** Overflow *)

Lemma append_nonempty (s t : string) : s ≠ EmptyString → s +:+ t ≠ EmptyString.
Proof. by destruct s. Qed.

Lemma join_nonempty sep p ps : p ≠ EmptyString → join sep (p :: ps) ≠ EmptyString.
Proof. intros Hp. destruct ps; [done|]. by apply append_nonempty. Qed.

Lemma extras_of_nonempty fm v : v ∈ extras_of fm → v ≠ EmptyString.
Proof. unfold extras_of. by intros [? _]%list_elem_of_filter. Qed.

Lemma back_index_lt notetype i :
  back_index notetype = Some i → i < length (flds notetype).
Proof.
  unfold back_index. intros Hfind.
  apply fmap_Some in Hfind as ([j x] & Hfind & ->).
  apply list_find_Some in Hfind as (Hlook & _). by eapply lookup_lt_Some.
Qed.

Lemma append_extras_spec notetype fr :
  length (note_fields fr) = length (flds notetype) →
  append_extras notetype fr
    = Ok match back_index notetype, extras_of (field_map fr) with
         | Some idx, (_ :: _) as extras =>
             set_note_fields fr
               (<[idx := overflow_value
                           (default EmptyString (note_fields fr !! idx)) extras]>
                  (note_fields fr))
         | _, _ => fr
         end.
Proof.
  intros Hlen. unfold append_extras.
  destruct (field_map fr) as [|kv fm] eqn:Hfm.
  { simpl. by destruct (back_index notetype). }
  cbn [Py.dict_truthy].
  destruct (back_index notetype) as [idx|] eqn:Hback; [|done].
  apply back_index_lt in Hback.
  destruct (extras_of (kv :: fm)) as [|e extras] eqn:Hextras; [done|].
  destruct (lookup_lt_is_Some_2 (note_fields fr) idx) as [existing Hex]; [lia|].
  rewrite (getitem_nat _ _ _ Hex). cbn [mbind Result_bind].
  rewrite setitem_nat by lia. rewrite Hex. do 3 f_equal.
  assert (join blank_line (e :: extras) ≠ EmptyString) as Hjoin.
  { apply join_nonempty. apply (extras_of_nonempty (kv :: fm)).
    rewrite Hextras. left. }
  unfold overflow_value. simpl default.
  rewrite filter_cons, filter_cons, filter_nil.
  rewrite (decide_True (P := join _ _ ≠ _)) by done.
  destruct (decide (strip existing = EmptyString)) as [->|Hne].
  - by rewrite decide_False by (by intros []).
  - by rewrite decide_True by done.
Qed.

(** ** Frames through the three stages of the assembler *)

Lemma place_source_frame notetype fr :
  length (note_fields fr) = length (flds notetype) →
  flds notetype ≠ [] ∨ source (fr_proto fr) = None →
  ∃ nf,
    place_source notetype fr = Ok (set_note_fields fr nf)
    ∧ length nf = length (note_fields fr)
    ∧ ∀ i, source_target notetype (fr_proto fr) ≠ Some i →
           nf !! i = note_fields fr !! i.
Proof.
  intros Hlen Hne. unfold place_source, source_target.
  destruct (source (fr_proto fr)) as [src|].
  - destruct Hne as [Hne|]; [|done].
    destruct (source_index notetype) as [i|] eqn:Hidx.
    + rewrite (assign_source_slot _ _ _ i) by done.
      eexists. split; [done|]. split; [by rewrite length_insert|].
      intros j Hj. apply list_lookup_insert_ne. congruence.
    + destruct (assign_source_fallback (note_fields fr) notetype (_format_source src))
        as (existing & _ & ->); [done..|].
      eexists. split; [done|]. split; [by rewrite length_insert|].
      intros j Hj. apply list_lookup_insert_ne. congruence.
  - exists (note_fields fr). split; [by destruct fr|done].
Qed.

Lemma append_extras_frame notetype fr :
  length (note_fields fr) = length (flds notetype) →
  ∃ nf,
    append_extras notetype fr = Ok (set_note_fields fr nf)
    ∧ length nf = length (note_fields fr)
    ∧ ∀ i, back_index notetype ≠ Some i → nf !! i = note_fields fr !! i.
Proof.
  intros Hlen. rewrite append_extras_spec by done.
  destruct (back_index notetype) as [idx|]; [destruct (extras_of _)|].
  - exists (note_fields fr). by destruct fr.
  - eexists. split; [done|]. split; [by rewrite length_insert|].
    intros j Hj. apply list_lookup_insert_ne. congruence.
  - exists (note_fields fr). by destruct fr.
Qed.

(** The whole body: matching, source placement, overflow. *)
Lemma assemble_frame notetype candidate :
  flds notetype ≠ [] ∨ source candidate = None →
  ∃ fr,
    assemble notetype candidate = Ok fr
    ∧ fr_proto fr = candidate
    ∧ length (note_fields fr) = length (flds notetype)
    ∧ ∀ i slot,
        flds notetype !! i = Some slot →
        source_target notetype candidate ≠ Some i →
        back_index notetype ≠ Some i →
        note_fields fr !! i
          = Some (slot_match (fields candidate) (take i (flds notetype)) slot).
Proof.
  intros Hne. unfold assemble.
  destruct (match_slots_initial notetype candidate)
    as (fr1 & Hrun & Hproto & _ & Hlen & Hslots).
  fold (initial_frame notetype candidate). rewrite Hrun. cbn [mbind Result_bind].
  destruct (place_source_frame notetype fr1) as (nf2 & -> & Hlen2 & Hkeep2);
    [done | by rewrite Hproto |].
  cbn [mbind Result_bind].
  destruct (append_extras_frame notetype (set_note_fields fr1 nf2))
    as (nf3 & -> & Hlen3 & Hkeep3); [simpl; congruence|].
  eexists. split; [done|]. simpl in *. split_and!; [done | congruence |].
  intros i slot Hslot Hsrc Hback.
  rewrite Hkeep3 by done. rewrite Hkeep2 by (by rewrite Hproto). by apply Hslots.
Qed.

Lemma last_value_at fs j fj :
  fs !! j = Some fj →
  (∀ j' f, j < j' → fs !! j' = Some f → lower (field_name f) ≠ lower (field_name fj)) →
  last_value (lower (field_name fj)) fs = Some (field_value fj).
Proof.
  intros Hj Hlast. unfold last_value.
  rewrite <-(take_drop_middle fs j fj Hj), filter_app, filter_cons_True by done.
  replace (filter (named (lower (field_name fj))) (drop (S j) fs)) with (@nil GeneratedNoteField).
  - by rewrite last_snoc.
  - symmetry. apply filter_none. intros f [n Hn]%list_elem_of_lookup.
    rewrite lookup_drop in Hn. apply (Hlast (S j + n)); [lia | done].
Qed.

(** ** Truthiness and the projector's lookup *)

Lemma truthy_true s : s ≠ EmptyString → truthy s = true.
Proof. by destruct s. Qed.

Lemma truthy_false s : s = EmptyString → truthy s = false.
Proof. by intros ->. Qed.

Lemma truthy_spec s : truthy s = true ↔ s ≠ EmptyString.
Proof. by destruct s. Qed.

(** The lookup of the projector finds, under a name, the last field of
    that name. *)
Lemma first_preferred_stated strip_html fs names :
  match first_preferred (build_field_map fs) names with
  | Some v => strip_html v
  | None =>
      match fs with
      | first :: _ => strip_html (field_value first)
      | [] => EmptyString
      end
  end = stated_display strip_html fs names.
Proof.
  induction names as [|name rest IH]; [done|].
  cbn [first_preferred stated_display]. rewrite build_field_map_get.
  by destruct (last_value name fs).
Qed.

(** ** The selection [sorted(set(indices), reverse=True)] *)

Lemma Zge_total : Total Z.ge.
Proof. intros x y. lia. Qed.

Lemma Zge_transitive : Transitive Z.ge.
Proof. intros x y z. lia. Qed.

Lemma elem_of_unique_indices i indices :
  i ∈ unique_indices_of indices ↔ i ∈ indices.
Proof.
  unfold unique_indices_of, sorted_reverse.
  by rewrite merge_sort_Permutation, elem_of_elements, elem_of_list_to_set.
Qed.

Lemma NoDup_unique_indices indices : NoDup (unique_indices_of indices).
Proof.
  unfold unique_indices_of, sorted_reverse.
  rewrite merge_sort_Permutation. apply NoDup_elements.
Qed.

Lemma StronglySorted_strict (l : list Z) :
  StronglySorted Z.ge l → NoDup l → StronglySorted Z.gt l.
Proof.
  induction 1 as [|x l Hsorted IH Hall]; intros Hnd; [constructor|].
  apply NoDup_cons in Hnd as [Hx Hnd]. constructor; [by apply IH|].
  rewrite Forall_forall in Hall |- *. intros y Hy.
  specialize (Hall y Hy). assert (x ≠ y) by (by intros ->). lia.
Qed.

Lemma StronglySorted_unique_indices indices :
  StronglySorted Z.gt (unique_indices_of indices).
Proof.
  apply StronglySorted_strict; [|apply NoDup_unique_indices].
  apply StronglySorted_merge_sort; [apply Zge_transitive | apply Zge_total].
Qed.

Lemma StronglySorted_filter_gt (P : Z → Prop) `{!∀ x, Decision (P x)} (l : list Z) :
  StronglySorted Z.gt l → StronglySorted Z.gt (filter P l).
Proof.
  induction 1 as [|x l Hsorted IH Hall]; [constructor|].
  rewrite filter_cons. case_decide; [|done]. constructor; [done|].
  rewrite Forall_forall in Hall |- *.
  intros y [_ Hy]%list_elem_of_filter. by apply Hall.
Qed.

Lemma unique_indices_nil indices : unique_indices_of indices = [] ↔ indices = [].
Proof.
  split.
  - intros Hnil. destruct indices as [|i indices]; [done|].
    assert (i ∈ unique_indices_of (i :: indices)) as Hin
      by (apply elem_of_unique_indices; left).
    rewrite Hnil in Hin. by apply elem_of_nil in Hin.
  - intros ->. reflexivity.
Qed.

(** ** The loop of [_add_notes] *)

Lemma getitem_in_range {A} (l : list A) (i : Z) x :
  (0 ≤ i)%Z → l !! Z.to_nat i = Some x → Py.getitem l i = Ok x.
Proof.
  intros Hi Hx. rewrite <-(Z2Nat.id i) by done. by apply getitem_nat.
Qed.

Lemma add_notes_loop_skips self col unique_indices : ∀ requests log,
  add_notes_loop self col unique_indices requests log
    = add_notes_loop self col
        (filter (fun i => (i < Z.of_nat (length (_generated_notes self)))%Z)
                unique_indices)
        requests log.
Proof.
  induction unique_indices as [|index rest IH]; intros requests log; [done|].
  rewrite filter_cons. cbn [add_notes_loop].
  destruct (Z.leb_spec (Z.of_nat (length (_generated_notes self))) index) as [Hge|Hlt].
  - rewrite decide_False by lia. apply IH.
  - rewrite decide_True by lia. cbn [add_notes_loop].
    destruct (Z.leb_spec (Z.of_nat (length (_generated_notes self))) index); [lia|].
    destruct (Py.getitem _ index) as [pn|e]; [|done].
    destruct (_create_note self col (proto pn)) as [[note deck]|[msg|]]; [|done..].
    apply IH.
Qed.

(** The loop only logs calls of [_create_note] and [showInfo]. *)
Lemma add_notes_loop_log self col unique_indices : ∀ requests log ev,
  ev ∈ (add_notes_loop self col unique_indices requests log).2 →
  ev ∈ log ∨ (∃ c, ev = EvCreateNote c) ∨ (∃ msg, ev = EvShowInfo msg).
Proof.
  induction unique_indices as [|index rest IH]; intros requests log ev; [by left|].
  cbn [add_notes_loop].
  destruct (Z.of_nat (length (_generated_notes self)) <=? index)%Z; [apply IH|].
  destruct (Py.getitem _ index) as [pn|e]; [|by left].
  destruct (_create_note self col (proto pn)) as [[note deck]|[msg|]]; simpl.
  - intros [Hin|Hin]%IH; [|by right].
    apply elem_of_app in Hin as [?|Heq%list_elem_of_singleton]; [by left|].
    subst ev. right. left. by eexists.
  - rewrite !elem_of_app, !list_elem_of_singleton.
    intros [[?| ->]| ->]; [by left | right; left; by eexists | right; right; by eexists].
  - rewrite elem_of_app, list_elem_of_singleton.
    intros [?| ->]; [by left | right; left; by eexists].
Qed.

(** A selected candidate whose assembly raises an [AnkiError] keeps the
    loop from running to its end. *)
Lemma add_notes_loop_aborts self col i pn msg unique_indices : ∀ requests log,
  i ∈ unique_indices →
  (0 ≤ i)%Z →
  _generated_notes self !! Z.to_nat i = Some pn →
  _create_note self col (proto pn) = Raise (AnkiError msg) →
  ∀ r, (add_notes_loop self col unique_indices requests log).1 ≠ Some (Ok r).
Proof.
  intros requests log Hin Hi Hpn Hraise. revert requests log.
  induction unique_indices as [|index rest IH]; intros requests log r;
    [by apply elem_of_nil in Hin|].
  pose proof (lookup_lt_Some _ _ _ Hpn) as Hlt.
  cbn [add_notes_loop].
  destruct (Z.leb_spec (Z.of_nat (length (_generated_notes self))) index) as [Hge|Hlt'].
  - apply IH. apply elem_of_cons in Hin as [->|?]; [lia | done].
  - destruct (decide (i = index)) as [<-|Hne].
    + rewrite (getitem_in_range _ _ _ Hi Hpn), Hraise. done.
    + apply elem_of_cons in Hin as [?|Hin]; [done|].
      destruct (Py.getitem _ index) as [pn'|e]; [|done].
      destruct (_create_note self col (proto pn')) as [[note deck]|[msg'|]];
        [by apply IH | done | done].
Qed.

(** ** Removing rows by index *)

Section removal.
Context {A : Type}.
Context (R : nat → Prop) `{!∀ j, Decision (R j)}.
Context (P : nat * A → Prop) `{!∀ row, Decision (P row)}.
Hypothesis P_keeps : ∀ row, P row ↔ ¬ R row.1.

Lemma rows_cons k (x : A) l : rows k (x :: l) = (k, x) :: rows (S k) l.
Proof.
  unfold rows. rewrite imap_cons, Nat.add_0_r. f_equal.
  apply imap_ext. intros i y _. simpl. f_equal. lia.
Qed.

Lemma kept_lookup (l : list A) : ∀ k i x,
  l !! i = Some x →
  ¬ R (k + i) →
  (snd <$> filter P (rows k l)) !! (i - length (filter R (seq k i))) = Some x.
Proof.
  induction l as [|y l IH]; intros k i x Hx Hkeep; [done|].
  rewrite rows_cons, filter_cons. destruct i as [|i].
  - simpl in Hx. injection Hx as ->. rewrite Nat.add_0_r in Hkeep.
    rewrite decide_True by (by apply P_keeps). done.
  - simpl in Hx. replace (k + S i) with (S k + i) in Hkeep by lia.
    specialize (IH (S k) i x Hx Hkeep).
    pose proof (length_filter R (seq (S k) i)) as Hle. rewrite length_seq in Hle.
    cbn [seq]. rewrite filter_cons.
    destruct (decide (R k)) as [HR|HR].
    + rewrite decide_False by (rewrite P_keeps; simpl; tauto).
      cbn [length]. by replace (S i - S (length (filter R (seq (S k) i))))
        with (i - length (filter R (seq (S k) i))) by lia.
    + rewrite decide_True by (by apply P_keeps).
      rewrite fmap_cons.
      replace (S i - length (filter R (seq (S k) i)))
        with (S (i - length (filter R (seq (S k) i)))) by lia.
      done.
Qed.

Lemma kept_length (l : list A) : ∀ k,
  length (snd <$> filter P (rows k l))
    = length l - length (filter R (seq k (length l))).
Proof.
  induction l as [|y l IH]; intros k; [done|].
  rewrite rows_cons, filter_cons. cbn [length seq]. rewrite filter_cons.
  pose proof (length_filter R (seq (S k) (length l))) as Hle.
  rewrite length_seq in Hle.
  destruct (decide (R k)) as [HR|HR].
  - rewrite decide_False by (rewrite P_keeps; simpl; tauto).
    rewrite IH. cbn [length]. lia.
  - rewrite decide_True by (by apply P_keeps).
    rewrite fmap_cons. cbn [length]. rewrite IH. lia.
Qed.

Lemma kept_sublist (l : list A) : ∀ k, (snd <$> filter P (rows k l)) `sublist_of` l.
Proof.
  induction l as [|y l IH]; intros k; [done|].
  rewrite rows_cons, filter_cons. case_decide.
  - rewrite fmap_cons. cbn [snd]. apply sublist_skip, IH.
  - apply sublist_cons, IH.
Qed.

Lemma enumerate_rows (l : list A) : Py.enumerate l = rows 0 l.
Proof. unfold Py.enumerate, rows. by apply imap_ext. Qed.

End removal.

Lemma enumerate_indices {A} (l : list A) : (Py.enumerate l).*1 = seq 0 (length l).
Proof.
  unfold Py.enumerate. rewrite fmap_imap.
  rewrite <-(list_fmap_id (seq 0 (length l))), <-imap_seq_0. by apply imap_ext.
Qed.

(** ** The candidates kept by [_on_add_success] *)

Lemma on_add_success_notes self indices :
  _generated_notes (_on_add_success self indices).1
    = snd <$> filter (fun row => Z.of_nat row.1 ∉ (list_to_set indices : gset Z))
                     (rows 0 (_generated_notes self)).
Proof. unfold _on_add_success. simpl. by rewrite enumerate_rows. Qed.

Lemma removed_below_set indices n k :
  length (filter (fun j => Z.of_nat j ∈ (list_to_set indices : gset Z)) (seq k n))
    = length (filter (fun j => Z.of_nat j ∈ indices) (seq k n)).
Proof.
  f_equal. apply list_filter_iff. intros j. apply elem_of_list_to_set.
Qed.

Lemma removed_below_unique indices n :
  removed_below (unique_indices_of indices) n = removed_below indices n.
Proof.
  unfold removed_below. f_equal. apply list_filter_iff. intros j.
  apply elem_of_unique_indices.
Qed.

(** ** Template resolution and the log of [_add_notes] *)

(** A candidate whose own template id and the dialog's effective template
    id both name no known template makes [_create_note] raise. *)
Lemma create_note_unresolved self col candidate :
  unresolved col (note_type_id candidate) →
  unresolved col (_effective_note_type_id self) →
  _create_note self col candidate
    = Raise (AnkiError ai_generation_error_missing_notetype)
  ∨ _create_note self col candidate
    = Raise (AnkiError ai_generation_error_invalid_notetype).
Proof.
  intros Hown Hdefault. unfold _create_note, Py.or_int.
  destruct (decide (note_type_id candidate = 0%Z)) as [Hzero|Hnonzero].
  - destruct Hdefault as [-> | Hnone]; [by left|].
    case_decide; [by left|]. rewrite Hnone. by right.
  - destruct Hown as [? | Hnone]; [done|].
    rewrite decide_False by done. rewrite Hnone. by right.
Qed.

Lemma add_notes_log self col indices ev :
  ev ∈ (_add_notes self col indices).2 →
  (∃ c, ev = EvCreateNote c) ∨ (∃ msg, ev = EvShowInfo msg).
Proof.
  unfold _add_notes. destruct (unique_indices_of indices) as [|i u] eqn:Hu;
    [by intros ?%elem_of_nil|].
  pose proof (add_notes_loop_log self col (i :: u) [] [] ev) as Hlog.
  destruct (add_notes_loop self col (i :: u) [] []) as [[[requests|e]|] log];
    simpl in *; intros Hin; by destruct (Hlog Hin) as [?%elem_of_nil|?].
Qed.

(** ** The model list *)

Lemma elem_of_first_occurrences x l : x ∈ first_occurrences l ↔ x ∈ l.
Proof.
  induction l as [|y l IH]; [done|]. cbn [first_occurrences].
  rewrite !elem_of_cons, list_elem_of_filter, IH.
  destruct (decide (x = y)); tauto.
Qed.

Lemma NoDup_first_occurrences l : NoDup (first_occurrences l).
Proof.
  induction l as [|y l IH]; [constructor|]. cbn [first_occurrences].
  apply NoDup_cons. split; [|by apply NoDup_filter].
  by intros [? _]%list_elem_of_filter.
Qed.

Lemma unique_loop_spec models : ∀ unique seen,
  unique_loop models unique seen
    = unique ++ filter (fun m => m ∉ seen) (stated_model_list models).
Proof.
  unfold stated_model_list.
  induction models as [|model rest IH]; intros unique seen.
  - simpl. by rewrite app_nil_r.
  - cbn [unique_loop]. rewrite fmap_cons, filter_cons.
    destruct (decide (strip model = EmptyString)) as [Hempty|Hne].
    + rewrite (truthy_false _ Hempty). simpl. rewrite decide_False by tauto.
      apply IH.
    + rewrite (truthy_true _ Hne), decide_True by done. cbn [andb first_occurrences].
      rewrite filter_cons. destruct (decide (strip model ∈ seen)) as [Hseen|Hnew].
      * rewrite bool_decide_eq_false_2 by tauto. rewrite decide_False by tauto.
        rewrite IH. f_equal. rewrite list_filter_filter.
        apply list_filter_iff. intros m. split; [|tauto].
        intros Hm. split; [done|]. by intros ->.
      * rewrite bool_decide_eq_true_2 by done. rewrite decide_True by done.
        rewrite IH, <-app_assoc. simpl. do 2 f_equal.
        rewrite list_filter_filter. apply list_filter_iff. intros m.
        rewrite not_elem_of_union, not_elem_of_singleton. tauto.
Qed.

Lemma unique_loop_stated models :
  unique_loop models [] ∅ = stated_model_list models.
Proof.
  rewrite unique_loop_spec. simpl. apply filter_all. intros m _.
  apply not_elem_of_empty.
Qed.

Lemma refresh_items self provider models :
  items (modelOverrideCombo (_on_refresh_models_on_success self provider models))
    = stated_model_list models.
Proof.
  unfold _on_refresh_models_on_success.
  destruct models as [|first rest]; [done|].
  cbn [_populate_model_combo with_models modelOverrideCombo currentText].
  destruct (truthy (strip (currentText (modelOverrideCombo self)))).
  - cbn [with_models modelOverrideCombo items]. apply unique_loop_stated.
  - unfold combo_setEditText. case_decide;
      cbn [_on_model_text_changed with_models modelOverrideCombo items];
      apply unique_loop_stated.
Qed.

Lemma refresh_text self provider models :
  currentText (modelOverrideCombo (_on_refresh_models_on_success self provider models))
    = match models with
      | first :: _ =>
          if truthy (strip (currentText (modelOverrideCombo self)))
          then currentText (modelOverrideCombo self) else first
      | [] => currentText (modelOverrideCombo self)
      end.
Proof.
  unfold _on_refresh_models_on_success.
  destruct models as [|first rest]; [done|].
  cbn [_populate_model_combo with_models modelOverrideCombo currentText].
  destruct (truthy (strip (currentText (modelOverrideCombo self)))); [done|].
  unfold combo_setEditText. by case_decide.
Qed.

(** ** The three loops in closed form *)

Lemma matched_fields_lookup notetype candidate i slot :
  flds notetype !! i = Some slot →
  matched_fields notetype candidate !! i
    = Some (slot_match (fields candidate) (take i (flds notetype)) slot).
Proof.
  intros Hslot. unfold matched_fields. rewrite list_lookup_imap, Hslot. done.
Qed.

Lemma length_matched_fields notetype candidate :
  length (matched_fields notetype candidate) = length (flds notetype).
Proof. unfold matched_fields. apply length_imap. Qed.

(** The matching loop fills the note with [matched_fields] and leaves
    [leftover] in the lookup. *)
Lemma match_slots_closed notetype candidate :
  match_slots 0 (flds notetype) (initial_frame notetype candidate)
    = Ok (mk_frame candidate (leftover notetype candidate)
            (matched_fields notetype candidate)).
Proof.
  destruct (match_slots_initial notetype candidate)
    as (fr & Hrun & Hproto & Hfm & Hlen & Hslots).
  rewrite Hrun. f_equal. destruct fr as [c fm nf]. simpl in *.
  unfold mk_frame, leftover. f_equal; [done | done |].
  apply list_eq. intros i.
  destruct (flds notetype !! i) as [slot|] eqn:Hslot.
  - by rewrite (Hslots i slot Hslot), (matched_fields_lookup _ _ _ _ Hslot).
  - apply lookup_ge_None in Hslot.
    rewrite !lookup_ge_None_2; [done | rewrite length_matched_fields; lia | lia].
Qed.

Lemma place_source_closed notetype candidate fm nf :
  length nf = length (flds notetype) →
  flds notetype ≠ [] ∨ source candidate = None →
  place_source notetype (mk_frame candidate fm nf)
    = Ok (mk_frame candidate fm (with_source notetype candidate nf)).
Proof.
  intros Hlen Hne. unfold place_source, with_source. cbn [mk_frame fr_proto note_fields].
  destruct (source candidate) as [src|]; [|done].
  destruct Hne as [Hne|]; [|done].
  destruct (source_index notetype) as [i|] eqn:Hidx.
  - by rewrite (assign_source_slot _ _ _ i).
  - destruct (assign_source_fallback nf notetype (_format_source src))
      as (existing & Hlast & ->); [done..|].
    by rewrite Hlast, Hlen.
Qed.

Lemma append_extras_closed notetype candidate nf :
  length nf = length (flds notetype) →
  append_extras notetype (mk_frame candidate (leftover notetype candidate) nf)
    = Ok (mk_frame candidate (leftover notetype candidate)
            (with_overflow notetype candidate nf)).
Proof.
  intros Hlen. rewrite append_extras_spec by done. unfold with_overflow.
  cbn [mk_frame field_map note_fields].
  destruct (back_index notetype); [|done].
  by destruct (extras_of (leftover notetype candidate)).
Qed.

Lemma length_with_source notetype candidate nf :
  length (with_source notetype candidate nf) = length nf.
Proof.
  unfold with_source. destruct (source candidate); [|done].
  destruct (source_index notetype); by rewrite length_insert.
Qed.

(** The three loops of [assemble] in closed form. *)
Lemma assemble_closed (notetype : Notetype) (candidate : GeneratedNote) :
  flds notetype ≠ [] ∨ source candidate = None →
  assemble notetype candidate
    = Ok {| fr_proto := candidate;
            field_map := leftover notetype candidate;
            note_fields := assembled_fields notetype candidate |}.
Proof.
  intros Hne. unfold assemble. fold (initial_frame notetype candidate).
  rewrite match_slots_closed. cbn [mbind Result_bind].
  rewrite place_source_closed by (done || apply length_matched_fields).
  cbn [mbind Result_bind].
  rewrite append_extras_closed; [done|].
  by rewrite length_with_source, length_matched_fields.
Qed.

(** * Claims *)

(** ** The note assembler *)

(** C1. For every template with at least one slot, which every notetype
    has, [_create_note] on a candidate that resolves to this template
    returns a note with exactly one value per slot, in slot order: the note
    is the list of the values matched for the slots by name, with the
    attribution written into the slot source placement goes to and the
    overflow written into the back slot, so that every slot which neither
    of the two writes holds the value matched for it by name; and the
    candidate held by the frame at the end is the one that was passed in. *)
Theorem C1_assembled_record (self : Dialog) (col : Collection)
    (candidate : GeneratedNote) (T : Notetype) :
  Py.or_int (note_type_id candidate) (_effective_note_type_id self) ≠ 0%Z →
  models col !! Py.or_int (note_type_id candidate) (_effective_note_type_id self)
    = Some T →
  flds T ≠ [] →
  ∃ fr deck,
    assemble T candidate = Ok fr
    ∧ _create_note self col candidate = Ok (note_fields fr, deck)
    ∧ length (note_fields fr) = length (flds T)
    ∧ fr_proto fr = candidate
    ∧ note_fields fr = assembled_fields T candidate
    ∧ ∀ i slot,
        flds T !! i = Some slot →
        source_target T candidate ≠ Some i →
        (back_index T = Some i → extras_of (leftover T candidate) = []) →
        note_fields fr !! i
          = Some (slot_match (fields candidate) (take i (flds T)) slot).
Proof.
  intros Hid Hget Hne.
  pose proof (assemble_closed T candidate (or_introl Hne)) as Hrun.
  eexists. eexists. split; [exact Hrun|]. cbn [note_fields fr_proto].
  split_and!.
  - unfold _create_note. rewrite decide_False by done.
    rewrite Hget, Hrun. reflexivity.
  - unfold assembled_fields, with_overflow.
    destruct (back_index T); [destruct (extras_of _)|];
      rewrite ?length_insert, length_with_source; apply length_matched_fields.
  - done.
  - done.
  - intros i slot Hslot Hsrc Hback.
    rewrite <-(matched_fields_lookup T candidate i slot Hslot).
    unfold assembled_fields.
    transitivity (with_source T candidate (matched_fields T candidate) !! i).
    + unfold with_overflow. destruct (back_index T) as [idx|]; [|done].
      destruct (extras_of (leftover T candidate)) as [|e extras] eqn:Hextras;
        [done|].
      apply list_lookup_insert_ne. intros ->. by specialize (Hback eq_refl).
    + unfold with_source. unfold source_target in Hsrc.
      destruct (source candidate) as [src|]; [|done].
      destruct (source_index T) as [j|].
      * apply list_lookup_insert_ne. congruence.
      * apply list_lookup_insert_ne. rewrite length_matched_fields. congruence.
Qed.

Lemma C1_witness :
  ∃ fr deck,
    assemble basic qa_note = Ok fr
    ∧ _create_note (sample_dialog []) sample_col qa_note = Ok (note_fields fr, deck)
    ∧ length (note_fields fr) = 2
    ∧ fr_proto fr = qa_note
    ∧ note_fields fr !! 0 = Some "Q"
    ∧ note_fields fr !! 1 = Some "A".
Proof.
  destruct (C1_assembled_record (sample_dialog []) sample_col qa_note basic)
    as (fr & deck & Hrun & Hnote & Hlen & Hproto & _ & Hslots).
  - vm_compute. discriminate.
  - vm_compute. reflexivity.
  - discriminate.
  - exists fr, deck.
    split_and!; [exact Hrun | exact Hnote | exact Hlen | exact Hproto | |].
    + rewrite (Hslots 0 "Front").
      * vm_compute. reflexivity.
      * reflexivity.
      * vm_compute. discriminate.
      * vm_compute. discriminate.
    + rewrite (Hslots 1 "Back").
      * vm_compute. reflexivity.
      * reflexivity.
      * vm_compute. discriminate.
      * intros _. vm_compute. reflexivity.
Defined.

(** C2, as amended. When several fields of a candidate carry the same name
    up to letter case, the lookup keeps one entry for that name, holding the
    value of the last of them; the first slot of that name receives this
    value; and the fields left over for overflow are the entries of the
    lookup whose name matches no slot, so an earlier duplicate is in neither
    place. *)
Theorem C2_last_duplicate_wins (T : Notetype) (candidate : GeneratedNote)
    (i j : nat) (fi fj : GeneratedNoteField) :
  i < j →
  fields candidate !! i = Some fi →
  fields candidate !! j = Some fj →
  lower (field_name fi) = lower (field_name fj) →
  (∀ j' f, j < j' → fields candidate !! j' = Some f →
           lower (field_name f) ≠ lower (field_name fj)) →
  ∃ fr,
    match_slots 0 (flds T) (initial_frame T candidate) = Ok fr
    ∧ NoDup (build_field_map (fields candidate)).*1
    ∧ (∀ v, (lower (field_name fj), v) ∈ build_field_map (fields candidate)
            ↔ v = field_value fj)
    ∧ (∀ s slot,
         flds T !! s = Some slot →
         lower slot = lower (field_name fj) →
         lower slot ∉ lower <$> take s (flds T) →
         note_fields fr !! s = Some (field_value fj))
    ∧ field_map fr
        = filter (fun p => p.1 ∉ lower <$> flds T)
                 (build_field_map (fields candidate)).
Proof.
  intros _ _ Hj _ Hlast.
  pose proof (last_value_at _ _ _ Hj Hlast) as Hval.
  pose proof (build_field_map_NoDup (fields candidate)) as Hnd.
  destruct (match_slots_initial T candidate) as (fr & Hrun & _ & Hfm & _ & Hslots).
  exists fr. split_and!; [done | done | | | done].
  - intros v. rewrite <-build_field_map_get in Hval. split.
    + intros Hin. apply (dict_get_elem _ _ _ Hnd) in Hin. congruence.
    + intros ->. by apply dict_get_Some.
  - intros s slot Hslot Hname Hfirst. rewrite (Hslots s slot Hslot).
    unfold slot_match. rewrite decide_False by done. by rewrite Hname, Hval.
Qed.

Lemma C2_witness :
  ∃ fr,
    match_slots 0 (flds basic) (initial_frame basic dup_note) = Ok fr
    ∧ note_fields fr !! 0 = Some "B"
    ∧ field_map fr = []
    ∧ (("front", "B") ∈ build_field_map (fields dup_note)).
Proof.
  destruct (C2_last_duplicate_wins basic dup_note 0 1
              (mk_field "Front" "A") (mk_field "front" "B"))
    as (fr & Hrun & _ & Hentry & Hslot & Hleft).
  - lia.
  - reflexivity.
  - reflexivity.
  - reflexivity.
  - intros [|[|j']] f Hlt Hf; [lia | lia | discriminate].
  - exists fr. split_and!.
    + exact Hrun.
    + apply (Hslot 0 "Front"); [reflexivity | reflexivity |].
      simpl. apply not_elem_of_nil.
    + rewrite Hleft. vm_compute. reflexivity.
    + apply (Hentry "B"). reflexivity.
Defined.

(** C2 as stated fails: with the fields ("Front","A") and ("front","B") the
    slot "Front" holds "B", not the value "A" of the first field, and no
    duplicate is left over: the lookup is empty after matching and the back
    slot stays empty. *)
Lemma C2_counterexample :
  ¬ stated_first_wins basic dup_note
  ∧ ∃ fr,
      assemble basic dup_note = Ok fr
      ∧ first_value "front" (fields dup_note) = Some "A"
      ∧ note_fields fr = ["B"; EmptyString]
      ∧ field_map fr = [].
Proof.
  split.
  - intros Hstated.
    specialize (Hstated _ 0 "Front" eq_refl eq_refl).
    vm_compute in Hstated.
    assert (Hnin : ∀ x : string, x ∉ @nil string) by (intros x; apply not_elem_of_nil).
    specialize (Hstated (Hnin _)). discriminate.
  - eexists. split; [by vm_compute|]. done.
Qed.

(** C3, as amended. For a candidate whose attribution formats to a
    non-empty string: if the template has a slot named "source" up to letter
    case, source placement writes the formatted attribution into the first
    such slot and leaves every other slot as it is; otherwise, in a template
    with at least one slot, the last slot becomes the trimmed concatenation
    of its value, a blank-line separator and the formatted attribution, so
    the trimming follows the concatenation. Nothing is said of an
    attribution that formats to the empty string. *)
Theorem C3_source_placement (T : Notetype) (fr : Frame)
    (src : GeneratedNoteSource) :
  length (note_fields fr) = length (flds T) →
  source (fr_proto fr) = Some src →
  _format_source src ≠ EmptyString →
  (∀ i, source_index T = Some i →
     place_source T fr
       = Ok (set_note_fields fr (<[i := _format_source src]> (note_fields fr))))
  ∧ (source_index T = None → flds T ≠ [] →
     ∃ existing,
       last (note_fields fr) = Some existing
       ∧ place_source T fr
           = Ok (set_note_fields fr
                   (<[length (flds T) - 1
                        := strip (existing +:+ blank_line +:+ _format_source src)]>
                      (note_fields fr)))).
Proof.
  intros Hlen Hsrc _. unfold place_source. rewrite Hsrc. split.
  - intros i Hi. by rewrite (assign_source_slot _ _ _ i).
  - intros Hi Hne.
    destruct (assign_source_fallback (note_fields fr) T (_format_source src))
      as (existing & Hlast & ->); [done..|].
    by exists existing.
Qed.

Lemma C3_witness :
  place_source with_source_slot (mk_frame cited_note [] ["Q"; "old"])
    = Ok (mk_frame cited_note []
            ["Q"; _format_source (mk_source "X" "http://x" EmptyString)])
  ∧ (∃ existing,
       last ["Q"; " A "] = Some existing
       ∧ place_source basic (mk_frame cited_note [] ["Q"; " A "])
           = Ok (mk_frame cited_note []
                   ["Q"; strip (existing +:+ blank_line
                                  +:+ _format_source (mk_source "X" "http://x" EmptyString))])).
Proof.
  split.
  - destruct (C3_source_placement with_source_slot
                (mk_frame cited_note [] ["Q"; "old"])
                (mk_source "X" "http://x" EmptyString) eq_refl eq_refl)
      as [Hslot _].
    + vm_compute. discriminate.
    + exact (Hslot 1 eq_refl).
  - destruct (C3_source_placement basic
                (mk_frame cited_note [] ["Q"; " A "])
                (mk_source "X" "http://x" EmptyString) eq_refl eq_refl)
      as [_ Hlast].
    + vm_compute. discriminate.
    + apply Hlast; [reflexivity | discriminate].
Defined.

(** C3 as stated fails twice. The fallback trims after concatenating: on
    the last slot value " A " the code gives "A " before the separator,
    where trimming first gives "A". And an attribution that formats to the
    empty string, as one that was never set does, is still placed: the slot
    "Source" that matching filled with "S" is overwritten with the empty
    string. *)
Lemma C3_counterexample :
  (∃ fr,
     match_slots 0 (flds basic)
       (initial_frame basic
          (mk_note [mk_field "back" " A "]
             (Some (mk_source EmptyString "u" EmptyString)))) = Ok fr
     ∧ place_source basic fr
         = Ok (set_note_fields fr [EmptyString; "A " +:+ blank_line +:+ "u"])
     ∧ stated_place_source basic fr = [EmptyString; "A" +:+ blank_line +:+ "u"]
     ∧ place_source basic fr ≠ Ok (set_note_fields fr (stated_place_source basic fr)))
  ∧ (∃ fr,
       match_slots 0 (flds with_source_slot)
         (initial_frame with_source_slot
            (mk_note [mk_field "source" "S"]
               (Some (mk_source EmptyString EmptyString EmptyString)))) = Ok fr
       ∧ note_fields fr = [EmptyString; "S"]
       ∧ _format_source (mk_source EmptyString EmptyString EmptyString) = EmptyString
       ∧ place_source with_source_slot fr
           = Ok (set_note_fields fr [EmptyString; EmptyString])
       ∧ stated_place_source with_source_slot fr = [EmptyString; "S"]).
Proof.
  split.
  - eexists. split; [by vm_compute|]. split_and!; [by vm_compute..|].
    vm_compute. discriminate.
  - eexists. split; [by vm_compute|]. split_and!; by vm_compute.
Qed.

(** C4, as amended. Overflow writes a slot exactly when the template has a
    slot named "back" up to letter case and at least one left-over value is
    non-empty after trimming. It then writes the first such slot: the
    left-over values that are non-empty after trimming, trimmed and joined
    by blank-line separators, follow the trimmed existing value after one
    more separator, and stand alone when the trimmed existing value is
    empty. In every other case the frame is returned as it is. Overflow
    never raises. *)
Theorem C4_overflow (T : Notetype) (fr : Frame) :
  length (note_fields fr) = length (flds T) →
  (∀ idx,
     back_index T = Some idx →
     extras_of (field_map fr) ≠ [] →
     ∃ existing,
       note_fields fr !! idx = Some existing
       ∧ append_extras T fr
           = Ok (set_note_fields fr
                   (<[idx := overflow_value existing (extras_of (field_map fr))]>
                      (note_fields fr))))
  ∧ (back_index T = None ∨ extras_of (field_map fr) = [] →
     append_extras T fr = Ok fr).
Proof.
  intros Hlen. rewrite append_extras_spec by done. split.
  - intros idx Hidx Hextras. rewrite Hidx.
    destruct (lookup_lt_is_Some_2 (note_fields fr) idx) as [existing Hex].
    { apply back_index_lt in Hidx. lia. }
    exists existing. split; [done|]. rewrite Hex.
    by destruct (extras_of (field_map fr)).
  - intros [-> | ->]; [done|]. by destruct (back_index T).
Qed.

Lemma C4_witness :
  (∃ existing,
     ["Q"; " A "] !! 1 = Some existing
     ∧ append_extras basic
         (mk_frame qa_note [("extra", " E "); ("blank", "  "); ("note", "N")] ["Q"; " A "])
         = Ok (mk_frame qa_note [("extra", " E "); ("blank", "  "); ("note", "N")]
                 ["Q"; overflow_value existing ["E"; "N"]]))
  ∧ append_extras with_source_slot (mk_frame qa_note [("extra", "E")] ["Q"; "S"])
      = Ok (mk_frame qa_note [("extra", "E")] ["Q"; "S"])
  ∧ append_extras basic (mk_frame qa_note [("blank", "  ")] ["Q"; " A "])
      = Ok (mk_frame qa_note [("blank", "  ")] ["Q"; " A "]).
Proof.
  split_and!.
  - destruct (C4_overflow basic
                (mk_frame qa_note [("extra", " E "); ("blank", "  "); ("note", "N")]
                   ["Q"; " A "]) eq_refl) as [Hwrite _].
    apply (Hwrite 1); [reflexivity | vm_compute; discriminate].
  - destruct (C4_overflow with_source_slot
                (mk_frame qa_note [("extra", "E")] ["Q"; "S"]) eq_refl) as [_ Hkeep].
    apply Hkeep. left. reflexivity.
  - destruct (C4_overflow basic
                (mk_frame qa_note [("blank", "  ")] ["Q"; " A "]) eq_refl) as [_ Hkeep].
    apply Hkeep. right. reflexivity.
Defined.

(** C4 as stated fails twice. A left-over field whose value is blank leaves
    the back slot untouched, untrimmed value included, although a field is
    left over and a back slot exists. And when the trimmed back value is
    empty the left-over values are written without a separator before
    them. *)
Lemma C4_counterexample :
  (∃ fr,
     match_slots 0 (flds basic)
       (initial_frame basic
          (mk_note [mk_field "back" " b "; mk_field "extra" "  "] None)) = Ok fr
     ∧ field_map fr = [("extra", "  ")]
     ∧ back_index basic = Some 1
     ∧ append_extras basic fr = Ok fr
     ∧ note_fields fr = [EmptyString; " b "]
     ∧ stated_append_extras basic fr = [EmptyString; "b" +:+ blank_line])
  ∧ (∃ fr,
       match_slots 0 (flds basic)
         (initial_frame basic
            (mk_note [mk_field "front" "Q"; mk_field "extra" "E"] None)) = Ok fr
       ∧ append_extras basic fr = Ok (set_note_fields fr ["Q"; "E"])
       ∧ stated_append_extras basic fr = ["Q"; blank_line +:+ "E"]).
Proof.
  split.
  - eexists. split; [by vm_compute|]. split_and!; by vm_compute.
  - eexists. split; [by vm_compute|]. split_and!; by vm_compute.
Qed.

(** ** The source formatter *)

(** C5. [_format_source] joins the HTML-escaped segments with the line
    break marker: the excerpt first when there is one; then, with a url, the
    anchor of the escaped url labelled with the escaped title when there is
    a title, else the escaped url; without a url, the escaped title when
    there is one. With none of the three it returns the empty string. *)
Theorem C5_format_source (src : GeneratedNoteSource) :
  anchor src
    = "<a href=" +:+ String dquote (escape (url src))
        +:+ String dquote ">" +:+ escape (title src) +:+ "</a>"
  ∧ (excerpt src = EmptyString → url src = EmptyString → title src = EmptyString →
     _format_source src = EmptyString)
  ∧ (excerpt src = EmptyString → url src ≠ EmptyString → title src ≠ EmptyString →
     _format_source src = anchor src)
  ∧ (excerpt src = EmptyString → url src ≠ EmptyString → title src = EmptyString →
     _format_source src = escape (url src))
  ∧ (excerpt src = EmptyString → url src = EmptyString → title src ≠ EmptyString →
     _format_source src = escape (title src))
  ∧ (excerpt src ≠ EmptyString → url src = EmptyString → title src = EmptyString →
     _format_source src = escape (excerpt src))
  ∧ (excerpt src ≠ EmptyString → url src ≠ EmptyString → title src ≠ EmptyString →
     _format_source src = escape (excerpt src) +:+ br +:+ anchor src)
  ∧ (excerpt src ≠ EmptyString → url src ≠ EmptyString → title src = EmptyString →
     _format_source src = escape (excerpt src) +:+ br +:+ escape (url src))
  ∧ (excerpt src ≠ EmptyString → url src = EmptyString → title src ≠ EmptyString →
     _format_source src = escape (excerpt src) +:+ br +:+ escape (title src)).
Proof.
  split; [reflexivity|]. unfold _format_source.
  split_and!; intros He Hu Ht;
    rewrite ?(truthy_true _ He), ?(truthy_false _ He),
            ?(truthy_true _ Hu), ?(truthy_false _ Hu),
            ?(truthy_true _ Ht), ?(truthy_false _ Ht); reflexivity.
Qed.

Lemma C5_witness :
  _format_source (mk_source "X" "http://x" EmptyString)
    = "<a href=" +:+ String dquote "http://x" +:+ String dquote ">" +:+ "X" +:+ "</a>"
  ∧ _format_source (mk_source EmptyString EmptyString "E") = "E"
  ∧ _format_source (mk_source EmptyString EmptyString EmptyString) = EmptyString
  ∧ _format_source (mk_source "a<b" "http://x?p=1&q=2" "E")
    = "E" +:+ br +:+ anchor (mk_source "a<b" "http://x?p=1&q=2" "E")
  ∧ _format_source (mk_source "T" EmptyString "E") = "E" +:+ br +:+ "T".
Proof.
  split_and!.
  - destruct (C5_format_source (mk_source "X" "http://x" EmptyString))
      as (_ & _ & Hanchor & _).
    apply Hanchor; [reflexivity | discriminate | discriminate].
  - destruct (C5_format_source (mk_source EmptyString EmptyString "E"))
      as (_ & _ & _ & _ & _ & Hexcerpt & _).
    apply Hexcerpt; [discriminate | reflexivity | reflexivity].
  - destruct (C5_format_source (mk_source EmptyString EmptyString EmptyString))
      as (_ & Hempty & _).
    apply Hempty; reflexivity.
  - destruct (C5_format_source (mk_source "a<b" "http://x?p=1&q=2" "E"))
      as (_ & _ & _ & _ & _ & _ & Hboth & _).
    apply Hboth; discriminate.
  - destruct (C5_format_source (mk_source "T" EmptyString "E"))
      as (_ & _ & _ & _ & _ & _ & _ & _ & Htitle).
    apply Htitle; [discriminate | reflexivity | discriminate].
Defined.

(** ** The batch selector *)

(** C6. The indices [_add_notes] works through are the chosen ones without
    repetition, in strictly descending order; those at or beyond the
    candidate count are passed over, so the loop runs as on the selection
    without them. After a successful submission [_on_add_success] keeps
    exactly the candidates whose position is not among the indices: they
    form a sublist of the old list, a kept candidate moves down by the
    number of removed positions below it, and the rows of the preview carry
    the positions 0, 1, 2, ... of the new list. *)
Theorem C6_batch_selection (self : Dialog) (col : Collection) (indices : list Z) :
  NoDup (unique_indices_of indices)
  ∧ StronglySorted Z.gt (unique_indices_of indices)
  ∧ (∀ i, i ∈ unique_indices_of indices ↔ i ∈ indices)
  ∧ NoDup (effective_selection self indices)
  ∧ StronglySorted Z.gt (effective_selection self indices)
  ∧ (∀ i, i ∈ effective_selection self indices
          ↔ i ∈ indices ∧ (i < Z.of_nat (length (_generated_notes self)))%Z)
  ∧ add_notes_loop self col (unique_indices_of indices) [] []
      = add_notes_loop self col (effective_selection self indices) [] []
  ∧ _generated_notes (_on_add_success self (unique_indices_of indices)).1
      `sublist_of` _generated_notes self
  ∧ (∀ i pn,
       _generated_notes self !! i = Some pn →
       Z.of_nat i ∉ indices →
       _generated_notes (_on_add_success self (unique_indices_of indices)).1
         !! (i - removed_below indices i) = Some pn)
  ∧ length (_generated_notes (_on_add_success self (unique_indices_of indices)).1)
      = length (_generated_notes self)
        - removed_below indices (length (_generated_notes self))
  ∧ user_role <$> previewTree (_on_add_success self (unique_indices_of indices)).1
      = seq 0 (length (_generated_notes
                         (_on_add_success self (unique_indices_of indices)).1))
  ∧ (∀ a b c,
       _generated_notes self = [a; b; c] →
       (∀ i, i ∈ indices ↔ i = 0%Z ∨ i = 2%Z) →
       _generated_notes (_on_add_success self (unique_indices_of indices)).1 = [b]
       ∧ user_role <$> previewTree (_on_add_success self (unique_indices_of indices)).1
           = [0]).
Proof.
  set (chosen := list_to_set (unique_indices_of indices) : gset Z).
  assert (Hkeeps : ∀ row : nat * PreviewNote,
            Z.of_nat row.1 ∉ chosen ↔ ¬ (Z.of_nat row.1 ∈ chosen)) by done.
  assert (Htree : ∀ self' : Dialog * list Event,
            self' = _on_add_success self (unique_indices_of indices) →
            user_role <$> previewTree self'.1 = seq 0 (length (_generated_notes self'.1))).
  { intros self' ->. unfold _on_add_success. cbn [fst _set_preview_notes with_notes
      previewTree _generated_notes].
    rewrite <-list_fmap_compose, <-enumerate_indices. done. }
  split_and!.
  - apply NoDup_unique_indices.
  - apply StronglySorted_unique_indices.
  - intros i. apply elem_of_unique_indices.
  - apply NoDup_filter, NoDup_unique_indices.
  - apply StronglySorted_filter_gt, StronglySorted_unique_indices.
  - intros i. unfold effective_selection.
    rewrite list_elem_of_filter, elem_of_unique_indices. tauto.
  - apply add_notes_loop_skips.
  - rewrite on_add_success_notes.
    apply kept_sublist.
  - intros i pn Hpn Hnin. rewrite on_add_success_notes.
    rewrite <-removed_below_unique. unfold removed_below.
    rewrite <-(removed_below_set (unique_indices_of indices)).
    apply (kept_lookup (fun j => Z.of_nat j ∈ chosen)); [done | done |].
    unfold chosen. rewrite elem_of_list_to_set, elem_of_unique_indices. done.
  - rewrite on_add_success_notes.
    rewrite <-removed_below_unique. unfold removed_below.
    rewrite <-(removed_below_set (unique_indices_of indices)).
    apply (kept_length (fun j => Z.of_nat j ∈ chosen)). done.
  - by apply Htree.
  - intros a b c Hnotes Hind.
    assert (_generated_notes (_on_add_success self (unique_indices_of indices)).1 = [b])
      as Hb.
    { rewrite on_add_success_notes, Hnotes. fold chosen.
      change (rows 0 [a; b; c]) with [(0, a); (1, b); (2, c)].
      assert (Hin : ∀ i, i ∈ chosen ↔ i = 0%Z ∨ i = 2%Z).
      { intros i. unfold chosen. by rewrite elem_of_list_to_set, elem_of_unique_indices. }
      rewrite filter_cons, decide_False by (simpl; rewrite Hin; intros []; lia).
      rewrite filter_cons, decide_True by (simpl; rewrite Hin; intros []; lia).
      rewrite filter_cons, decide_False by (simpl; rewrite Hin; intros []; lia).
      done. }
    split; [done|]. rewrite (Htree _ eq_refl), Hb. done.
Qed.

Lemma C6_witness :
  _generated_notes
    (_on_add_success (sample_dialog [qa_note; dup_note; pa_note])
       (unique_indices_of [0; 2; 0]%Z)).1
    = [mk_preview dup_note]
  ∧ user_role
      <$> previewTree
            (_on_add_success (sample_dialog [qa_note; dup_note; pa_note])
               (unique_indices_of [0; 2; 0]%Z)).1
    = [0]
  ∧ _generated_notes
      (_on_add_success (sample_dialog [qa_note; dup_note; pa_note])
         (unique_indices_of [0; 2; 0]%Z)).1
      !! (1 - removed_below [0; 2; 0]%Z 1)
    = Some (mk_preview dup_note).
Proof.
  destruct (C6_batch_selection (sample_dialog [qa_note; dup_note; pa_note])
              sample_col [0; 2; 0]%Z)
    as (_ & _ & _ & _ & _ & _ & _ & _ & Hkept & _ & _ & Hexample).
  destruct (Hexample (mk_preview qa_note) (mk_preview dup_note) (mk_preview pa_note))
    as [Hnotes Hrows].
  - reflexivity.
  - intros i. rewrite !elem_of_cons, elem_of_nil. tauto.
  - split_and!; [exact Hnotes | exact Hrows |].
    apply (Hkept 1 (mk_preview dup_note)); [reflexivity|].
    rewrite !elem_of_cons, elem_of_nil. lia.
Defined.

(** ** Batches that are not submitted *)

(** C7. When one of the selected candidates fails template resolution,
    its own template id and the dialog's effective one both naming no known
    template, [_create_note] raises the missing-template or the
    invalid-template error for it, [_add_notes] does not start the
    submission, no call of [col.add_notes] is made, and the dialog, with its
    candidate list, is as before. *)
Theorem C7_unresolved_template_aborts (store_accepts : list AddNoteRequest → bool)
    (self : Dialog) (col : Collection) (indices : list Z) (i : Z) (pn : PreviewNote) :
  i ∈ indices →
  (0 ≤ i)%Z →
  _generated_notes self !! Z.to_nat i = Some pn →
  unresolved col (note_type_id (proto pn)) →
  unresolved col (_effective_note_type_id self) →
  (_create_note self col (proto pn)
     = Raise (AnkiError ai_generation_error_missing_notetype)
   ∨ _create_note self col (proto pn)
     = Raise (AnkiError ai_generation_error_invalid_notetype))
  ∧ (∀ requests unique_indices,
       (_add_notes self col indices).1 ≠ ExitCollectionOp requests unique_indices)
  ∧ (∀ requests,
       EvAddNotes requests ∉ (add_notes_session store_accepts self col indices).2)
  ∧ (add_notes_session store_accepts self col indices).1 = self
  ∧ _generated_notes (add_notes_session store_accepts self col indices).1
      = _generated_notes self.
Proof.
  intros Hin Hi Hpn Hown Hdefault.
  pose proof (create_note_unresolved self col (proto pn) Hown Hdefault) as Hraise.
  assert (Hexit : ∀ requests unique_indices,
            (_add_notes self col indices).1 ≠ ExitCollectionOp requests unique_indices).
  { intros requests unique_indices. unfold _add_notes.
    destruct (unique_indices_of indices) as [|j u] eqn:Hu; [done|].
    assert (∃ msg, _create_note self col (proto pn) = Raise (AnkiError msg))
      as [msg Hmsg] by (destruct Hraise; by eexists).
    pose proof (add_notes_loop_aborts self col i pn msg (j :: u) [] []) as Habort.
    rewrite <-Hu in Habort at 1. rewrite elem_of_unique_indices in Habort.
    specialize (Habort Hin Hi Hpn Hmsg).
    destruct (add_notes_loop self col (j :: u) [] []) as [[[requests'|e]|] log];
      simpl in *; [by destruct (Habort requests') | done | done]. }
  assert (Hsession : add_notes_session store_accepts self col indices
                     = (self, (_add_notes self col indices).2)).
  { unfold add_notes_session.
    destruct (_add_notes self col indices) as [[| e | requests u] log] eqn:Hrun;
      [done | done |].
    by destruct (Hexit requests u). }
  split_and!; [done | done | | by rewrite Hsession | by rewrite Hsession].
  intros requests Hev. rewrite Hsession in Hev.
  apply add_notes_log in Hev as [[c Hc]|[msg Hmsg]]; discriminate.
Qed.

Lemma C7_witness :
  (_create_note (dialog_with None [qa_note]) sample_col (proto (mk_preview qa_note))
     = Raise (AnkiError ai_generation_error_missing_notetype)
   ∨ _create_note (dialog_with None [qa_note]) sample_col (proto (mk_preview qa_note))
     = Raise (AnkiError ai_generation_error_invalid_notetype))
  ∧ (∀ requests unique_indices,
       (_add_notes (dialog_with None [qa_note]) sample_col [0%Z]).1
         ≠ ExitCollectionOp requests unique_indices)
  ∧ (∀ requests,
       EvAddNotes requests
         ∉ (add_notes_session (fun _ => true) (dialog_with None [qa_note])
              sample_col [0%Z]).2)
  ∧ (add_notes_session (fun _ => true) (dialog_with None [qa_note]) sample_col [0%Z]).1
      = dialog_with None [qa_note]
  ∧ _generated_notes
      (add_notes_session (fun _ => true) (dialog_with None [qa_note]) sample_col [0%Z]).1
      = _generated_notes (dialog_with None [qa_note]).
Proof.
  apply (C7_unresolved_template_aborts (fun _ => true) (dialog_with None [qa_note])
           sample_col [0%Z] 0%Z (mk_preview qa_note)).
  - left.
  - lia.
  - reflexivity.
  - left. reflexivity.
  - left. reflexivity.
Defined.

(** ** The preview projector *)

(** C8. The front display of a candidate is taken from the first of
    "front", "question", "prompt" that one of its fields is named, up to
    letter case, and the back display from the first of "back", "answer",
    "response"; among several fields of that name the last one gives the
    value. When no field has one of the names the value of the first field
    is taken, and the empty string for a candidate without fields. The
    displayed text is the value after [strip_html]. *)
Theorem C8_preview_projection (strip_html : string → string)
    (candidate : GeneratedNote) :
  display_front (preview_note strip_html candidate)
    = stated_display strip_html (fields candidate) ["front"; "question"; "prompt"]
  ∧ display_back (preview_note strip_html candidate)
    = stated_display strip_html (fields candidate) ["back"; "answer"; "response"]
  ∧ (∀ names, fields candidate = [] →
       _display_field strip_html candidate names = EmptyString)
  ∧ (∀ names first rest,
       fields candidate = first :: rest →
       (∀ name, name ∈ names → last_value name (fields candidate) = None) →
       _display_field strip_html candidate names = strip_html (field_value first))
  ∧ (∀ before name after v,
       (∀ n, n ∈ before → last_value n (fields candidate) = None) →
       last_value name (fields candidate) = Some v →
       _display_field strip_html candidate (before ++ name :: after) = strip_html v)
  ∧ (fields candidate = [mk_field "prompt" "P"; mk_field "answer" "A"] →
     strip_html "P" = "P" →
     strip_html "A" = "A" →
     display_front (preview_note strip_html candidate) = "P"
     ∧ display_back (preview_note strip_html candidate) = "A").
Proof.
  assert (Hdisp : ∀ names, _display_field strip_html candidate names
                    = stated_display strip_html (fields candidate) names).
  { intros names. unfold _display_field. apply first_preferred_stated. }
  split_and!.
  - apply Hdisp.
  - apply Hdisp.
  - intros names Hfs. rewrite Hdisp, Hfs. by induction names.
  - intros names first rest Hfs Hnone. rewrite Hdisp.
    induction names as [|n names IH]; simpl; [by rewrite Hfs|].
    rewrite (Hnone n) by left. apply IH. intros m Hm. apply Hnone. by right.
  - intros before name after v Hnone Hv. rewrite Hdisp.
    induction before as [|n before IH]; simpl; [by rewrite Hv|].
    rewrite (Hnone n) by left. apply IH. intros m Hm. apply Hnone. by right.
  - intros Hfs HP HA. cbn [preview_note display_front display_back].
    rewrite !Hdisp, Hfs. split; [exact HP | exact HA].
Qed.

Lemma C8_witness :
  display_front (preview_note (fun s => s) pa_note) = "P"
  ∧ display_back (preview_note (fun s => s) pa_note) = "A".
Proof.
  destruct (C8_preview_projection (fun s => s) pa_note)
    as (_ & _ & _ & _ & _ & Hexample).
  apply Hexample; reflexivity.
Defined.

(** ** The model list *)

(** C9, as amended. The refreshed combo lists the model names trimmed,
    without the empty ones and without repetitions, each at the place of its
    first occurrence. The text typed for the model is kept unless it is
    blank, that is empty after trimming. When it is blank and the first raw
    entry is non-empty and carries no surrounding white space, that entry,
    which is then the first listed model, becomes the text. With no models
    the text is kept. *)
Theorem C9_model_list (self : Dialog) (provider : Z) (models : list string) :
  items (modelOverrideCombo (_on_refresh_models_on_success self provider models))
    = stated_model_list models
  ∧ NoDup (items (modelOverrideCombo
                    (_on_refresh_models_on_success self provider models)))
  ∧ (∀ m, m ∈ items (modelOverrideCombo
                       (_on_refresh_models_on_success self provider models))
          ↔ m ≠ EmptyString ∧ ∃ raw, raw ∈ models ∧ strip raw = m)
  ∧ (models = ["a"; " a "; "b"; "a"] →
     items (modelOverrideCombo (_on_refresh_models_on_success self provider models))
       = ["a"; "b"])
  ∧ (strip (currentText (modelOverrideCombo self)) ≠ EmptyString →
     currentText (modelOverrideCombo
                    (_on_refresh_models_on_success self provider models))
       = currentText (modelOverrideCombo self))
  ∧ (∀ first rest,
       strip (currentText (modelOverrideCombo self)) = EmptyString →
       models = first :: rest →
       first ≠ EmptyString →
       strip first = first →
       currentText (modelOverrideCombo
                      (_on_refresh_models_on_success self provider models))
         = first
       ∧ head (items (modelOverrideCombo
                        (_on_refresh_models_on_success self provider models)))
           = Some first)
  ∧ (models = [] →
     currentText (modelOverrideCombo
                    (_on_refresh_models_on_success self provider models))
       = currentText (modelOverrideCombo self)).
Proof.
  rewrite refresh_items, refresh_text. split_and!.
  - done.
  - apply NoDup_first_occurrences.
  - intros m. unfold stated_model_list.
    rewrite elem_of_first_occurrences, list_elem_of_filter, list_elem_of_fmap.
    split; intros [Hne (raw & Hraw & Hm)]; (split; [done | by exists raw]).
  - by intros ->.
  - intros Htyped. destruct models; [done|]. by rewrite (truthy_true _ Htyped).
  - intros first rest Hblank -> Hne Htrim.
    rewrite (truthy_false _ Hblank). split; [done|].
    unfold stated_model_list. rewrite fmap_cons, Htrim.
    by rewrite filter_cons_True by done.
  - by intros ->.
Qed.

(** C9 as stated fails twice. A typed text of two spaces is not empty, yet
    the refresh replaces it by the first raw entry. And with an empty typed
    text and a raw list of an empty entry followed by "b" the first
    available model is "b", yet the text stays empty, since the first raw
    entry is taken. *)
Lemma C9_counterexample :
  (currentText (modelOverrideCombo (_on_refresh_models_on_success (typing "  ") 1 ["a"]))
     = "a"
   ∧ stated_active_model "  " ["a"] = "  ")
  ∧ (currentText (modelOverrideCombo
                    (_on_refresh_models_on_success (typing EmptyString) 1 [EmptyString; "b"]))
       = EmptyString
     ∧ items (modelOverrideCombo
                (_on_refresh_models_on_success (typing EmptyString) 1 [EmptyString; "b"]))
         = ["b"]
     ∧ stated_active_model EmptyString [EmptyString; "b"] = "b").
Proof. split; split_and!; by vm_compute. Qed.

Lemma C9_witness :
  currentText (modelOverrideCombo
                 (_on_refresh_models_on_success (typing "gpt-4o") 1 ["a"; "b"]))
    = "gpt-4o"
  ∧ items (modelOverrideCombo
             (_on_refresh_models_on_success (typing EmptyString) 1 ["a"; " a "; "b"; "a"]))
    = ["a"; "b"]
  ∧ currentText (modelOverrideCombo
                   (_on_refresh_models_on_success (typing EmptyString) 1
                      ["a"; " a "; "b"; "a"]))
    = "a"
  ∧ head (items (modelOverrideCombo
                   (_on_refresh_models_on_success (typing EmptyString) 1
                      ["a"; " a "; "b"; "a"])))
    = Some "a".
Proof.
  destruct (C9_model_list (typing "gpt-4o") 1 ["a"; "b"])
    as (_ & _ & _ & _ & Hkept & _).
  destruct (C9_model_list (typing EmptyString) 1 ["a"; " a "; "b"; "a"])
    as (_ & _ & _ & Hitems & _ & Hfirst & _).
  destruct (Hfirst "a" [" a "; "b"; "a"]) as [Htext Hhead];
    [reflexivity | reflexivity | discriminate | reflexivity |].
  split_and!.
  - apply Hkept. vm_compute. discriminate.
  - apply Hitems. reflexivity.
  - exact Htext.
  - exact Hhead.
Defined.

(** ** The empty selection *)

(** C10. With nothing selected [_add_notes] returns at once: no call of
    [_create_note], no message, no submission, and the dialog is as
    before. *)
Theorem C10_empty_selection (store_accepts : list AddNoteRequest → bool)
    (self : Dialog) (col : Collection) (indices : list Z) :
  unique_indices_of indices = [] →
  _add_notes self col indices = (ExitReturn, [])
  ∧ add_notes_session store_accepts self col indices = (self, []).
Proof.
  intros Hnil. unfold add_notes_session, _add_notes. by rewrite Hnil.
Qed.

Lemma C10_witness :
  _add_notes (sample_dialog [qa_note]) sample_col [] = (ExitReturn, [])
  ∧ add_notes_session (fun _ => true) (sample_dialog [qa_note]) sample_col []
      = (sample_dialog [qa_note], []).
Proof.
  apply (C10_empty_selection (fun _ => true) (sample_dialog [qa_note]) sample_col []).
  reflexivity.
Defined.

(** * Further properties *)

(** * Further properties *)

(** ** Outcomes of [_create_note] *)

Lemma assemble_no_slots notetype candidate src :
  flds notetype = [] →
  source candidate = Some src →
  assemble notetype candidate = Raise IndexError.
Proof.
  intros Hflds Hsrc. unfold assemble, new_note. rewrite Hflds.
  cbn [match_slots mbind Result_bind length replicate].
  unfold place_source. cbn [fr_proto note_fields]. rewrite Hsrc.
  unfold _assign_source_field. rewrite Hflds. reflexivity.
Qed.

(** Assembling a resolved template ends with a note or with [IndexError],
    the latter exactly on a template without slots and a candidate with
    attribution. *)
Lemma assemble_outcome notetype candidate :
  (∃ fr, assemble notetype candidate = Ok fr)
  ∨ (assemble notetype candidate = Raise IndexError
     ∧ flds notetype = [] ∧ source candidate ≠ None).
Proof.
  destruct (decide (flds notetype = [])) as [Hnil|Hne].
  - destruct (source candidate) as [src|] eqn:Hsrc.
    + right. split; [by eapply assemble_no_slots | done].
    + left. destruct (assemble_frame notetype candidate) as (fr & Hfr & _);
        [by right | by exists fr].
  - left. destruct (assemble_frame notetype candidate) as (fr & Hfr & _);
      [by left | by exists fr].
Qed.

(** X1. [_create_note] ends in exactly one of four ways, decided by the
    template id in force, which is the candidate's own id when that is
    non-zero and the dialog's effective id otherwise: the missing-notetype
    error when the id is zero; the invalid-notetype error when the id is not
    zero and names no template, also when the dialog's own choice would
    have named one; [IndexError] when the template has no slot and the
    candidate has an attribution; a note in every other case. *)
Theorem X1_create_note_outcomes (self : Dialog) (col : Collection)
    (candidate : GeneratedNote) :
  (Py.or_int (note_type_id candidate) (_effective_note_type_id self) = 0%Z
   ↔ _create_note self col candidate
       = Raise (AnkiError ai_generation_error_missing_notetype))
  ∧ (Py.or_int (note_type_id candidate) (_effective_note_type_id self) ≠ 0%Z
     ∧ models col !! Py.or_int (note_type_id candidate) (_effective_note_type_id self)
         = None
     ↔ _create_note self col candidate
         = Raise (AnkiError ai_generation_error_invalid_notetype))
  ∧ (Py.or_int (note_type_id candidate) (_effective_note_type_id self) ≠ 0%Z
     ∧ (∃ T, models col !! Py.or_int (note_type_id candidate)
                             (_effective_note_type_id self) = Some T
             ∧ flds T = [] ∧ source candidate ≠ None)
     ↔ _create_note self col candidate = Raise IndexError)
  ∧ (note_type_id candidate ≠ 0%Z →
     models col !! note_type_id candidate = None →
     _create_note self col candidate
       = Raise (AnkiError ai_generation_error_invalid_notetype)).
Proof.
  assert (Hown : note_type_id candidate ≠ 0%Z →
            Py.or_int (note_type_id candidate) (_effective_note_type_id self)
              = note_type_id candidate).
  { intros Hne. unfold Py.or_int. by rewrite decide_False. }
  unfold _create_note.
  set (id := Py.or_int (note_type_id candidate) (_effective_note_type_id self)) in *.
  destruct (decide (id = 0%Z)) as [Hzero|Hnonzero].
  - split_and!.
    + done.
    + split; [by intros [? _] | done].
    + split; [by intros [? _] | done].
    + intros Hne Hnone. rewrite Hown in Hzero by done. done.
  - destruct (models col !! id) as [T|] eqn:Hget.
    + destruct (assemble_outcome T candidate) as [[fr Hfr] | (Hraise & Hnil & Hsrc)].
      * rewrite Hfr. cbn [mbind Result_bind]. split_and!.
        -- split; [done | discriminate].
        -- split; [by intros [_ ?] | discriminate].
        -- split; [|discriminate].
           intros (_ & T' & [= <-] & Hnil & Hsrc).
           destruct (source candidate) as [src|] eqn:Hs; [|done].
           by rewrite (assemble_no_slots T candidate src) in Hfr.
        -- intros Hne Hnone. rewrite Hown in Hget by done. congruence.
      * rewrite Hraise. cbn [mbind Result_bind]. split_and!.
        -- split; [done | discriminate].
        -- split; [by intros [_ ?] | discriminate].
        -- split; [done|]. intros _. split; [done|]. by exists T.
        -- intros Hne Hnone. rewrite Hown in Hget by done. congruence.
    + split_and!.
      * split; [done | discriminate].
      * done.
      * split; [|discriminate]. by intros (_ & T & ? & _).
      * done.
Qed.

Lemma X1_witness :
  _create_note (dialog_with None [qa_note]) sample_col qa_note
    = Raise (AnkiError ai_generation_error_missing_notetype)
  ∧ _create_note (sample_dialog [])
      sample_col
      {| fields := []; source := None; note_type_id := 9; deck_id := 0 |}
    = Raise (AnkiError ai_generation_error_invalid_notetype)
  ∧ _create_note (sample_dialog []) sample_col
      {| fields := []; source := Some (mk_source "T" EmptyString EmptyString);
         note_type_id := 3; deck_id := 0 |}
    = Raise IndexError.
Proof.
  split_and!.
  - apply (X1_create_note_outcomes (dialog_with None [qa_note]) sample_col qa_note).
    reflexivity.
  - apply (X1_create_note_outcomes (sample_dialog []) sample_col
             {| fields := []; source := None; note_type_id := 9; deck_id := 0 |}).
    + discriminate.
    + reflexivity.
  - apply (X1_create_note_outcomes (sample_dialog []) sample_col
             {| fields := []; source := Some (mk_source "T" EmptyString EmptyString);
                note_type_id := 3; deck_id := 0 |}).
    split; [discriminate|]. exists no_slots. split_and!; [reflexivity | reflexivity | discriminate].
Defined.

(** The deck [_create_note] returns with a note. *)
Lemma create_note_deck self col candidate note deck :
  _create_note self col candidate = Ok (note, deck) →
  deck
    = (if decide (deck_id candidate ≠ 0%Z) then deck_id candidate
       else if decide (_current_deck_id self ≠ 0%Z) then _current_deck_id self
       else decks_current_id col).
Proof.
  unfold _create_note, Py.or_int. intros Hrun.
  destruct (decide (_ = 0%Z)) as [|_]; [discriminate|].
  destruct (models col !! _) as [T|]; [|discriminate].
  destruct (assemble T candidate) as [fr|e]; [|discriminate].
  cbn [mbind Result_bind] in Hrun. injection Hrun as _ <-.
  repeat case_decide; try done; congruence.
Qed.

(** X2. Whenever [_create_note] assembles a note, the deck it returns with
    it is the candidate's own deck when that is set, else the deck of the
    dialog's deck combo when that has one, else the collection's current
    deck; so the deck is not zero unless the collection's current deck is. *)
Theorem X2_deck_resolution (self : Dialog) (col : Collection)
    (candidate : GeneratedNote) (T : Notetype) :
  Py.or_int (note_type_id candidate) (_effective_note_type_id self) ≠ 0%Z →
  models col !! Py.or_int (note_type_id candidate) (_effective_note_type_id self)
    = Some T →
  flds T ≠ [] ∨ source candidate = None →
  ∃ note deck,
    _create_note self col candidate = Ok (note, deck)
    ∧ (deck_id candidate ≠ 0%Z → deck = deck_id candidate)
    ∧ (deck_id candidate = 0%Z → _current_deck_id self ≠ 0%Z →
       deck = _current_deck_id self)
    ∧ (deck_id candidate = 0%Z → _current_deck_id self = 0%Z →
       deck = decks_current_id col)
    ∧ (decks_current_id col ≠ 0%Z → deck ≠ 0%Z).
Proof.
  intros Hid Hget Hne.
  destruct (assemble_frame T candidate Hne) as (fr & Hrun & _).
  assert (∃ deck, _create_note self col candidate = Ok (note_fields fr, deck))
    as [deck Hnote].
  { unfold _create_note. rewrite decide_False by done. rewrite Hget, Hrun.
    by eexists. }
  exists (note_fields fr), deck. split; [done|].
  pose proof (create_note_deck _ _ _ _ _ Hnote) as Hdeck.
  repeat case_decide; split_and!; intros; congruence.
Qed.

Lemma X2_witness :
  ∃ note deck,
    _create_note (dialog_with None []) sample_col
      {| fields := []; source := None; note_type_id := 1; deck_id := 0 |}
      = Ok (note, deck)
    ∧ deck = 1%Z.
Proof.
  destruct (X2_deck_resolution (dialog_with None []) sample_col
              {| fields := []; source := None; note_type_id := 1; deck_id := 0 |}
              basic)
    as (note & deck & Hrun & _ & Hcombo & _).
  - discriminate.
  - reflexivity.
  - left. discriminate.
  - exists note, deck. split; [exact Hrun|]. apply Hcombo; [reflexivity | discriminate].
Defined.

(** ** The assembled note in closed form *)

(** X3. On every template with at least one slot, and on any template for
    a candidate without attribution, the loops of the assembler compute the
    note that three steps give in closed form: each slot takes the value
    looked up for its name unless an earlier slot of the same name took it;
    then the attribution is placed; then the overflow is appended. The
    lookup is left holding the fields no slot is named after, and the
    candidate is returned as it was passed. *)
Theorem X3_assemble_closed_form (notetype : Notetype) (candidate : GeneratedNote) :
  flds notetype ≠ [] ∨ source candidate = None →
  assemble notetype candidate
    = Ok {| fr_proto := candidate;
            field_map := leftover notetype candidate;
            note_fields := assembled_fields notetype candidate |}.
Proof. apply assemble_closed. Qed.

Lemma X3_witness :
  assemble basic
    (mk_note [mk_field "front" "Q"; mk_field "extra" " E "]
       (Some (mk_source EmptyString "u" EmptyString)))
    = Ok (mk_frame
            (mk_note [mk_field "front" "Q"; mk_field "extra" " E "]
               (Some (mk_source EmptyString "u" EmptyString)))
            [("extra", " E ")]
            ["Q"; "u" +:+ blank_line +:+ "E"]).
Proof.
  apply (X3_assemble_closed_form basic
           (mk_note [mk_field "front" "Q"; mk_field "extra" " E "]
              (Some (mk_source EmptyString "u" EmptyString)))).
  left. discriminate.
Defined.

(** X4. When the template has no slot named "source" and its last slot is
    the slot named "back", attribution and overflow meet in that slot, and
    the attribution comes first: the slot ends up holding the matched value
    with the formatted attribution appended and trimmed, followed by the
    left-over values, after a blank line unless what was placed is empty. *)
Theorem X4_source_before_overflow (notetype : Notetype)
    (candidate : GeneratedNote) (src : GeneratedNoteSource) (slot : string) :
  source candidate = Some src →
  source_index notetype = None →
  back_index notetype = Some (length (flds notetype) - 1) →
  last (flds notetype) = Some slot →
  ∃ fr,
    assemble notetype candidate = Ok fr
    ∧ last (note_fields fr)
      = Some
          (let matched :=
             slot_match (fields candidate)
               (take (length (flds notetype) - 1) (flds notetype)) slot in
           let placed := strip (matched +:+ blank_line +:+ _format_source src) in
           match extras_of (leftover notetype candidate) with
           | [] => placed
           | (_ :: _) as extras => overflow_value placed extras
           end).
Proof.
  intros Hsrc Hsi Hbi Hlast.
  assert (flds notetype ≠ []) as Hne by (by intros Hnil; rewrite Hnil in Hlast).
  rewrite assemble_closed by (by left).
  eexists. split; [done|]. cbn [note_fields].
  set (n := length (flds notetype)) in *.
  assert (0 < n) as Hn by (subst n; destruct (flds notetype); [done | simpl; lia]).
  assert (flds notetype !! (n - 1) = Some slot) as Hslot.
  { rewrite last_lookup in Hlast. by replace (n - 1) with (pred n) by lia. }
  pose proof (matched_fields_lookup notetype candidate _ _ Hslot) as Hm.
  pose proof (length_matched_fields notetype candidate) as Hlm. fold n in Hlm.
  assert (last (matched_fields notetype candidate)
          = Some (slot_match (fields candidate) (take (n - 1) (flds notetype)) slot))
    as Hlastm.
  { rewrite last_lookup, Hlm. by replace (pred n) with (n - 1) by lia. }
  unfold assembled_fields, with_overflow, with_source.
  rewrite Hsrc, Hsi, Hbi, Hlastm, Hlm. cbn [default from_option id].
  set (placed := strip (_ +:+ blank_line +:+ _format_source src)).
  destruct (extras_of (leftover notetype candidate)) as [|e extras].
  - rewrite last_lookup, length_insert, Hlm.
    replace (pred n) with (n - 1) by lia.
    by rewrite list_lookup_insert_eq by lia.
  - rewrite last_lookup, !length_insert, Hlm.
    replace (pred n) with (n - 1) by lia.
    rewrite list_lookup_insert_eq by (rewrite length_insert; lia).
    by rewrite list_lookup_insert_eq by lia.
Qed.

Lemma X4_witness :
  ∃ fr,
    assemble basic
      (mk_note [mk_field "back" "A"; mk_field "extra" "E"]
         (Some (mk_source EmptyString "u" EmptyString))) = Ok fr
    ∧ last (note_fields fr)
      = Some ("A" +:+ blank_line +:+ "u" +:+ blank_line +:+ "E").
Proof.
  apply (X4_source_before_overflow basic
           (mk_note [mk_field "back" "A"; mk_field "extra" "E"]
              (Some (mk_source EmptyString "u" EmptyString)))
           (mk_source EmptyString "u" EmptyString) "Back");
    reflexivity.
Defined.

(** ** Letter case of names *)

Ltac agree := cbn; unfold frames_agree; cbn; split_and!; (done || congruence).

Lemma build_field_map_keyed fs :
  build_field_map fs = foldl (fun d p => Py.dict_set p.1 p.2 d) [] (keyed <$> fs).
Proof.
  unfold build_field_map. generalize (@nil (string * string)).
  induction fs as [|field fs IH]; intros d; [done|]. simpl. apply IH.
Qed.

Lemma match_slot_agree idx slot slot' fr fr' :
  lower slot = lower slot' →
  frames_agree fr fr' →
  outcomes_agree (match_slot idx slot fr) (match_slot idx slot' fr').
Proof.
  intros Hlower (Hfm & Hnf & Hsrc). unfold match_slot.
  rewrite <-Hlower, <-Hfm, <-Hnf.
  destruct (Py.dict_pop _ _ _) as [value fm].
  destruct (Py.setitem _ _ _) as [nf|e]; simpl; [|done].
  agree.
Qed.

Lemma match_slots_agree slots : ∀ slots' idx fr fr',
  lower <$> slots = lower <$> slots' →
  frames_agree fr fr' →
  outcomes_agree (match_slots idx slots fr) (match_slots idx slots' fr').
Proof.
  induction slots as [|slot slots IH]; intros [|slot' slots'] idx fr fr' Hlower Hfr;
    try discriminate; [done|].
  injection Hlower as Hslot Hrest. cbn [match_slots].
  pose proof (match_slot_agree idx slot slot' fr fr' Hslot Hfr) as Hstep.
  destruct (match_slot idx slot fr) as [fr1|e], (match_slot idx slot' fr') as [fr1'|e'];
    simpl in Hstep; try done.
  cbn [mbind Result_bind]. by apply IH.
Qed.

Lemma assign_source_loop_lower slots : ∀ slots' idx nf value,
  lower <$> slots = lower <$> slots' →
  assign_source_loop idx slots nf value = assign_source_loop idx slots' nf value.
Proof.
  induction slots as [|slot slots IH]; intros [|slot' slots'] idx nf value Hlower;
    try discriminate; [done|].
  injection Hlower as Hslot Hrest. cbn [assign_source_loop].
  rewrite Hslot. case_decide; [done|]. by apply IH.
Qed.

Lemma list_find_lower (k : string) slots : ∀ slots',
  lower <$> slots = lower <$> slots' →
  fst <$> list_find (fun field => lower field = k) slots
    = fst <$> list_find (fun field => lower field = k) slots'.
Proof.
  induction slots as [|slot slots IH]; intros [|slot' slots'] Hlower;
    try discriminate; [done|].
  injection Hlower as Hslot Hrest. cbn [list_find].
  rewrite Hslot. case_decide; [done|].
  rewrite <-!option_fmap_compose. specialize (IH slots' Hrest).
  destruct (list_find _ slots) as [[i x]|], (list_find _ slots') as [[i' x']|];
    simpl in *; congruence.
Qed.

Lemma place_source_agree notetype notetype' fr fr' :
  lower <$> flds notetype = lower <$> flds notetype' →
  frames_agree fr fr' →
  outcomes_agree (place_source notetype fr) (place_source notetype' fr').
Proof.
  intros Hlower (Hfm & Hnf & Hsrc). unfold place_source.
  rewrite <-Hsrc. destruct (source (fr_proto fr)) as [src|] eqn:Hs; [|agree].
  unfold _assign_source_field.
  rewrite <-(assign_source_loop_lower _ _ _ _ _ Hlower), <-Hnf.
  destruct (assign_source_loop _ _ _ _) as [[nf|e]|]; simpl; [agree | done |].
  destruct (Py.getitem _ _) as [last|e]; simpl; [|done].
  destruct (Py.setitem _ _ _) as [nf|e]; simpl; [agree | done].
Qed.

Lemma append_extras_agree notetype notetype' fr fr' :
  lower <$> flds notetype = lower <$> flds notetype' →
  frames_agree fr fr' →
  outcomes_agree (append_extras notetype fr) (append_extras notetype' fr').
Proof.
  intros Hlower (Hfm & Hnf & Hsrc). unfold append_extras, back_index.
  rewrite <-(list_find_lower "back" _ _ Hlower), <-Hfm, <-Hnf.
  destruct (Py.dict_truthy _); [|agree].
  destruct (fst <$> _) as [idx|]; [|agree].
  destruct (extras_of _); [agree|].
  destruct (Py.getitem _ _) as [existing|e]; simpl; [|done].
  destruct (Py.setitem _ _ _) as [nf|e]; simpl; [agree | done].
Qed.

(** X5. Assembly reads names up to letter case only: two templates whose
    slot names agree in lower case, and two candidates with the same
    attribution whose fields agree in value and, in lower case, in name,
    give the same note fields, the same left-over lookup, or the same
    exception. *)
Theorem X5_names_up_to_case (notetype notetype' : Notetype)
    (candidate candidate' : GeneratedNote) :
  lower <$> flds notetype = lower <$> flds notetype' →
  keyed <$> fields candidate = keyed <$> fields candidate' →
  source candidate = source candidate' →
  outcomes_agree (assemble notetype candidate) (assemble notetype' candidate').
Proof.
  intros Hslots Hfields Hsrc. unfold assemble.
  assert (frames_agree
            {| fr_proto := candidate;
               field_map := build_field_map (fields candidate);
               note_fields := new_note notetype |}
            {| fr_proto := candidate';
               field_map := build_field_map (fields candidate');
               note_fields := new_note notetype' |}) as Hstart.
  { split_and!; simpl.
    - by rewrite !build_field_map_keyed, Hfields.
    - unfold new_note. f_equal.
      by rewrite <-(length_fmap lower (flds notetype)), Hslots, length_fmap.
    - done. }
  pose proof (match_slots_agree (flds notetype) (flds notetype') 0 _ _ Hslots Hstart)
    as Hmatch.
  destruct (match_slots 0 (flds notetype) _) as [fr1|e],
           (match_slots 0 (flds notetype') _) as [fr1'|e'];
    simpl in Hmatch; try done.
  cbn [mbind Result_bind].
  pose proof (place_source_agree notetype notetype' fr1 fr1' Hslots Hmatch) as Hplace.
  destruct (place_source notetype fr1) as [fr2|e],
           (place_source notetype' fr1') as [fr2'|e'];
    simpl in Hplace; try done.
  cbn [mbind Result_bind]. by apply append_extras_agree.
Qed.

Lemma X5_witness :
  outcomes_agree
    (assemble basic (mk_note [mk_field "FRONT" "Q"; mk_field "Back" "A"] None))
    (assemble {| flds := ["front"; "BACK"] |}
       (mk_note [mk_field "front" "Q"; mk_field "bAcK" "A"] None)).
Proof.
  apply (X5_names_up_to_case basic {| flds := ["front"; "BACK"] |}
           (mk_note [mk_field "FRONT" "Q"; mk_field "Back" "A"] None)
           (mk_note [mk_field "front" "Q"; mk_field "bAcK" "A"] None));
    reflexivity.
Defined.

(** ** Attribution texts *)

Lemma escape_char_nonempty c : escape_char c ≠ EmptyString.
Proof. unfold escape_char. by repeat destruct (Ascii.eqb c _). Qed.

Lemma escape_empty s : escape s = EmptyString ↔ s = EmptyString.
Proof.
  destruct s as [|c s]; [done|]. split; [|discriminate].
  simpl. intros Hempty. by apply append_nonempty in Hempty;
    [| apply escape_char_nonempty].
Qed.

Lemma join_empty sep parts :
  (∀ p, p ∈ parts → p ≠ EmptyString) →
  join sep parts = EmptyString ↔ parts = [].
Proof.
  intros Hparts. destruct parts as [|p ps]; [done|]. split; [|discriminate].
  intros Hjoin. exfalso. apply (join_nonempty sep p ps); [|done].
  apply Hparts. left.
Qed.

Lemma anchor_nonempty src : anchor src ≠ EmptyString.
Proof. done. Qed.

(** X6. The formatted attribution is empty exactly when excerpt, url and
    title are all empty, and so is the attribution text of the preview; so
    the preview shows a source exactly for the candidates whose attribution
    formats to something. A candidate without attribution previews as
    empty. *)
Theorem X6_attribution_empty (src : GeneratedNoteSource) :
  (_format_source src = EmptyString
   ↔ excerpt src = EmptyString ∧ url src = EmptyString ∧ title src = EmptyString)
  ∧ (_display_source (Some src) = EmptyString
     ↔ excerpt src = EmptyString ∧ url src = EmptyString ∧ title src = EmptyString)
  ∧ (_display_source (Some src) = EmptyString ↔ _format_source src = EmptyString)
  ∧ _display_source None = EmptyString.
Proof.
  assert (Hformat : _format_source src = EmptyString
            ↔ excerpt src = EmptyString ∧ url src = EmptyString
              ∧ title src = EmptyString).
  { unfold _format_source.
    destruct (excerpt src) as [|c1 e], (url src) as [|c2 u], (title src) as [|c3 t];
      cbn [truthy app]; split; try done; try (by intros (? & ? & ?)).
    all: intros Hjoin; exfalso; revert Hjoin; apply join_nonempty;
      first [ apply anchor_nonempty | by rewrite escape_empty ]. }
  assert (Hdisplay : _display_source (Some src) = EmptyString
            ↔ excerpt src = EmptyString ∧ url src = EmptyString
              ∧ title src = EmptyString).
  { unfold _display_source.
    destruct (excerpt src) as [|c1 e], (url src) as [|c2 u], (title src) as [|c3 t];
      cbn [truthy app]; split; try done; try (by intros (? & ? & ?)).
    all: intros Hjoin; exfalso; revert Hjoin; by apply join_nonempty. }
  split_and!; [done | done | by rewrite Hformat, Hdisplay | done].
Qed.

(** X7. The attribution text of the preview lists the parts that are not
    empty in the order title, excerpt, url, one per line and as they are,
    without escaping. *)
Theorem X7_display_source (src : GeneratedNoteSource) :
  _display_source (Some src)
    = join (String nl EmptyString)
        (filter (fun part => part ≠ EmptyString) [title src; excerpt src; url src])
  ∧ (title src ≠ EmptyString → excerpt src ≠ EmptyString → url src ≠ EmptyString →
     _display_source (Some src)
       = title src +:+ String nl (excerpt src) +:+ String nl (url src))
  ∧ (title src = EmptyString → excerpt src ≠ EmptyString → url src ≠ EmptyString →
     _display_source (Some src) = excerpt src +:+ String nl (url src))
  ∧ (title src ≠ EmptyString → excerpt src = EmptyString → url src ≠ EmptyString →
     _display_source (Some src) = title src +:+ String nl (url src))
  ∧ (title src ≠ EmptyString → excerpt src = EmptyString → url src = EmptyString →
     _display_source (Some src) = title src).
Proof.
  unfold _display_source.
  destruct (title src) as [|c1 t], (excerpt src) as [|c2 e], (url src) as [|c3 u];
    cbn [truthy app]; split_and!; try done; intros; done.
Qed.

Lemma X7_witness :
  _display_source (Some (mk_source "T" "http://x" "E<"))
    = "T" +:+ String nl "E<" +:+ String nl "http://x"
  ∧ _display_source (Some (mk_source "T" EmptyString EmptyString)) = "T".
Proof.
  split.
  - apply (X7_display_source (mk_source "T" "http://x" "E<")); discriminate.
  - apply (X7_display_source (mk_source "T" EmptyString EmptyString));
      (discriminate || reflexivity).
Defined.

(** ** The requests of a batch *)

Lemma request_at_getitem self col index pn :
  Py.getitem (_generated_notes self) index = Ok pn →
  request_at self col index
    = match _create_note self col (proto pn) with
      | Ok (note, deck) => Some {| req_note := note; req_deck_id := deck |}
      | Raise _ => None
      end.
Proof. intros Hget. unfold request_at. by rewrite Hget. Qed.

Lemma candidate_at_getitem self index pn :
  Py.getitem (_generated_notes self) index = Ok pn →
  candidate_at self index = Some (proto pn).
Proof. intros Hget. unfold candidate_at. by rewrite Hget. Qed.

(** The loop of [_add_notes] runs to its end exactly when every index it
    does not pass over gives a request; it then holds these requests in the
    order of the indices, and has logged one call of [_create_note] per
    such index. *)
Lemma add_notes_loop_requests self col unique_indices : ∀ requests log,
  match add_notes_loop self col unique_indices requests log with
  | (Some (Ok all), log') =>
      ∃ rs,
        all = requests ++ rs
        ∧ Forall2 (fun i r => request_at self col i = Some r)
            (filter (fun i => (i < Z.of_nat (length (_generated_notes self)))%Z)
                    unique_indices) rs
        ∧ log' = log ++ omap (fun i => EvCreateNote <$> candidate_at self i)
                   (filter (fun i => (i < Z.of_nat (length (_generated_notes self)))%Z)
                           unique_indices)
  | _ =>
      ¬ ∃ rs,
          Forall2 (fun i r => request_at self col i = Some r)
            (filter (fun i => (i < Z.of_nat (length (_generated_notes self)))%Z)
                    unique_indices) rs
  end.
Proof.
  induction unique_indices as [|index rest IH]; intros requests log.
  - simpl. exists []. split_and!; [by rewrite app_nil_r | constructor | by rewrite app_nil_r].
  - rewrite filter_cons. cbn [add_notes_loop].
    destruct (Z.leb_spec (Z.of_nat (length (_generated_notes self))) index) as [Hge|Hlt].
    { rewrite decide_False by lia. apply IH. }
    rewrite decide_True by lia.
    destruct (Py.getitem (_generated_notes self) index) as [pn|e] eqn:Hget.
    + pose proof (request_at_getitem self col index pn Hget) as Hreq.
      destruct (_create_note self col (proto pn)) as [[note deck]|[msg|]] eqn:Hnote.
      * specialize (IH (requests ++ [{| req_note := note; req_deck_id := deck |}])
                      (log ++ [EvCreateNote (proto pn)])).
        destruct (add_notes_loop self col rest _ _) as [[[all|e]|] log'].
        -- destruct IH as (rs & -> & Hrs & ->).
           exists ({| req_note := note; req_deck_id := deck |} :: rs).
           split_and!; [by rewrite <-app_assoc | by constructor |].
           cbn [omap list_omap]. rewrite (candidate_at_getitem _ _ _ Hget).
           simpl. by rewrite <-app_assoc.
        -- intros (rs & Hrs). apply Forall2_cons_inv_l in Hrs as (r & rs' & _ & Hrs' & ->).
           apply IH. by exists rs'.
        -- intros (rs & Hrs). apply Forall2_cons_inv_l in Hrs as (r & rs' & _ & Hrs' & ->).
           apply IH. by exists rs'.
      * intros (rs & Hrs). apply Forall2_cons_inv_l in Hrs as (r & rs' & Hr & _ & _).
        congruence.
      * intros (rs & Hrs). apply Forall2_cons_inv_l in Hrs as (r & rs' & Hr & _ & _).
        congruence.
    + intros (rs & Hrs). apply Forall2_cons_inv_l in Hrs as (r & rs' & Hr & _ & _).
      unfold request_at in Hr. by rewrite Hget in Hr.
Qed.

Lemma Forall2_request_unique self col (l : list Z) rs rs' :
  Forall2 (fun i r => request_at self col i = Some r) l rs →
  Forall2 (fun i r => request_at self col i = Some r) l rs' →
  rs = rs'.
Proof.
  intros Hrs. revert rs'. induction Hrs as [|i r l rs Hr Hrs IH]; intros rs' Hrs'.
  - by apply Forall2_nil_inv_l in Hrs'.
  - apply Forall2_cons_inv_l in Hrs' as (r' & rs'' & Hr' & Hrs'' & ->).
    f_equal; [congruence | by apply IH].
Qed.

(** When [_add_notes] starts the submission, with which requests, and what
    it has logged by then. *)
Lemma add_notes_starts (self : Dialog) (col : Collection) (indices : list Z)
    (requests : list AddNoteRequest) (unique_indices : list Z) :
  ((_add_notes self col indices).1 = ExitCollectionOp requests unique_indices
   ↔ indices ≠ []
     ∧ unique_indices = unique_indices_of indices
     ∧ Forall2 (fun i r => request_at self col i = Some r)
         (effective_selection self indices) requests)
  ∧ ((_add_notes self col indices).1 = ExitCollectionOp requests unique_indices →
     (_add_notes self col indices).2
       = omap (fun i => EvCreateNote <$> candidate_at self i)
           (effective_selection self indices)).
Proof.
  unfold _add_notes, effective_selection.
  destruct (unique_indices_of indices) as [|i u] eqn:Hu.
  { apply (proj1 (unique_indices_nil indices)) in Hu. subst indices. simpl.
    split; [|done]. split; [done | by intros [? _]]. }
  assert (indices ≠ []) as Hne.
  { intros ->. by rewrite (proj2 (unique_indices_nil [])) in Hu. }
  pose proof (add_notes_loop_requests self col (i :: u) [] []) as Hloop.
  destruct (add_notes_loop self col (i :: u) [] []) as [[[all|e]|] log]; simpl.
  - destruct Hloop as (rs & -> & Hrs & ->). simpl. split.
    + split.
      * intros [= <- <-]. by split_and!.
      * intros (_ & -> & Hrs'). f_equal.
        by apply (Forall2_request_unique self col _ _ _ Hrs).
    + done.
  - split; [|done]. split; [done|]. intros (_ & _ & Hrs). destruct Hloop. by eexists.
  - split; [|done]. split; [done|]. intros (_ & _ & Hrs). destruct Hloop. by eexists.
Qed.

(** X8. [_add_notes] starts the submission exactly when something is
    selected and every selected index below the candidate count yields an
    assembled note. The requests it submits are then these notes with their
    decks, one per such index and in descending order of the indices, and
    [_create_note] was called once for each of them. *)
Theorem X8_batch_requests (self : Dialog) (col : Collection) (indices : list Z)
    (requests : list AddNoteRequest) (unique_indices : list Z) :
  ((_add_notes self col indices).1 = ExitCollectionOp requests unique_indices
   ↔ indices ≠ []
     ∧ unique_indices = unique_indices_of indices
     ∧ Forall2 (fun i r => request_at self col i = Some r)
         (effective_selection self indices) requests)
  ∧ ((_add_notes self col indices).1 = ExitCollectionOp requests unique_indices →
     (_add_notes self col indices).2
       = omap (fun i => EvCreateNote <$> candidate_at self i)
           (effective_selection self indices)).
Proof. apply add_notes_starts. Qed.

Lemma X8_witness :
  (_add_notes (sample_dialog [qa_note; dup_note]) sample_col [0; 1; 1; 7]%Z).1
    = ExitCollectionOp
        [{| req_note := ["B"; EmptyString]; req_deck_id := 1 |};
         {| req_note := ["Q"; "A"]; req_deck_id := 1 |}]
        [7; 1; 0]%Z
  ∧ (_add_notes (sample_dialog [qa_note; dup_note]) sample_col [0; 1; 1; 7]%Z).2
    = [EvCreateNote dup_note; EvCreateNote qa_note].
Proof.
  destruct (X8_batch_requests (sample_dialog [qa_note; dup_note]) sample_col
              [0; 1; 1; 7]%Z
              [{| req_note := ["B"; EmptyString]; req_deck_id := 1 |};
               {| req_note := ["Q"; "A"]; req_deck_id := 1 |}]
              [7; 1; 0]%Z) as [[_ Hstart] Hlog].
  assert ((_add_notes (sample_dialog [qa_note; dup_note]) sample_col [0; 1; 1; 7]%Z).1
          = ExitCollectionOp
              [{| req_note := ["B"; EmptyString]; req_deck_id := 1 |};
               {| req_note := ["Q"; "A"]; req_deck_id := 1 |}]
              [7; 1; 0]%Z) as Hexit.
  { apply Hstart. split_and!.
    - discriminate.
    - vm_compute. reflexivity.
    - vm_compute. repeat constructor. }
  split; [exact Hexit|]. rewrite (Hlog Hexit). vm_compute. reflexivity.
Defined.

(** ** Adding every candidate *)

(** A strictly descending list with the members of [indices] is what
    [sorted(set(indices), reverse=True)] gives. *)
Lemma unique_indices_descending indices (l : list Z) :
  StronglySorted Z.gt l → (∀ i, i ∈ l ↔ i ∈ indices) → unique_indices_of indices = l.
Proof.
  intros Hsorted Hmem.
  apply (StronglySorted_unique_strong Z.gt).
  - intros x y _ _ Hxy Hyx. lia.
  - apply StronglySorted_unique_indices.
  - done.
  - apply NoDup_Permutation.
    + apply NoDup_unique_indices.
    + clear Hmem. induction Hsorted as [|x l _ IH Hall]; constructor; [|done].
      intros Hx. rewrite Forall_forall in Hall. specialize (Hall x Hx). lia.
    + intros i. by rewrite elem_of_unique_indices, Hmem.
Qed.

Lemma py_range_S n : py_range (S n) = py_range n ++ [Z.of_nat n].
Proof. unfold py_range. by rewrite seq_S, fmap_app. Qed.

Lemma elem_of_py_range n i : i ∈ py_range n ↔ (0 ≤ i < Z.of_nat n)%Z.
Proof.
  unfold py_range. rewrite list_elem_of_fmap. split.
  - intros (j & -> & Hj%elem_of_seq). lia.
  - intros Hi. exists (Z.to_nat i). split; [lia|]. apply elem_of_seq. lia.
Qed.

Lemma length_py_range n : length (py_range n) = n.
Proof. unfold py_range. by rewrite length_fmap, length_seq. Qed.

Lemma reverse_range_descending n : StronglySorted Z.gt (reverse (py_range n)).
Proof.
  induction n as [|n IH]; [constructor|].
  rewrite py_range_S, reverse_snoc. constructor; [done|].
  apply Forall_forall. intros i Hi%elem_of_reverse%elem_of_py_range. lia.
Qed.

Lemma unique_indices_range n : unique_indices_of (py_range n) = reverse (py_range n).
Proof.
  apply unique_indices_descending; [apply reverse_range_descending|].
  intros i. apply elem_of_reverse.
Qed.

Lemma effective_selection_all self :
  effective_selection self (py_range (length (_generated_notes self)))
    = reverse (py_range (length (_generated_notes self))).
Proof.
  unfold effective_selection. rewrite unique_indices_range.
  apply filter_all. intros i Hi%elem_of_reverse%elem_of_py_range. lia.
Qed.

(** Position [i] of [range(len(l))] reads element [i] of [l]. *)
Lemma Forall2_py_range {A} (l : list A) :
  Forall2 (fun i x => Py.getitem l i = Ok x) (py_range (length l)) l.
Proof.
  apply Forall2_same_length_lookup_2; [by rewrite length_py_range|].
  intros i z x Hz Hx. unfold py_range in Hz.
  rewrite list_lookup_fmap in Hz.
  destruct (seq 0 (length l) !! i) as [j|] eqn:Hj; [|done].
  apply lookup_seq in Hj as [-> _]. injection Hz as <-.
  by apply getitem_nat.
Qed.

Lemma omap_Forall2 {A B} (f : A → option B) (l : list A) (k : list B) :
  Forall2 (fun x y => f x = Some y) l k → omap f l = k.
Proof.
  induction 1 as [|x y l k Hxy _ IH]; [done|].
  cbn [omap list_omap]. rewrite Hxy. cbn. by rewrite IH.
Qed.

(** Removing every position leaves nothing. *)
Lemma on_add_success_all self indices :
  (∀ j, j < length (_generated_notes self) → Z.of_nat j ∈ indices) →
  _generated_notes (_on_add_success self indices).1 = [].
Proof.
  intros Hall. apply nil_length_inv. rewrite on_add_success_notes.
  rewrite (kept_length (fun j => Z.of_nat j ∈ (list_to_set indices : gset Z)))
    by done.
  rewrite filter_all; [rewrite length_seq; lia|].
  intros j Hj%elem_of_seq. apply elem_of_list_to_set, Hall. lia.
Qed.

Lemma on_add_success_tree self indices :
  tree_consistent (_on_add_success self indices).1.
Proof. reflexivity. Qed.

(** X9. [_on_add_all] selects every position, highest first, and passes
    over none. With no candidate it returns at once. When every candidate
    assembles it submits the assembled notes in the reverse of the order in
    which the candidates are shown, after one [_create_note] call per
    candidate; once the store has accepted them no candidate and no row is
    left. *)
Theorem X9_add_all (self : Dialog) (col : Collection)
    (requests : list AddNoteRequest) :
  effective_selection self (py_range (length (_generated_notes self)))
    = reverse (py_range (length (_generated_notes self)))
  ∧ (_generated_notes self = [] → _on_add_all self col = (ExitReturn, []))
  ∧ (_generated_notes self ≠ [] →
     Forall2 (fun pn r =>
                _create_note self col (proto pn) = Ok (req_note r, req_deck_id r))
             (_generated_notes self) requests →
     _on_add_all self col
       = (ExitCollectionOp (reverse requests)
            (reverse (py_range (length (_generated_notes self)))),
          EvCreateNote <$> reverse (proto <$> _generated_notes self)))
  ∧ _generated_notes
      (_on_add_success self (reverse (py_range (length (_generated_notes self))))).1
    = []
  ∧ previewTree
      (_on_add_success self (reverse (py_range (length (_generated_notes self))))).1
    = [].
Proof.
  split; [apply effective_selection_all|]. split.
  { intros Hnil. unfold _on_add_all. by rewrite Hnil. }
  split.
  - intros Hne Hreq. unfold _on_add_all.
    set (indices := py_range (length (_generated_notes self))).
    assert (Forall2 (fun i r => request_at self col i = Some r)
              (reverse indices) (reverse requests)) as Hrs.
    { apply Forall2_reverse.
      eapply Forall2_trans; [|apply Forall2_py_range|exact Hreq].
      intros i pn r Hget Hnote. rewrite (request_at_getitem _ _ _ _ Hget), Hnote.
      by destruct r. }
    assert (Forall2 (fun i ev => EvCreateNote <$> candidate_at self i = Some ev)
              (reverse indices)
              (EvCreateNote <$> reverse (proto <$> _generated_notes self))) as Hlog.
    { rewrite <-fmap_reverse, <-list_fmap_compose, fmap_reverse.
      apply Forall2_reverse, Forall2_fmap_r.
      eapply Forall2_impl; [apply Forall2_py_range|].
      intros i pn Hget. by rewrite (candidate_at_getitem _ _ _ Hget). }
    destruct (add_notes_starts self col indices (reverse requests)
                (reverse indices)) as [[_ Hstart] Hev].
    assert ((_add_notes self col indices).1
            = ExitCollectionOp (reverse requests) (reverse indices)) as Hexit.
    { apply Hstart. split_and!.
      - intros Hnil. apply Hne, nil_length_inv. unfold indices in Hnil.
        by rewrite <-(length_py_range (length (_generated_notes self))), Hnil.
      - symmetry. apply unique_indices_range.
      - unfold indices. by rewrite effective_selection_all. }
    specialize (Hev Hexit). unfold indices in Hev at 2.
    rewrite effective_selection_all in Hev. fold indices in Hev.
    rewrite (omap_Forall2 _ _ _ Hlog) in Hev.
    destruct (_add_notes self col indices) as [exit log]. simpl in *. by subst.
  - assert (_generated_notes
              (_on_add_success self
                 (reverse (py_range (length (_generated_notes self))))).1 = [])
      as Hnotes.
    { apply on_add_success_all. intros j Hj.
      apply elem_of_reverse, elem_of_py_range. lia. }
    split; [done|]. rewrite on_add_success_tree. by rewrite Hnotes.
Qed.

Lemma X9_witness :
  _on_add_all (sample_dialog [qa_note; dup_note]) sample_col
    = (ExitCollectionOp
         [{| req_note := ["B"; EmptyString]; req_deck_id := 1 |};
          {| req_note := ["Q"; "A"]; req_deck_id := 1 |}]
         [1; 0]%Z,
       [EvCreateNote dup_note; EvCreateNote qa_note])
  ∧ _generated_notes
      (_on_add_success (sample_dialog [qa_note; dup_note]) [1; 0]%Z).1 = [].
Proof.
  destruct (X9_add_all (sample_dialog [qa_note; dup_note]) sample_col
              [{| req_note := ["Q"; "A"]; req_deck_id := 1 |};
               {| req_note := ["B"; EmptyString]; req_deck_id := 1 |}])
    as (_ & _ & Hall & Hnone & _).
  split; [|exact Hnone]. apply Hall.
  - discriminate.
  - repeat constructor.
Defined.

(** ** What a batch leaves of the dialog *)

Lemma with_notes_same self :
  with_notes self (_generated_notes self) (previewTree self) = self.
Proof. by destruct self. Qed.

Lemma on_add_success_sublist self indices :
  _generated_notes (_on_add_success self indices).1 `sublist_of` _generated_notes self.
Proof. rewrite on_add_success_notes. apply kept_sublist. Qed.

(** The cases of a batch followed by the store's answer. *)
Lemma add_notes_session_cases store_accepts self col indices :
  ((add_notes_session store_accepts self col indices).1 = self
   ∧ EvTooltip ∉ (add_notes_session store_accepts self col indices).2)
  ∨ ∃ requests,
      (_add_notes self col indices).1
        = ExitCollectionOp requests (unique_indices_of indices)
      ∧ store_accepts requests = true
      ∧ (add_notes_session store_accepts self col indices).1
        = (_on_add_success self (unique_indices_of indices)).1
      ∧ (add_notes_session store_accepts self col indices).2
        = (_add_notes self col indices).2 ++ [EvAddNotes requests; EvTooltip].
Proof.
  unfold add_notes_session.
  pose proof (add_notes_log self col indices EvTooltip) as Hlog.
  assert (EvTooltip ∉ (_add_notes self col indices).2) as Hno.
  { intros [[c [=]] | [msg [=]]]%Hlog. }
  destruct (_add_notes self col indices) as [[| e | requests u] log] eqn:Hrun;
    cbn [fst snd] in *; [by left | by left |].
  assert (u = unique_indices_of indices) as ->.
  { destruct (add_notes_starts self col indices requests u) as [[Hu _] _].
    rewrite Hrun in Hu. by destruct (Hu eq_refl) as (_ & -> & _). }
  destruct (store_accepts requests) eqn:Hacc; cbn.
  - right. by exists requests.
  - left. split; [done|]. rewrite elem_of_app, !elem_of_cons, elem_of_nil.
    intros [? | [[=] | [[=] | []]]]. done.
Qed.

(** X10. A batch followed by the store's answer changes nothing of the
    dialog but the candidate list and its rows; the candidates left are a
    sublist of those before, so none is added or reordered. The dialog
    changes only when the submission was started and the store accepted
    it; when the store rejects it every candidate is still there. *)
Theorem X10_session_frame (store_accepts : list AddNoteRequest → bool)
    (self : Dialog) (col : Collection) (indices : list Z) :
  with_notes (add_notes_session store_accepts self col indices).1
      (_generated_notes self) (previewTree self) = self
  ∧ _generated_notes (add_notes_session store_accepts self col indices).1
      `sublist_of` _generated_notes self
  ∧ ((add_notes_session store_accepts self col indices).1 ≠ self →
     ∃ requests,
       (_add_notes self col indices).1
         = ExitCollectionOp requests (unique_indices_of indices)
       ∧ store_accepts requests = true
       ∧ EvAddNotes requests ∈ (add_notes_session store_accepts self col indices).2)
  ∧ ((∀ requests, store_accepts requests = false) →
     (add_notes_session store_accepts self col indices).1 = self).
Proof.
  destruct (add_notes_session_cases store_accepts self col indices)
    as [[Hsame Hno] | (requests & Hrun & Hacc & Hself & Hlog)].
  - rewrite Hsame. split_and!; [apply with_notes_same | done | done | done].
  - rewrite Hself, Hlog. split_and!.
    + unfold _on_add_success. cbn. by destruct self.
    + apply on_add_success_sublist.
    + intros _. exists requests. split_and!; [done | done |].
      rewrite elem_of_app. right. left.
    + intros Hnever. by rewrite Hnever in Hacc.
Qed.

Lemma X10_witness :
  (add_notes_session (fun _ => true) (sample_dialog [qa_note; dup_note])
     sample_col [0]%Z).1 = sample_dialog [dup_note]
  ∧ ∃ requests,
      (_add_notes (sample_dialog [qa_note; dup_note]) sample_col [0]%Z).1
        = ExitCollectionOp requests [0]%Z
      ∧ EvAddNotes requests
          ∈ (add_notes_session (fun _ => true) (sample_dialog [qa_note; dup_note])
               sample_col [0]%Z).2.
Proof.
  split; [vm_compute; reflexivity|].
  destruct (X10_session_frame (fun _ => true) (sample_dialog [qa_note; dup_note])
              sample_col [0]%Z) as (_ & _ & Hchanged & _).
  destruct Hchanged as (requests & Hrun & _ & Hlog).
  { vm_compute. discriminate. }
  exists requests. split; [exact Hrun | exact Hlog].
Defined.

(** ** The rows and the candidates *)

Lemma tree_consistent_with_models self combo cache selected :
  tree_consistent self → tree_consistent (with_models self combo cache selected).
Proof. done. Qed.

Lemma tree_consistent_populate_model_combo self provider models preserve :
  tree_consistent self →
  tree_consistent (_populate_model_combo self provider models preserve).
Proof. done. Qed.

Lemma tree_consistent_setEditText self text :
  tree_consistent self → tree_consistent (combo_setEditText self text).
Proof. intros H. unfold combo_setEditText. by case_decide. Qed.

Lemma tree_consistent_refresh self provider models :
  tree_consistent self →
  tree_consistent (_on_refresh_models_on_success self provider models).
Proof.
  intros H. unfold _on_refresh_models_on_success.
  destruct models as [|first rest]; [done|].
  destruct (truthy _); [done|]. by apply tree_consistent_setEditText.
Qed.

Lemma tree_consistent_session store_accepts self col indices :
  tree_consistent self →
  tree_consistent (add_notes_session store_accepts self col indices).1.
Proof.
  intros H.
  destruct (add_notes_session_cases store_accepts self col indices)
    as [[-> _] | (requests & _ & _ & -> & _)]; [done|].
  apply on_add_success_tree.
Qed.

Lemma tree_consistent_generate strip_html read_bytes path_name backend self form :
  tree_consistent self →
  tree_consistent
    (_on_generate_clicked strip_html read_bytes path_name backend self form).1.1.
Proof.
  intros H. unfold _on_generate_clicked, _build_request.
  destruct (request_input read_bytes path_name form) as [[[[ty tx] u] f]|msg|];
    [|done|done].
  cbn. destruct (backend _ _); done.
Qed.

Lemma tree_consistent_lookup self i item :
  tree_consistent self →
  previewTree self !! i = Some item →
  ∃ pn, _generated_notes self !! i = Some pn ∧ item = tree_item (i, pn).
Proof.
  intros Htree Hitem. rewrite Htree in Hitem.
  rewrite list_lookup_fmap in Hitem. unfold Py.enumerate in Hitem.
  rewrite list_lookup_imap in Hitem.
  destruct (_generated_notes self !! i) as [pn|]; [|done].
  injection Hitem as <-. by exists pn.
Qed.

(** X11. The preview tree always shows the candidate list: after
    [_set_preview_notes], [_populate_preview] and [_on_clear_clicked] there
    is one row per candidate, in order, with its three display texts and its
    position as data; a batch with the store's answer, a model refresh, a
    change of provider, typing a model and a generation keep it so. Every
    row of such a dialog then points at the candidate it displays. *)
Theorem X11_rows_follow_candidates (strip_html : string → string)
    (read_bytes : string → option (list ascii)) (path_name : string → string)
    (backend : SetAiConfigRequest → Request.t → option (list GeneratedNote))
    (store_accepts : list AddNoteRequest → bool)
    (self : Dialog) (form : Inputs) (col : Collection)
    (notes : list PreviewNote) (candidates : list GeneratedNote)
    (indices : list Z) (provider : Z) (models : list string) (text : string) :
  tree_consistent (_set_preview_notes self notes)
  ∧ tree_consistent (_populate_preview strip_html self candidates)
  ∧ tree_consistent (_on_clear_clicked self form).1
  ∧ tree_consistent (_on_add_success self indices).1
  ∧ (tree_consistent self →
     tree_consistent (add_notes_session store_accepts self col indices).1
     ∧ tree_consistent (_on_refresh_models_on_success self provider models)
     ∧ tree_consistent (select_provider self provider)
     ∧ tree_consistent (_on_model_text_changed self text)
     ∧ tree_consistent
         (_on_generate_clicked strip_html read_bytes path_name backend self form).1.1
     ∧ length (previewTree self) = length (_generated_notes self)
     ∧ ∀ i item, previewTree self !! i = Some item →
         user_role item = i
         ∧ ∃ pn, Py.getitem (_generated_notes self) (Z.of_nat (user_role item)) = Ok pn
                 ∧ text0 item = display_front pn
                 ∧ text1 item = display_back pn
                 ∧ text2 item = display_source pn).
Proof.
  split_and!; [done | done | done | done |]. intros Htree. split_and!.
  - by apply tree_consistent_session.
  - by apply tree_consistent_refresh.
  - done.
  - done.
  - by apply tree_consistent_generate.
  - rewrite Htree, length_fmap. unfold Py.enumerate. by rewrite length_imap.
  - intros i item Hitem.
    destruct (tree_consistent_lookup self i item Htree Hitem) as (pn & Hpn & ->).
    split; [done|]. exists pn. split; [by apply getitem_nat | done].
Qed.

Lemma X11_witness :
  tree_consistent
    (add_notes_session (fun _ => true) (sample_dialog [qa_note; dup_note])
       sample_col [0]%Z).1
  ∧ length (previewTree (sample_dialog [qa_note; dup_note])) = 2.
Proof.
  destruct (X11_rows_follow_candidates (fun s => s) (fun _ => None) (fun s => s)
              (fun _ _ => None) (fun _ => true) (sample_dialog [qa_note; dup_note])
              (sample_inputs textTab EmptyString)
              sample_col [] [] [0]%Z 1%Z [] EmptyString)
    as (_ & _ & _ & _ & Hkept).
  destruct Hkept as (Hsession & _ & _ & _ & _ & Hlen & _); [reflexivity|].
  split; [exact Hsession | exact Hlen].
Defined.

(** ** Indices outside the candidate list *)

Lemma snd_rows {A} (l : list A) k : snd <$> rows k l = l.
Proof.
  unfold rows. rewrite fmap_imap.
  rewrite <-(list_fmap_id l) at 2. rewrite <-imap_const. by apply imap_ext.
Qed.

Lemma elem_of_rows {A} (l : list A) k row :
  row ∈ rows k l → k ≤ row.1 < k + length l.
Proof.
  unfold rows. intros (i & x & -> & Hx)%elem_of_lookup_imap.
  apply lookup_lt_Some in Hx. simpl. lia.
Qed.

(** Indices that name no position remove nothing. *)
Lemma on_add_success_outside self indices :
  (∀ i, i ∈ indices → (i < 0 ∨ Z.of_nat (length (_generated_notes self)) ≤ i)%Z) →
  _generated_notes (_on_add_success self indices).1 = _generated_notes self.
Proof.
  intros Hout. rewrite on_add_success_notes.
  rewrite filter_all; [apply snd_rows|].
  intros row Hrow%elem_of_rows. rewrite elem_of_list_to_set.
  intros Hin%Hout. lia.
Qed.

Lemma getitem_negative_in_range {A} (l : list A) (i : Z) :
  (- Z.of_nat (length l) ≤ i < 0)%Z →
  ∃ x, l !! Z.to_nat (Z.of_nat (length l) + i) = Some x ∧ Py.getitem l i = Ok x.
Proof.
  intros Hi.
  destruct (lookup_lt_is_Some_2 l (Z.to_nat (Z.of_nat (length l) + i))) as [x Hx];
    [lia|].
  exists x. split; [done|]. unfold Py.getitem, Py.position.
  destruct (Z.ltb_spec i 0); [|lia].
  destruct (Z.ltb_spec (i + Z.of_nat (length l)) 0); [lia|].
  destruct (Z.leb_spec (Z.of_nat (length l)) (i + Z.of_nat (length l))); [lia|].
  cbn. replace (i + Z.of_nat (length l))%Z with (Z.of_nat (length l) + i)%Z by lia.
  by rewrite Hx.
Qed.

(** X12. Indices that are negative or at least the candidate count remove
    no candidate in [_on_add_success]. A selection of indices at or beyond
    the count still starts a submission, of no request. A negative index
    down to minus the count is not passed over by [_add_notes]: it reads the
    candidate counted from the end, whose assembled note is submitted, and
    that candidate stays in the list after the store has accepted it. *)
Theorem X12_indices_outside (self : Dialog) (col : Collection) (indices : list Z) :
  ((∀ i, i ∈ indices → (i < 0 ∨ Z.of_nat (length (_generated_notes self)) ≤ i)%Z) →
   _generated_notes (_on_add_success self indices).1 = _generated_notes self)
  ∧ (indices ≠ [] →
     (∀ i, i ∈ indices → (Z.of_nat (length (_generated_notes self)) ≤ i)%Z) →
     _add_notes self col indices
       = (ExitCollectionOp [] (unique_indices_of indices), []))
  ∧ (∀ i, (- Z.of_nat (length (_generated_notes self)) ≤ i < 0)%Z →
     effective_selection self [i] = [i]
     ∧ ∃ pn, _generated_notes self
               !! Z.to_nat (Z.of_nat (length (_generated_notes self)) + i) = Some pn
             ∧ candidate_at self i = Some (proto pn)
             ∧ (_add_notes self col [i]).2 !! 0 = Some (EvCreateNote (proto pn))
             ∧ _generated_notes (_on_add_success self [i]).1 = _generated_notes self).
Proof.
  split_and!.
  - apply on_add_success_outside.
  - intros Hne Hout.
    assert (effective_selection self indices = []) as Hsel.
    { unfold effective_selection. apply filter_none.
      intros i Hi. apply (proj1 (elem_of_unique_indices _ _)) in Hi.
      apply Hout in Hi. lia. }
    destruct (add_notes_starts self col indices [] (unique_indices_of indices))
      as [[_ Hstart] Hlog].
    assert ((_add_notes self col indices).1
            = ExitCollectionOp [] (unique_indices_of indices)) as Hexit.
    { apply Hstart. split_and!; [done | done |]. rewrite Hsel. constructor. }
    specialize (Hlog Hexit). rewrite Hsel in Hlog.
    destruct (_add_notes self col indices) as [exit log]. simpl in *. by subst.
  - intros i Hi.
    assert (unique_indices_of [i] = [i]) as Hu.
    { apply unique_indices_descending; [repeat constructor | done]. }
    destruct (getitem_negative_in_range (_generated_notes self) i Hi)
      as (pn & Hpn & Hget).
    split.
    { unfold effective_selection. rewrite Hu. apply filter_all.
      intros j ->%list_elem_of_singleton. lia. }
    exists pn. split_and!.
    + done.
    + by apply candidate_at_getitem.
    + unfold _add_notes. rewrite Hu. cbn [add_notes_loop].
      destruct (Z.leb_spec (Z.of_nat (length (_generated_notes self))) i); [lia|].
      rewrite Hget.
      destruct (_create_note self col (proto pn)) as [[note deck]|[msg|]]; done.
    + apply on_add_success_outside. intros j ->%list_elem_of_singleton. lia.
Qed.

Lemma X12_witness :
  _generated_notes
    (_on_add_success (sample_dialog [qa_note; dup_note]) [-1; 2; 5]%Z).1
    = _generated_notes (sample_dialog [qa_note; dup_note])
  ∧ _add_notes (sample_dialog [qa_note; dup_note]) sample_col [2; 5]%Z
    = (ExitCollectionOp [] [5; 2]%Z, [])
  ∧ candidate_at (sample_dialog [qa_note; dup_note]) (-1) = Some dup_note.
Proof.
  destruct (X12_indices_outside (sample_dialog [qa_note; dup_note]) sample_col
              [-1; 2; 5]%Z) as (Hkeep & _ & Hneg).
  destruct (X12_indices_outside (sample_dialog [qa_note; dup_note]) sample_col
              [2; 5]%Z) as (_ & Hempty & _).
  split_and!.
  - apply Hkeep. intros i Hi. cbn.
    repeat (apply elem_of_cons in Hi as [-> | Hi]); [lia | lia | lia |].
    by apply elem_of_nil in Hi.
  - apply Hempty; [discriminate|]. intros i Hi. cbn.
    repeat (apply elem_of_cons in Hi as [-> | Hi]); [lia | lia |].
    by apply elem_of_nil in Hi.
  - destruct (Hneg (-1)%Z) as (_ & pn & Hpn & Hcand & _); [cbn; lia|].
    cbn in Hpn. injection Hpn as <-. exact Hcand.
Defined.

(** ** Adding the selected rows *)

Lemma removed_count self indices :
  Forall (fun i => (0 ≤ i < Z.of_nat (length (_generated_notes self)))%Z) indices →
  removed_below indices (length (_generated_notes self))
    = length (unique_indices_of indices).
Proof.
  intros Hrange. unfold removed_below.
  rewrite <-(length_fmap Z.of_nat). apply Permutation_length, NoDup_Permutation.
  - apply (NoDup_fmap_2 _). apply NoDup_filter, NoDup_seq.
  - apply NoDup_unique_indices.
  - intros i. rewrite elem_of_unique_indices, list_elem_of_fmap. split.
    + by intros (j & -> & [Hj _]%list_elem_of_filter).
    + intros Hi. rewrite Forall_forall in Hrange. specialize (Hrange i Hi).
      exists (Z.to_nat i). split; [lia|]. apply list_elem_of_filter.
      rewrite Z2Nat.id by lia. split; [done|]. apply elem_of_seq. lia.
Qed.

(** X13. In a dialog whose rows show its candidates, [_on_add_selected]
    on rows of the tree passes over none of the chosen indices; each row
    makes [_add_notes] read the candidate whose texts the row displays;
    and once the store has accepted the notes the list is shorter by the
    number of distinct rows chosen. With no row selected nothing is done. *)
Theorem X13_add_selected (self : Dialog) (col : Collection)
    (selected : list TreeItem) :
  _on_add_selected self col [] = (ExitReturn, [])
  ∧ _on_add_selected self col selected
    = _add_notes self col ((fun item => Z.of_nat (user_role item)) <$> selected)
  ∧ (tree_consistent self →
     (∀ item, item ∈ selected → item ∈ previewTree self) →
     effective_selection self ((fun item => Z.of_nat (user_role item)) <$> selected)
       = unique_indices_of ((fun item => Z.of_nat (user_role item)) <$> selected)
     ∧ (∀ item, item ∈ selected →
        ∃ pn, candidate_at self (Z.of_nat (user_role item)) = Some (proto pn)
              ∧ text0 item = display_front pn
              ∧ text1 item = display_back pn
              ∧ text2 item = display_source pn)
     ∧ length (_generated_notes
                 (_on_add_success self
                    (unique_indices_of
                       ((fun item => Z.of_nat (user_role item)) <$> selected))).1)
       = length (_generated_notes self)
         - length (unique_indices_of
                     ((fun item => Z.of_nat (user_role item)) <$> selected))).
Proof.
  split; [done|]. split.
  { unfold _on_add_selected. destruct selected; [|done]. by cbn. }
  intros Htree Hsel.
  assert (∀ item, item ∈ selected →
            ∃ i pn, _generated_notes self !! i = Some pn ∧ item = tree_item (i, pn))
    as Hrow.
  { intros item (i & Hi)%Hsel%list_elem_of_lookup_1.
    exists i. by apply tree_consistent_lookup. }
  assert (Forall (fun i => (0 ≤ i < Z.of_nat (length (_generated_notes self)))%Z)
            ((fun item => Z.of_nat (user_role item)) <$> selected)) as Hrange.
  { apply Forall_fmap, Forall_forall. intros item (i & pn & Hpn & ->)%Hrow.
    apply lookup_lt_Some in Hpn. simpl. lia. }
  split_and!.
  - unfold effective_selection. apply filter_all.
    intros i Hi. apply (proj1 (elem_of_unique_indices _ _)) in Hi.
    rewrite Forall_forall in Hrange. specialize (Hrange i Hi). lia.
  - intros item (i & pn & Hpn & ->)%Hrow. exists pn. split; [|done].
    apply candidate_at_getitem. by apply getitem_nat.
  - rewrite on_add_success_notes.
    rewrite (kept_length
               (fun j => Z.of_nat j ∈ (list_to_set (unique_indices_of
                  ((fun item => Z.of_nat (user_role item)) <$> selected)) : gset Z)))
      by done.
    rewrite removed_below_set. fold (removed_below (unique_indices_of
      ((fun item => Z.of_nat (user_role item)) <$> selected))
      (length (_generated_notes self))).
    by rewrite removed_below_unique, removed_count.
Qed.

Lemma X13_witness :
  effective_selection (sample_dialog [qa_note; dup_note; pa_note]) [2; 0; 2]%Z
    = [2; 0]%Z
  ∧ length (_generated_notes
              (_on_add_success (sample_dialog [qa_note; dup_note; pa_note])
                 [2; 0]%Z).1) = 1.
Proof.
  destruct (X13_add_selected (sample_dialog [qa_note; dup_note; pa_note]) sample_col
              (tree_item <$> [(2, mk_preview pa_note); (0, mk_preview qa_note);
                              (2, mk_preview pa_note)]))
    as (_ & _ & Hsel).
  destruct Hsel as (Hall & _ & Hlen).
  - reflexivity.
  - intros item Hitem.
    repeat (apply elem_of_cons in Hitem as [-> | Hitem]);
      [| | | by apply elem_of_nil in Hitem].
    + apply list_elem_of_lookup. by exists 2.
    + apply list_elem_of_lookup. by exists 0.
    + apply list_elem_of_lookup. by exists 2.
  - split; [exact Hall | exact Hlen].
Defined.

(** ** Trimming *)

Lemma rstrip_rstrip s : rstrip (rstrip s) = rstrip s.
Proof.
  induction s as [|c s IH]; [done|]. cbn [rstrip].
  destruct (rstrip s) as [|c' r] eqn:Hr.
  - destruct (is_space c) eqn:Hc; [done|]. cbn [rstrip]. by rewrite Hc.
  - cbn [rstrip] in IH |- *. by rewrite IH.
Qed.

Lemma lstrip_head s :
  lstrip s = EmptyString ∨ ∃ c r, lstrip s = String c r ∧ is_space c = false.
Proof.
  induction s as [|c s IH]; [by left|]. cbn [lstrip].
  destruct (is_space c) eqn:Hc; [done|]. right. by exists c, s.
Qed.

Lemma lstrip_rstrip c r :
  is_space c = false → lstrip (rstrip (String c r)) = rstrip (String c r).
Proof.
  intros Hc. cbn [rstrip]. destruct (rstrip r); rewrite ?Hc; cbn [lstrip];
    by rewrite Hc.
Qed.

Lemma strip_strip s : strip (strip s) = strip s.
Proof.
  unfold strip. destruct (lstrip_head s) as [-> | (c & r & -> & Hc)]; [done|].
  by rewrite lstrip_rstrip, rstrip_rstrip.
Qed.

(** ** The model remembered for a provider *)

Lemma selected_after_typing self text :
  _selected_models (_on_model_text_changed self text) !! providerCombo self
    = if truthy (strip text) then Some (strip text) else None.
Proof.
  unfold _on_model_text_changed. cbn [with_models _selected_models].
  destruct (truthy (strip text)); [apply lookup_insert_eq | apply lookup_delete_eq].
Qed.

Lemma select_provider_text self provider :
  currentText (modelOverrideCombo (select_provider self provider))
    = default EmptyString (_selected_models self !! provider).
Proof. done. Qed.

Lemma select_provider_selected self provider :
  _selected_models (select_provider self provider)
    = match _selected_models self !! provider with
      | Some model =>
          if truthy (strip model)
          then <[provider := strip model]> (_selected_models self)
          else _selected_models self
      | None => _selected_models self
      end.
Proof.
  unfold select_provider, _on_provider_changed, _populate_model_combo.
  cbn [with_provider with_models providerCombo _selected_models].
  by destruct (_selected_models self !! provider).
Qed.

Lemma select_provider_trimmed self provider :
  models_trimmed self →
  _selected_models (select_provider self provider) = _selected_models self.
Proof.
  intros Htrim. rewrite select_provider_selected.
  destruct (_selected_models self !! provider) as [model|] eqn:Hm; [|done].
  destruct (Htrim provider model Hm) as [_ Hstrip]. rewrite Hstrip.
  destruct (truthy model); [|done]. by apply insert_id.
Qed.

Lemma models_trimmed_insert self combo cache provider text :
  models_trimmed self →
  models_trimmed
    (with_models self combo cache
       (if truthy (strip text)
        then <[provider := strip text]> (_selected_models self)
        else _selected_models self)).
Proof.
  intros Htrim r m. cbn [with_models _selected_models].
  destruct (truthy (strip text)) eqn:Ht; [|apply Htrim].
  destruct (decide (r = provider)) as [->|Hne].
  - rewrite lookup_insert_eq. intros [= <-].
    split; [by apply truthy_spec | apply strip_strip].
  - rewrite lookup_insert_ne by done. apply Htrim.
Qed.

Lemma models_trimmed_typed self combo cache provider text :
  models_trimmed self →
  models_trimmed
    (with_models self combo cache
       (if truthy (strip text)
        then <[provider := strip text]> (_selected_models self)
        else delete provider (_selected_models self))).
Proof.
  intros Htrim r m. cbn [with_models _selected_models].
  destruct (truthy (strip text)) eqn:Ht.
  - destruct (decide (r = provider)) as [->|Hne].
    + rewrite lookup_insert_eq. intros [= <-].
      split; [by apply truthy_spec | apply strip_strip].
    + rewrite lookup_insert_ne by done. apply Htrim.
  - intros [_ Hm]%lookup_delete_Some. by apply Htrim in Hm.
Qed.

Lemma models_trimmed_populate self provider models preserve :
  models_trimmed self →
  models_trimmed (_populate_model_combo self provider models preserve).
Proof. intros Htrim. unfold _populate_model_combo. by apply models_trimmed_insert. Qed.

Lemma models_trimmed_text_changed self text :
  models_trimmed self → models_trimmed (_on_model_text_changed self text).
Proof. intros Htrim. unfold _on_model_text_changed. by apply models_trimmed_typed. Qed.

Lemma models_trimmed_setEditText self text :
  models_trimmed self → models_trimmed (combo_setEditText self text).
Proof.
  intros Htrim. unfold combo_setEditText. case_decide; [done|].
  by apply models_trimmed_text_changed.
Qed.

Lemma models_trimmed_refresh self provider models :
  models_trimmed self →
  models_trimmed (_on_refresh_models_on_success self provider models).
Proof.
  intros Htrim. unfold _on_refresh_models_on_success.
  assert (models_trimmed
            (_populate_model_combo
               (with_models self (modelOverrideCombo self)
                  (<[provider := models]> (_models_cache self))
                  (_selected_models self))
               provider (Some models) true)) as Hpop
    by (by apply models_trimmed_populate).
  destruct models as [|first rest]; [done|].
  destruct (truthy _); [done|]. by apply models_trimmed_setEditText.
Qed.

(** X14. A model typed for the current provider is remembered trimmed,
    and a blank one is forgotten: after switching to any provider and back
    the model box shows the trimmed text again. *)
Theorem X14_model_memory (self : Dialog) (text : string) (other : Z) :
  _selected_models (_on_model_text_changed self text) !! providerCombo self
    = (if truthy (strip text) then Some (strip text) else None)
  ∧ currentText
      (modelOverrideCombo
         (select_provider (select_provider (_on_model_text_changed self text) other)
            (providerCombo self)))
    = strip text
  ∧ _selected_models
      (select_provider (select_provider (_on_model_text_changed self text) other)
         (providerCombo self)) !! providerCombo self
    = (if truthy (strip text) then Some (strip text) else None).
Proof.
  pose proof (selected_after_typing self text) as Htyped.
  set (s1 := _on_model_text_changed self text) in *.
  set (p := providerCombo self) in *.
  assert (_selected_models (select_provider s1 other) !! p
          = if truthy (strip text) then Some (strip text) else None) as Hother.
  { rewrite select_provider_selected.
    destruct (_selected_models s1 !! other) as [model|] eqn:Hm; [|done].
    destruct (truthy (strip model)) eqn:Hmodel; [|done].
    destruct (decide (p = other)) as [<-|Hne].
    - rewrite lookup_insert_eq. rewrite Htyped in Hm.
      destruct (truthy (strip text)); [|done]. injection Hm as <-.
      by rewrite strip_strip.
    - by rewrite lookup_insert_ne. }
  split; [done|]. split.
  - rewrite select_provider_text, Hother.
    destruct (strip text); done.
  - rewrite select_provider_selected, Hother.
    destruct (truthy (strip text)) eqn:Ht; [|by rewrite Hother].
    rewrite strip_strip, Ht. by rewrite lookup_insert_eq.
Qed.

(** X15. Once every remembered model is trimmed and non-empty it stays
    so under typing, filling the model box, a refresh and a change of
    provider; and in such a dialog a change of provider alters no remembered
    model. *)
Theorem X15_models_trimmed (self : Dialog) (provider : Z) (text : string)
    (models : option (list string)) (preserve : bool) (fetched : list string) :
  models_trimmed self →
  models_trimmed (_on_model_text_changed self text)
  ∧ models_trimmed (combo_setEditText self text)
  ∧ models_trimmed (_populate_model_combo self provider models preserve)
  ∧ models_trimmed (_on_refresh_models_on_success self provider fetched)
  ∧ models_trimmed (select_provider self provider)
  ∧ _selected_models (select_provider self provider) = _selected_models self.
Proof.
  intros Htrim. split_and!.
  - by apply models_trimmed_text_changed.
  - by apply models_trimmed_setEditText.
  - by apply models_trimmed_populate.
  - by apply models_trimmed_refresh.
  - unfold select_provider, _on_provider_changed. by apply models_trimmed_populate.
  - by apply select_provider_trimmed.
Qed.

Lemma X15_witness :
  _selected_models (select_provider (_on_model_text_changed (typing " m ") " m ") 2)
    = {[ 1%Z := "m" ]}.
Proof.
  destruct (X15_models_trimmed (_on_model_text_changed (typing " m ") " m ") 2
              EmptyString None false []) as (_ & _ & _ & _ & _ & Hsame).
  - intros r m. cbn. intros [<- <-]%lookup_singleton_Some. by split.
  - exact Hsame.
Defined.

(** ** The model cache *)

Lemma refresh_cache self provider models :
  _models_cache (_on_refresh_models_on_success self provider models)
    = <[provider := models]> (_models_cache self).
Proof.
  unfold _on_refresh_models_on_success.
  destruct models as [|first rest]; [done|].
  cbn [_populate_model_combo with_models modelOverrideCombo currentText].
  destruct (truthy _); [done|]. unfold combo_setEditText. by case_decide.
Qed.

Lemma select_provider_items self provider :
  items (modelOverrideCombo (select_provider self provider))
    = stated_model_list (default [] (_models_cache self !! provider)).
Proof.
  unfold select_provider, _on_provider_changed, _populate_model_combo.
  cbn [with_provider with_models providerCombo modelOverrideCombo items
       _models_cache].
  apply unique_loop_stated.
Qed.

Lemma select_provider_cache self provider :
  _models_cache (select_provider self provider) = _models_cache self.
Proof. done. Qed.

Lemma refresh_selected self provider models :
  truthy (strip (currentText (modelOverrideCombo self))) = true →
  _selected_models (_on_refresh_models_on_success self provider models)
    = <[provider := strip (currentText (modelOverrideCombo self))]>
        (_selected_models self).
Proof.
  intros Htext. unfold _on_refresh_models_on_success.
  destruct models as [|first rest];
    cbn [_populate_model_combo with_models modelOverrideCombo currentText
         _selected_models];
    rewrite ?Htext; [done|].
  unfold _populate_model_combo.
  cbn [with_models modelOverrideCombo currentText _selected_models].
  by rewrite Htext.
Qed.

(** X16. A successful refresh stores the fetched list, as fetched, for the
    provider it was started for and touches no other provider's list; the
    model box then offers the cleaned list, and offers it again whenever
    that provider is chosen later, while a provider without a stored list
    gets an empty box. A non-blank text in the model box at that moment is
    recorded, trimmed, as the model of the refreshed provider. *)
Theorem X16_model_cache (self : Dialog) (provider other : Z) (models : list string) :
  _models_cache (_on_refresh_models_on_success self provider models) !! provider
    = Some models
  ∧ (other ≠ provider →
     _models_cache (_on_refresh_models_on_success self provider models) !! other
       = _models_cache self !! other)
  ∧ items (modelOverrideCombo
             (select_provider
                (select_provider
                   (_on_refresh_models_on_success self provider models) other)
                provider))
    = items (modelOverrideCombo (_on_refresh_models_on_success self provider models))
  ∧ (_models_cache self !! other = None →
     items (modelOverrideCombo (select_provider self other)) = [])
  ∧ (truthy (strip (currentText (modelOverrideCombo self))) = true →
     _selected_models (_on_refresh_models_on_success self provider models) !! provider
       = Some (strip (currentText (modelOverrideCombo self)))).
Proof.
  split_and!.
  - by rewrite refresh_cache, lookup_insert_eq.
  - intros Hne. by rewrite refresh_cache, lookup_insert_ne.
  - rewrite select_provider_items, select_provider_cache, refresh_cache,
      lookup_insert_eq, refresh_items. done.
  - intros Hnone. by rewrite select_provider_items, Hnone.
  - intros Htext. by rewrite refresh_selected, lookup_insert_eq.
Qed.

Lemma X16_witness :
  _models_cache (_on_refresh_models_on_success (typing "m") 2 ["a"; " a "; "b"]) !! 1%Z
    = None
  ∧ items (modelOverrideCombo (select_provider (typing "m") 3)) = []
  ∧ _selected_models (_on_refresh_models_on_success (typing "m") 2 ["a"; " a "; "b"])
      !! 2%Z = Some "m".
Proof.
  destruct (X16_model_cache (typing "m") 2 1 ["a"; " a "; "b"])
    as (_ & Hother & _ & _ & Hsel).
  destruct (X16_model_cache (typing "m") 2 3 ["a"; " a "; "b"])
    as (_ & _ & _ & Hnone & _).
  split_and!.
  - rewrite Hother; [reflexivity | discriminate].
  - apply Hnone. reflexivity.
  - apply Hsel. reflexivity.
Defined.

(** ** The generation request *)

Lemma truthy_strip_false s : truthy (strip s) = false ↔ strip s = EmptyString.
Proof. by destruct (strip s). Qed.

(** How [request_input] ends, case by case. *)
Lemma request_input_cases read_bytes path_name form :
  match request_input read_bytes path_name form with
  | Accepted (ty, tx, u, f) =>
      match ty with
      | Request.INPUT_TYPE_TEXT =>
          currentTab form = textTab ∧ tx = strip (textInput form)
          ∧ tx ≠ EmptyString ∧ u = EmptyString ∧ f = None
      | Request.INPUT_TYPE_URL =>
          currentTab form = urlTab ∧ u = strip (urlInput form)
          ∧ u ≠ EmptyString ∧ tx = EmptyString ∧ f = None
      | Request.INPUT_TYPE_FILE =>
          currentTab form = fileTab ∧ tx = EmptyString ∧ u = EmptyString
          ∧ ∃ path bytes,
              _file_path form = Some path ∧ read_bytes path = Some bytes
              ∧ bytes ≠ []
              ∧ f = Some {| Request.filename := path_name path;
                            Request.data := bytes |}
      end
  | Rejected ai_generation_error_empty_text =>
      currentTab form = textTab ∧ strip (textInput form) = EmptyString
  | Rejected ai_generation_error_empty_url =>
      currentTab form = urlTab ∧ strip (urlInput form) = EmptyString
  | Rejected ai_generation_error_missing_file =>
      currentTab form = fileTab ∧ _file_path form = None
  | Rejected ai_generation_error_empty_file =>
      currentTab form = fileTab
      ∧ ∃ path, _file_path form = Some path ∧ read_bytes path = Some []
  | RaisedOSError =>
      currentTab form = fileTab
      ∧ ∃ path, _file_path form = Some path ∧ read_bytes path = None
  end.
Proof.
  unfold request_input. destruct (currentTab form).
  - destruct (strip (textInput form)) eqn:Ht; cbn; [done|].
    by split_and!.
  - destruct (strip (urlInput form)) eqn:Hu; cbn; [done|].
    by split_and!.
  - destruct (_file_path form) as [path|]; [|done].
    destruct (read_bytes path) as [[|b bytes]|] eqn:Hread.
    + split; [done|]. by exists path.
    + split_and!; [done..|]. by exists path, (b :: bytes).
    + split; [done|]. by exists path.
Qed.

(** [_build_request] touches neither the candidates nor their rows. *)
Lemma build_request_frame read_bytes path_name self form :
  _generated_notes (_build_request read_bytes path_name self form).1
    = _generated_notes self
  ∧ previewTree (_build_request read_bytes path_name self form).1 = previewTree self.
Proof.
  unfold _build_request.
  by destruct (request_input read_bytes path_name form) as [[[[ty tx] u] f]|msg|].
Qed.

(** A request that is not accepted leaves the dialog as it was. *)
Lemma build_request_unchanged read_bytes path_name self form :
  match (_build_request read_bytes path_name self form).2 with
  | Accepted _ => True
  | _ => (_build_request read_bytes path_name self form).1 = self
  end.
Proof.
  unfold _build_request.
  by destruct (request_input read_bytes path_name form) as [[[[ty tx] u] f]|msg|].
Qed.

(** X17. [_build_request] refuses exactly a blank text on the text tab,
    a blank address on the address tab, and a missing or empty file on the
    file tab, each with its own message, and lets the error of an
    unreadable file through; in all these cases the dialog is left as it
    was. An accepted request names the current provider and carries
    exactly one input, trimmed and non-empty, of the kind of the current
    tab; it asks for note type 0 when the default note type is ticked; and
    the model it names is the trimmed text of the model box, which is then
    also the model remembered for the provider, a blank one being
    forgotten. *)
Theorem X17_build_request (read_bytes : string → option (list ascii))
    (path_name : string → string) (self : Dialog) (form : Inputs) :
  match (_build_request read_bytes path_name self form).2 with
  | Accepted request =>
      Request.provider request = providerCombo self
      ∧ match Request.input_type request with
        | Request.INPUT_TYPE_TEXT =>
            currentTab form = textTab
            ∧ Request.text request = strip (textInput form)
            ∧ Request.text request ≠ EmptyString
            ∧ Request.url request = EmptyString ∧ Request.file request = None
        | Request.INPUT_TYPE_URL =>
            currentTab form = urlTab
            ∧ Request.url request = strip (urlInput form)
            ∧ Request.url request ≠ EmptyString
            ∧ Request.text request = EmptyString ∧ Request.file request = None
        | Request.INPUT_TYPE_FILE =>
            currentTab form = fileTab
            ∧ Request.text request = EmptyString
            ∧ Request.url request = EmptyString
            ∧ ∃ path bytes,
                _file_path form = Some path ∧ read_bytes path = Some bytes
                ∧ bytes ≠ []
                ∧ Request.file request
                  = Some {| Request.filename := path_name path;
                            Request.data := bytes |}
        end
      ∧ (Request.use_default_note_type request = true →
         Request.note_type_id request = 0%Z)
      ∧ (Request.use_default_note_type request = false →
         Request.note_type_id request = _current_note_type_id self)
      ∧ Request.deck_id request = _current_deck_id self
      ∧ Request.model_override request
        = strip (currentText (modelOverrideCombo self))
      ∧ _selected_models (_build_request read_bytes path_name self form).1
          !! providerCombo self
        = (if truthy (Request.model_override request)
           then Some (Request.model_override request) else None)
      ∧ with_models (_build_request read_bytes path_name self form).1
          (modelOverrideCombo self) (_models_cache self) (_selected_models self)
        = self
  | Rejected msg =>
      (_build_request read_bytes path_name self form).1 = self
      ∧ match msg with
        | ai_generation_error_empty_text =>
            currentTab form = textTab ∧ strip (textInput form) = EmptyString
        | ai_generation_error_empty_url =>
            currentTab form = urlTab ∧ strip (urlInput form) = EmptyString
        | ai_generation_error_missing_file =>
            currentTab form = fileTab ∧ _file_path form = None
        | ai_generation_error_empty_file =>
            currentTab form = fileTab
            ∧ ∃ path, _file_path form = Some path ∧ read_bytes path = Some []
        end
  | RaisedOSError =>
      (_build_request read_bytes path_name self form).1 = self
      ∧ currentTab form = fileTab
      ∧ ∃ path, _file_path form = Some path ∧ read_bytes path = None
  end.
Proof.
  pose proof (request_input_cases read_bytes path_name form) as Hinput.
  unfold _build_request.
  destruct (request_input read_bytes path_name form) as [[[[ty tx] u] f]|msg|];
    cbn [fst snd].
  - cbn [Request.provider Request.input_type Request.text Request.url
         Request.file Request.use_default_note_type Request.note_type_id
         Request.deck_id Request.model_override with_models _selected_models].
    split_and!; [done | done | by intros -> | by intros -> | done | done | |].
    + destruct (truthy (strip (currentText (modelOverrideCombo self))));
        [apply lookup_insert_eq | apply lookup_delete_eq].
    + by destruct self.
  - done.
  - done.
Qed.

Lemma X17_witness :
  _selected_models
    (_build_request (fun _ => None) (fun s => s) (typing " m ")
       (sample_inputs textTab " text ")).1 !! 1%Z = Some "m"
  ∧ (_build_request (fun _ => None) (fun s => s) (typing " m ")
       (sample_inputs urlTab "  ")).1 = typing " m "
  ∧ (_build_request (fun _ => None) (fun s => s) (typing " m ")
       (sample_inputs urlTab "  ")).2 = Rejected ai_generation_error_empty_url.
Proof.
  pose proof (X17_build_request (fun _ => None) (fun s => s) (typing " m ")
                (sample_inputs textTab " text ")) as Haccepted.
  pose proof (X17_build_request (fun _ => None) (fun s => s) (typing " m ")
                (sample_inputs urlTab "  ")) as Hrefused.
  assert ((_build_request (fun _ => None) (fun s => s) (typing " m ")
             (sample_inputs urlTab "  ")).2
          = Rejected ai_generation_error_empty_url) as Hurl by reflexivity.
  rewrite Hurl in Hrefused. destruct Hrefused as [Hsame _].
  destruct (_build_request (fun _ => None) (fun s => s) (typing " m ")
              (sample_inputs textTab " text ")) as [self' [request| |]] eqn:Hbuild;
    [|discriminate Hbuild..].
  destruct Haccepted as (_ & _ & _ & _ & _ & Hmodel & Hselected & _).
  cbn [fst snd] in *. split_and!; [|exact Hsame | exact Hurl].
  rewrite Hmodel in Hselected. exact Hselected.
Defined.

(** ** The configuration request *)

Lemma or_int_or_int a b : Py.or_int a (Py.or_int a b) = Py.or_int a b.
Proof. unfold Py.or_int. by case_decide. Qed.

Lemma build_config_selected self form :
  _selected_models (_build_config_request self form).1
    = if truthy (strip (currentText (modelOverrideCombo self)))
      then <[providerCombo self := strip (currentText (modelOverrideCombo self))]>
             (_selected_models self)
      else delete (providerCombo self) (_selected_models self).
Proof. done. Qed.

Lemma build_request_selected read_bytes path_name self form request :
  (_build_request read_bytes path_name self form).2 = Accepted request →
  _selected_models (_build_request read_bytes path_name self form).1
    = if truthy (strip (currentText (modelOverrideCombo self)))
      then <[providerCombo self := strip (currentText (modelOverrideCombo self))]>
             (_selected_models self)
      else delete (providerCombo self) (_selected_models self).
Proof.
  unfold _build_request.
  by destruct (request_input read_bytes path_name form) as [[[[ty tx] u] f]|msg|].
Qed.

(** X18. [_build_config_request] saves as default note type the note type
    of the combo when the default is ticked, keeping the saved one only when
    the combo has none, and 0 when it is not ticked; from then on the note
    type in effect is the combo's whenever it has one, and otherwise the one
    in effect before. The request names the same model as the generation
    request, and building it a second time changes nothing more. *)
Theorem X18_build_config_request (self : Dialog) (form : Inputs) :
  default_note_type_id (config (_build_config_request self form).2)
    = (if useDefaultNoteType self
       then Py.or_int (_current_note_type_id self) (_default_notetype_id self)
       else 0%Z)
  ∧ _default_notetype_id (_build_config_request self form).1
    = default_note_type_id (config (_build_config_request self form).2)
  ∧ _effective_note_type_id (_build_config_request self form).1
    = Py.or_int (_current_note_type_id self) (_effective_note_type_id self)
  ∧ preferred_model (config (_build_config_request self form).2)
    = strip (currentText (modelOverrideCombo self))
  ∧ _build_config_request (_build_config_request self form).1 form
    = _build_config_request self form.
Proof.
  split_and!; [done | done | | done |].
  - unfold _effective_note_type_id, _build_config_request.
    cbn [fst with_models with_default_notetype useDefaultNoteType
         _default_notetype_id _current_note_type_id noteTypeCombo].
    fold (_current_note_type_id self). unfold Py.or_int.
    destruct (useDefaultNoteType self); cbn [andb]; repeat case_decide;
      cbn [andb negb]; try done; try congruence.
  - unfold _build_config_request.
    cbn [fst with_models with_default_notetype useDefaultNoteType providerCombo
         _default_notetype_id modelOverrideCombo _models_cache _selected_models
         _current_note_type_id noteTypeCombo].
    fold (_current_note_type_id self).
    destruct (useDefaultNoteType self) eqn:Hdef; rewrite ?or_int_or_int;
      destruct (truthy (strip (currentText (modelOverrideCombo self))));
      rewrite ?insert_insert_eq, ?delete_delete_eq; done.
Qed.

(** ** API keys *)

Lemma reset_api_key_loop_entries entries : ∀ provider_masked,
  (reset_api_key_loop entries provider_masked).1
    = (fun entry : Z * LineEdit =>
         if truthy (strip (line_text entry.2))
         then (entry.1,
               {| line_text := EmptyString;
                  line_placeholder := ai_generation_saved_api_key_placeholder |})
         else entry) <$> entries.
Proof.
  induction entries as [|[p w] rest IH]; intros pm; [done|].
  cbn [reset_api_key_loop]. rewrite fmap_cons. cbn [fst snd].
  destruct (truthy (strip (line_text w))).
  - specialize (IH (<[p := true]> pm)).
    destruct (reset_api_key_loop rest _) as [rest' pm']. simpl in *. by rewrite IH.
  - specialize (IH pm).
    destruct (reset_api_key_loop rest _) as [rest' pm']. simpl in *. by rewrite IH.
Qed.

Lemma reset_api_key_loop_masked entries : ∀ provider_masked provider,
  (reset_api_key_loop entries provider_masked).2 !! provider
    = if decide (Exists (fun entry : Z * LineEdit =>
                           entry.1 = provider
                           ∧ truthy (strip (line_text entry.2)) = true) entries)
      then Some true else provider_masked !! provider.
Proof.
  induction entries as [|[p w] rest IH]; intros pm q.
  - cbn. rewrite decide_False; [done|]. by intros ?%Exists_nil.
  - cbn [reset_api_key_loop].
    destruct (truthy (strip (line_text w))) eqn:Hw.
    + specialize (IH (<[p := true]> pm) q).
      destruct (reset_api_key_loop rest _) as [rest' pm']. simpl in *.
      rewrite IH. destruct (decide (p = q)) as [->|Hne].
      * rewrite lookup_insert_eq. rewrite (decide_True (P := Exists _ (_ :: _)));
          [by case_decide|]. by left.
      * rewrite lookup_insert_ne by done.
        destruct (decide (Exists _ rest)) as [Hex|Hex].
        -- rewrite decide_True; [done|]. by right.
        -- rewrite decide_False; [done|].
           intros [[? _]|?]%Exists_cons; simpl in *; done.
    + specialize (IH pm q).
      destruct (reset_api_key_loop rest _) as [rest' pm']. simpl in *.
      rewrite IH. destruct (decide (Exists _ rest)) as [Hex|Hex].
      * rewrite decide_True; [done|]. by right.
      * rewrite decide_False; [done|].
        intros [[_ ?]|?]%Exists_cons; simpl in *; [congruence|done].
Qed.

Lemma reset_api_key_fields_eq form :
  _reset_api_key_fields form
    = with_api_keys form
        (reset_api_key_loop (_api_key_inputs form) (_provider_masked form)).1
        (reset_api_key_loop (_api_key_inputs form) (_provider_masked form)).2.
Proof.
  unfold _reset_api_key_fields. by destruct (reset_api_key_loop _ _).
Qed.

(** A pass over fields that are all blank changes nothing. *)
Lemma reset_api_key_loop_blank entries : ∀ provider_masked,
  Forall (fun entry : Z * LineEdit => truthy (strip (line_text entry.2)) = false)
         entries →
  reset_api_key_loop entries provider_masked = (entries, provider_masked).
Proof.
  induction entries as [|[p w] rest IH]; intros pm Hblank; [done|].
  apply Forall_cons in Hblank as [Hw Hrest]. cbn [reset_api_key_loop].
  simpl in Hw. rewrite Hw. by rewrite IH.
Qed.

Lemma reset_api_key_loop_is_blank entries provider_masked :
  Forall (fun entry : Z * LineEdit => truthy (strip (line_text entry.2)) = false)
         (reset_api_key_loop entries provider_masked).1.
Proof.
  rewrite reset_api_key_loop_entries. apply Forall_fmap, Forall_forall.
  intros [p w] _. simpl. by destruct (truthy (strip (line_text w))) eqn:Hw.
Qed.

Lemma NoDup_fst_unique {A B} (l : list (A * B)) x y1 y2 :
  NoDup l.*1 → (x, y1) ∈ l → (x, y2) ∈ l → y1 = y2.
Proof.
  induction l as [|[a b] l IH]; [by intros _ ?%elem_of_nil|].
  rewrite fmap_cons. cbn [fst]. intros [Ha Hl]%NoDup_cons.
  rewrite !elem_of_cons. intros [H1 | H1] [H2 | H2].
  - congruence.
  - injection H1 as -> ->. destruct Ha. apply list_elem_of_fmap. by exists (a, y2).
  - injection H2 as -> ->. destruct Ha. apply list_elem_of_fmap. by exists (a, y1).
  - by apply IH.
Qed.

Lemma collect_after_reset form entry :
  NoDup (_api_key_inputs form).*1 →
  entry ∈ _api_key_inputs form →
  collect_api_key
    (reset_api_key_loop (_api_key_inputs form) (_provider_masked form)).2
    (if truthy (strip (line_text entry.2))
     then (entry.1,
           {| line_text := EmptyString;
              line_placeholder := ai_generation_saved_api_key_placeholder |})
     else entry)
  = kept_key (collect_api_key (_provider_masked form) entry).
Proof.
  intros Hnodup Hin. destruct entry as [p w]. cbn [fst snd].
  unfold collect_api_key, kept_key.
  rewrite reset_api_key_loop_masked. cbn [fst snd].
  destruct (truthy (strip (line_text w))) eqn:Hw; cbn [fst snd line_text].
  - change (strip EmptyString) with EmptyString. cbn [truthy].
    rewrite decide_True; [cbn; by rewrite Hw|].
    apply Exists_exists. by exists (p, w).
  - rewrite ?Hw. rewrite decide_False.
    + by destruct (default false (_provider_masked form !! p)).
    + intros ([q w'] & Hin' & Hq & Hw')%Exists_exists. simpl in *. subst q.
      rewrite (NoDup_fst_unique _ _ _ _ Hnodup Hin' Hin) in Hw'. congruence.
Qed.

(** X19. After [_reset_api_key_fields] no key text is left in the form:
    [_collect_api_keys] then yields, provider by provider and in the same
    order, an entry without text that is masked exactly when the provider
    was masked before or had a key typed. A second reset changes nothing. *)
Theorem X19_keys_after_reset (form : Inputs) :
  NoDup (_api_key_inputs form).*1 →
  _collect_api_keys (_reset_api_key_fields form)
    = kept_key <$> _collect_api_keys form
  ∧ Forall (fun key => api_key key = EmptyString)
      (_collect_api_keys (_reset_api_key_fields form))
  ∧ _reset_api_key_fields (_reset_api_key_fields form) = _reset_api_key_fields form.
Proof.
  intros Hnodup.
  assert (_collect_api_keys (_reset_api_key_fields form)
          = kept_key <$> _collect_api_keys form) as Hkeys.
  { rewrite reset_api_key_fields_eq. unfold _collect_api_keys.
    cbn [with_api_keys _api_key_inputs _provider_masked].
    rewrite reset_api_key_loop_entries, <-!list_fmap_compose.
    apply Forall_fmap_ext_1, Forall_forall. intros entry Hin.
    by apply collect_after_reset. }
  split_and!.
  - done.
  - rewrite Hkeys. apply Forall_fmap, Forall_forall. by intros key _.
  - rewrite (reset_api_key_fields_eq (_reset_api_key_fields form)).
    rewrite reset_api_key_fields_eq.
    cbn [with_api_keys _api_key_inputs _provider_masked].
    rewrite (reset_api_key_loop_blank
               (reset_api_key_loop (_api_key_inputs form) (_provider_masked form)).1)
      by apply reset_api_key_loop_is_blank.
    done.
Qed.

Lemma X19_witness :
  _collect_api_keys (sample_inputs textTab "text")
    = [{| key_provider := 1; api_key := "k1"; masked := false |};
       {| key_provider := 2; api_key := EmptyString; masked := false |}]
  ∧ _collect_api_keys (_reset_api_key_fields (sample_inputs textTab "text"))
    = [{| key_provider := 1; api_key := EmptyString; masked := true |};
       {| key_provider := 2; api_key := EmptyString; masked := false |}].
Proof.
  destruct (X19_keys_after_reset (sample_inputs textTab "text")) as (Hkeys & _ & _).
  - cbn. repeat constructor.
    + intros [[=] | []%elem_of_nil]%elem_of_cons.
    + by intros ?%elem_of_nil.
  - split; [reflexivity|]. rewrite Hkeys. reflexivity.
Defined.

(** ** Saved keys *)

Lemma update_widget_keys entries provider change :
  (update_widget entries provider change).*1 = entries.*1.
Proof.
  induction entries as [|[p w] rest IH]; [done|]. cbn [update_widget].
  case_decide; [done|]. rewrite !fmap_cons. by rewrite IH.
Qed.

Lemma update_widget_other entries provider change p w :
  p ≠ provider → (p, w) ∈ entries → (p, w) ∈ update_widget entries provider change.
Proof.
  intros Hne. induction entries as [|[q w'] rest IH]; [done|].
  cbn [update_widget]. case_decide as Hq.
  - rewrite !elem_of_cons. intros [[= -> ->] | ?]; [congruence | by right].
  - rewrite !elem_of_cons. intros [? | ?]; [by left | right; by apply IH].
Qed.

Lemma update_widget_elem entries provider change :
  provider ∈ entries.*1 →
  ∃ w, (provider, w) ∈ entries
       ∧ (provider, change w) ∈ update_widget entries provider change.
Proof.
  induction entries as [|[q w'] rest IH]; [by intros ?%elem_of_nil|].
  rewrite fmap_cons. cbn [fst update_widget]. case_decide as Hq.
  - intros _. subst q. exists w'. split; left.
  - rewrite elem_of_cons. intros [-> | Hin]; [done|].
    destruct (IH Hin) as (w & Hw & Hw'). exists w. split; by right.
Qed.

Lemma load_api_key_keys form entry :
  (_api_key_inputs (load_api_key form entry)).*1 = (_api_key_inputs form).*1.
Proof. apply update_widget_keys. Qed.

Lemma foldl_load_keys entries : ∀ form,
  (_api_key_inputs (foldl load_api_key form entries)).*1 = (_api_key_inputs form).*1.
Proof.
  induction entries as [|e rest IH]; intros form; [done|].
  cbn [foldl]. by rewrite IH, load_api_key_keys.
Qed.

(** Entries for other providers leave a provider's widget and mark alone. *)
Lemma foldl_load_other entries p w : ∀ form,
  p ∉ key_provider <$> entries →
  (p, w) ∈ _api_key_inputs form →
  (p, w) ∈ _api_key_inputs (foldl load_api_key form entries)
  ∧ _provider_masked (foldl load_api_key form entries) !! p
    = _provider_masked form !! p.
Proof.
  induction entries as [|e rest IH]; intros form Hp Hw; [done|].
  rewrite fmap_cons in Hp. apply not_elem_of_cons in Hp as [Hne Hrest].
  cbn [foldl]. destruct (IH (load_api_key form e) Hrest) as [Hin Hmask].
  { by apply update_widget_other. }
  split; [done|]. rewrite Hmask. cbn. by rewrite lookup_insert_ne.
Qed.

Lemma foldl_load_sent entries : ∀ form entry,
  NoDup (key_provider <$> entries) →
  entry ∈ entries →
  key_provider entry ∈ (_api_key_inputs form).*1 →
  sent_key entry ∈ _collect_api_keys (foldl load_api_key form entries).
Proof.
  induction entries as [|e rest IH]; intros form entry Hnodup Hin Hkey;
    [by apply elem_of_nil in Hin|].
  rewrite fmap_cons in Hnodup. apply NoDup_cons in Hnodup as [Hfresh Hnodup].
  cbn [foldl]. apply elem_of_cons in Hin as [-> | Hin].
  - destruct (update_widget_elem (_api_key_inputs form) (key_provider e)
                (fun widget =>
                   if masked e then
                     {| line_text := EmptyString;
                        line_placeholder := ai_generation_saved_api_key_placeholder |}
                   else
                     {| line_text := api_key e;
                        line_placeholder := line_placeholder widget |}) Hkey)
      as (w & _ & Hw).
    destruct (foldl_load_other rest (key_provider e) _ (load_api_key form e)
                Hfresh Hw) as [Hfinal Hmask].
    unfold _collect_api_keys. apply list_elem_of_fmap. eexists. split; [|exact Hfinal].
    unfold collect_api_key, sent_key. cbn [fst snd]. rewrite Hmask.
    cbn [load_api_key with_api_keys _provider_masked]. rewrite lookup_insert_eq.
    destruct (masked e); cbn [line_text default].
    + done.
    + by destruct (strip (api_key e)).
  - apply IH; [done | done |]. by rewrite load_api_key_keys.
Qed.

(** X20. Round trip of the saved keys: after the loop of
    [_load_configuration] over the saved entries, [_collect_api_keys] yields
    one entry per key field, in the order of the fields, and for every saved
    entry that has a field it yields that entry again, masked as saved, with
    no text when masked and the trimmed key otherwise. *)
Theorem X20_saved_keys_round_trip (form : Inputs) (entries : list ProviderApiKey)
    (entry : ProviderApiKey) :
  NoDup (key_provider <$> entries) →
  entry ∈ entries →
  key_provider entry ∈ (_api_key_inputs form).*1 →
  sent_key entry ∈ _collect_api_keys (load_api_keys form entries)
  ∧ key_provider <$> _collect_api_keys (load_api_keys form entries)
    = (_api_key_inputs form).*1.
Proof.
  intros Hnodup Hin Hkey. split.
  - by apply foldl_load_sent.
  - unfold _collect_api_keys, load_api_keys.
    rewrite <-list_fmap_compose, <-(foldl_load_keys entries
      (with_api_keys form (_api_key_inputs form) ∅)).
    apply Forall_fmap_ext_1, Forall_forall. intros [p w] _.
    unfold collect_api_key. cbn.
    by repeat case_match.
Qed.

Lemma X20_witness :
  {| key_provider := 2; api_key := "k2"; masked := false |}
    ∈ _collect_api_keys
        (load_api_keys (sample_inputs textTab "text")
           [{| key_provider := 1; api_key := EmptyString; masked := true |};
            {| key_provider := 2; api_key := " k2 "; masked := false |}])
  ∧ key_provider
      <$> _collect_api_keys
            (load_api_keys (sample_inputs textTab "text")
               [{| key_provider := 1; api_key := EmptyString; masked := true |};
                {| key_provider := 2; api_key := " k2 "; masked := false |}])
    = [1; 2]%Z.
Proof.
  apply (X20_saved_keys_round_trip (sample_inputs textTab "text")
           [{| key_provider := 1; api_key := EmptyString; masked := true |};
            {| key_provider := 2; api_key := " k2 "; masked := false |}]
           {| key_provider := 2; api_key := " k2 "; masked := false |}).
  - cbn. repeat constructor.
    + intros [[=] | []%elem_of_nil]%elem_of_cons.
    + by intros ?%elem_of_nil.
  - right. left.
  - cbn. right. left.
Defined.

(** ** Clearing and generating *)

Lemma populate_preview_protos strip_html self notes :
  proto <$> _generated_notes (_populate_preview strip_html self notes) = notes.
Proof.
  unfold _populate_preview. cbn [_set_preview_notes with_notes _generated_notes].
  rewrite <-list_fmap_compose. rewrite <-(list_fmap_id notes) at 2.
  by apply Forall_fmap_ext_1, Forall_forall.
Qed.

Lemma candidate_at_protos self i note :
  (proto <$> _generated_notes self) !! i = Some note →
  candidate_at self (Z.of_nat i) = Some note.
Proof.
  rewrite list_lookup_fmap. intros Hi.
  destruct (_generated_notes self !! i) as [pn|] eqn:Hpn; [|done].
  injection Hi as <-. apply candidate_at_getitem. by apply getitem_nat.
Qed.

(** [_on_clear_clicked] in closed form. *)
Lemma clear_eq self form :
  _on_clear_clicked self form
    = ({| _generated_notes := [];
          previewTree := [];
          useDefaultNoteType := useDefaultNoteType self;
          _default_notetype_id := _default_notetype_id self;
          noteTypeCombo := noteTypeCombo self;
          deckCombo := deckCombo self;
          providerCombo := providerCombo self;
          modelOverrideCombo :=
            {| items := items (modelOverrideCombo self);
               currentText := EmptyString |};
          _models_cache := _models_cache self;
          _selected_models := delete (providerCombo self) (_selected_models self) |},
       {| currentTab := currentTab form;
          textInput := EmptyString;
          urlInput := EmptyString;
          urlPreview := EmptyString;
          filePathInput := EmptyString;
          _file_path := None;
          maxCardsSpin := maxCardsSpin form;
          promptOverrideEdit := EmptyString;
          _api_key_inputs := _api_key_inputs form;
          _provider_masked := _provider_masked form |}).
Proof.
  unfold _on_clear_clicked, combo_setEditText. case_decide; [done|].
  unfold _on_model_text_changed. change (strip EmptyString) with EmptyString.
  cbn. by rewrite delete_delete_eq.
Qed.

Lemma clear_rejected read_bytes path_name self form :
  ∃ msg,
    _build_request read_bytes path_name (_on_clear_clicked self form).1
      (_on_clear_clicked self form).2
    = ((_on_clear_clicked self form).1, Rejected msg).
Proof.
  rewrite clear_eq. unfold _build_request, request_input.
  cbn [fst snd currentTab textInput urlInput _file_path].
  destruct (currentTab form); cbn; by eexists.
Qed.

(** X21. [_on_clear_clicked] empties the candidate list with its rows,
    the model box and the four inputs, and forgets the model of the current
    provider only; the keys, the card count, the model lists and the other
    providers' models stay. Clearing twice is clearing once. Right after
    it, a click on Generate is refused with a message and reaches no
    backend, and Add All does nothing. *)
Theorem X21_clear (strip_html : string → string)
    (read_bytes : string → option (list ascii)) (path_name : string → string)
    (backend : SetAiConfigRequest → Request.t → option (list GeneratedNote))
    (self : Dialog) (form : Inputs) (col : Collection) :
  _generated_notes (_on_clear_clicked self form).1 = []
  ∧ previewTree (_on_clear_clicked self form).1 = []
  ∧ currentText (modelOverrideCombo (_on_clear_clicked self form).1) = EmptyString
  ∧ _selected_models (_on_clear_clicked self form).1
    = delete (providerCombo self) (_selected_models self)
  ∧ _models_cache (_on_clear_clicked self form).1 = _models_cache self
  ∧ _collect_api_keys (_on_clear_clicked self form).2 = _collect_api_keys form
  ∧ maxCardsSpin (_on_clear_clicked self form).2 = maxCardsSpin form
  ∧ _on_clear_clicked (_on_clear_clicked self form).1 (_on_clear_clicked self form).2
    = _on_clear_clicked self form
  ∧ (∃ msg,
       _on_generate_clicked strip_html read_bytes path_name backend
         (_on_clear_clicked self form).1 (_on_clear_clicked self form).2
       = ((_on_clear_clicked self form).1, (_on_clear_clicked self form).2,
          [GenShowInfo (InputRejected msg)]))
  ∧ _on_add_all (_on_clear_clicked self form).1 col = (ExitReturn, []).
Proof.
  split_and!; try (by rewrite clear_eq).
  - rewrite !clear_eq. cbn. by rewrite delete_delete_eq.
  - destruct (clear_rejected read_bytes path_name self form) as [msg Hmsg].
    exists msg. unfold _on_generate_clicked. by rewrite Hmsg.
Qed.

(** X22. A click on Generate whose input is refused shows the message,
    starts nothing and leaves dialog and form as they were. Otherwise the
    backend is asked once, with the configuration built from the form as
    it is then, keys included. When it fails the candidates, their rows and
    the form are those of before. When it answers, the candidates are the
    notes of the answer, in order, so that row [i] adds note [i]; the key
    fields are reset, so no key text is left to send again; and an empty
    answer is reported. *)
Theorem X22_generate (strip_html : string → string)
    (read_bytes : string → option (list ascii)) (path_name : string → string)
    (backend : SetAiConfigRequest → Request.t → option (list GeneratedNote))
    (self : Dialog) (form : Inputs) :
  match (_build_request read_bytes path_name self form).2 with
  | Rejected msg =>
      _on_generate_clicked strip_html read_bytes path_name backend self form
        = (self, form, [GenShowInfo (InputRejected msg)])
  | RaisedOSError =>
      _on_generate_clicked strip_html read_bytes path_name backend self form
        = (self, form, [GenOSError])
  | Accepted request =>
      ∃ config_request,
        config_request
          = (_build_config_request
               (_build_request read_bytes path_name self form).1 form).2
        ∧ api_keys (config config_request) = _collect_api_keys form
        ∧ preferred_model (config config_request) = Request.model_override request
        ∧ match backend config_request request with
          | None =>
              (_on_generate_clicked strip_html read_bytes path_name backend
                 self form).2
                = [GenBackground config_request request; GenShowException]
              ∧ (_on_generate_clicked strip_html read_bytes path_name backend
                   self form).1.2 = form
              ∧ _generated_notes
                  (_on_generate_clicked strip_html read_bytes path_name backend
                     self form).1.1 = _generated_notes self
              ∧ previewTree
                  (_on_generate_clicked strip_html read_bytes path_name backend
                     self form).1.1 = previewTree self
          | Some notes =>
              (_on_generate_clicked strip_html read_bytes path_name backend
                 self form).2
                = GenBackground config_request request
                    :: match notes with
                       | [] => [GenShowInfo ai_generation_no_cards_returned]
                       | _ :: _ => []
                       end
              ∧ proto <$> _generated_notes
                  (_on_generate_clicked strip_html read_bytes path_name backend
                     self form).1.1 = notes
              ∧ (∀ i note, notes !! i = Some note →
                 candidate_at
                   (_on_generate_clicked strip_html read_bytes path_name backend
                      self form).1.1 (Z.of_nat i) = Some note)
              ∧ (_on_generate_clicked strip_html read_bytes path_name backend
                   self form).1.2 = _reset_api_key_fields form
              ∧ Forall (fun entry : Z * LineEdit =>
                          strip (line_text entry.2) = EmptyString)
                  (_api_key_inputs
                     (_on_generate_clicked strip_html read_bytes path_name
                        backend self form).1.2)
          end
  end.
Proof.
  unfold _on_generate_clicked.
  pose proof (build_request_frame read_bytes path_name self form) as Hframe.
  pose proof (build_request_unchanged read_bytes path_name self form) as Hsame.
  destruct (_build_request read_bytes path_name self form) as [self' [request|msg|]]
    eqn:Hbuild; cbn [fst snd] in *; [|by subst..].
  exists (_build_config_request self' form).2.
  assert (Request.model_override request
          = strip (currentText (modelOverrideCombo self'))) as Hmodel.
  { revert Hbuild. unfold _build_request.
    destruct (request_input read_bytes path_name form) as [[[[ty tx] u] f]|?|];
      [|done|done].
    by intros [= <- <-]. }
  split_and!; [done | done | by rewrite Hmodel |].
  destruct (_build_config_request self' form) as [self'' config_request] eqn:Hconfig.
  cbn [fst snd].
  assert (_generated_notes self'' = _generated_notes self
          ∧ previewTree self'' = previewTree self) as [Hnotes Htree].
  { assert (self'' = (_build_config_request self' form).1) as ->
      by (by rewrite Hconfig).
    destruct Hframe as [Hn Ht]. cbn. by rewrite <-Hn, <-Ht. }
  destruct (backend config_request request) as [notes|].
  - unfold _on_generate_finished. cbn [fst snd].
    assert (proto <$> _generated_notes (_populate_preview strip_html self'' notes)
            = notes) as Hprotos by apply populate_preview_protos.
    split_and!; [done | done | | done |].
    + intros i note Hi. apply candidate_at_protos. by rewrite Hprotos.
    + rewrite reset_api_key_fields_eq. cbn [with_api_keys _api_key_inputs].
      eapply Forall_impl; [apply reset_api_key_loop_is_blank|].
      intros [p w]. simpl. by destruct (strip (line_text w)).
  - done.
Qed.

Lemma X22_witness :
  proto
    <$> _generated_notes
          (_on_generate_clicked (fun s => s) (fun _ => None) (fun s => s)
             (fun _ _ => Some [qa_note; cited_note]) (typing " m ")
             (sample_inputs textTab " text ")).1.1
    = [qa_note; cited_note]
  ∧ _collect_api_keys
      (_on_generate_clicked (fun s => s) (fun _ => None) (fun s => s)
         (fun _ _ => Some [qa_note; cited_note]) (typing " m ")
         (sample_inputs textTab " text ")).1.2
    = [{| key_provider := 1; api_key := EmptyString; masked := true |};
       {| key_provider := 2; api_key := EmptyString; masked := false |}].
Proof.
  pose proof (X22_generate (fun s => s) (fun _ => None) (fun s => s)
                (fun _ _ => Some [qa_note; cited_note]) (typing " m ")
                (sample_inputs textTab " text ")) as Hgen.
  destruct (_build_request (fun _ => None) (fun s => s) (typing " m ")
              (sample_inputs textTab " text ")).2 as [request| |] eqn:Hbuild;
    [|discriminate Hbuild..].
  destruct Hgen as (config_request & _ & _ & _ & _ & Hprotos & _ & Hform & _).
  split; [exact Hprotos|]. rewrite Hform. reflexivity.
Defined.
